(** * bridgeit-common: the messaging layer of [lib/aws-common.js]

    A shallow embedding of the naming, caching and provisioning code of
    [lib/aws-common.js], and the properties of it that the design
    document states.

    JavaScript values are an inductive type, strings are [string] (the
    names the module accepts are ASCII, and so are the texts of the
    model), numbers are the integer-valued ones ([Z]) of a magnitude
    below 10^21, from where on JavaScript prints a number with an
    exponent, objects keep their properties in insertion order (property
    names that are array indices, which JavaScript enumerates first, are
    not modelled).  The cloud provider, the scope service and the AWS
    client factory ([./aws-client], [./scopes]) are collaborators outside
    the file: they are an interface ([Provider]) over an abstract world,
    whose answers have the shapes that the code reads, and every request
    sent to them is recorded in a log with its answer.  The callbacks of
    the code are the results of a state-and-error monad; [async] and
    [lodash] are modelled by what they do to the arguments they get
    here. *)

From Stdlib Require Import ZArith Ascii String List Bool Lia.
From stdpp Require Import base option list gmap strings pretty.

Local Open Scope string_scope.

(** ** JavaScript values and the built-ins the module relies on *)

Module Js.

#[warnings="-register-all"]
Inductive JsValue : Type :=
| JUndefined
| JNull
| JBool (b : bool)
| JNum (n : Z)
| JStr (s : string)
| JArr (items : list JsValue)
| JObj (props : list (string * JsValue))
| JFun (src : string).

(** [if (v)], [!v], [a || b]. *)
Definition truthy (v : JsValue) : bool :=
  match v with
  | JUndefined | JNull => false
  | JBool b => b
  | JNum n => negb (n =? 0)%Z
  | JStr s => negb (String.eqb s "")
  | JArr _ | JObj _ | JFun _ => true
  end.

Definition truthyStr (s : string) : bool := negb (String.eqb s "").

(** [o || d] for an optional string [o] ([None] is [undefined]). *)
Definition orElse (o : option string) (d : string) : string :=
  match o with
  | Some s => if truthyStr s then s else d
  | None => d
  end.

(** [String(v)], as [RegExp.prototype.test] and [+] apply it.  A number is
    printed with all its digits, as JavaScript prints the integers below
    10^21; the exponent form that it uses from there on ([1e+21]) is not
    modelled. *)
Fixpoint ToString (v : JsValue) : string :=
  match v with
  | JUndefined => "undefined"
  | JNull => "null"
  | JBool true => "true"
  | JBool false => "false"
  | JNum n => pretty n
  | JStr s => s
  | JArr items =>
      (fix join (l : list JsValue) : string :=
         match l with
         | [] => ""
         | x :: rest =>
             let sx := match x with
                       | JUndefined | JNull => ""
                       | _ => ToString x
                       end in
             match rest with
             | [] => sx
             | _ => sx ++ "," ++ join rest
             end
         end) items
  | JObj _ => "[object Object]"
  | JFun src => src
  end.

(** lodash: [_.isUndefined], [_.isObject], [_.isString], [_.isNumber],
    [_.isArray], [_.isEmpty].  [_.isEmpty] is true of everything that is
    not a collection with elements: of [undefined], [null], [""], [[]],
    [{}], and also of every number and boolean. *)
Definition isUndefined (v : JsValue) : bool :=
  match v with JUndefined => true | _ => false end.

Definition isObject (v : JsValue) : bool :=
  match v with JArr _ | JObj _ | JFun _ => true | _ => false end.

Definition isString (v : JsValue) : bool :=
  match v with JStr _ => true | _ => false end.

Definition isNumber (v : JsValue) : bool :=
  match v with JNum _ => true | _ => false end.

Definition isArray (v : JsValue) : bool :=
  match v with JArr _ => true | _ => false end.

Definition isFunction (v : JsValue) : bool :=
  match v with JFun _ => true | _ => false end.

Definition isEmpty (v : JsValue) : bool :=
  match v with
  | JUndefined | JNull => true
  | JStr s => String.eqb s ""
  | JArr items => match items with [] => true | _ => false end
  | JObj props => match props with [] => true | _ => false end
  | JBool _ | JNum _ | JFun _ => true
  end.

(** [s.substring(0, n)] and [s.substring(n)]. *)
Definition substring_to (n : nat) (s : string) : string :=
  String.substring 0 n s.

Definition substring_from (n : nat) (s : string) : string :=
  String.substring n (String.length s - n) s.

(** [s.indexOf(pat)]: [None] is [-1]. *)
Definition indexOf (pat s : string) : option nat := String.index 0 pat s.

End Js.
Export Js.

(** ** Names (lines 27-62, 129-131) *)

Definition DLQ_TOPIC_NAME : string := "internal".
Definition DLQ_QUEUE_NAME : string := "dlq".
Definition MULTIPLE_TOPICS : string := "multipleTopics".

(** The class [[a-zA-Z0-9\-\_]] of the regular expression. *)
Definition inRange (lo hi c : ascii) : bool :=
  (N_of_ascii lo <=? N_of_ascii c)%N && (N_of_ascii c <=? N_of_ascii hi)%N.

Definition nameClass (c : ascii) : bool :=
  inRange "a" "z" c || inRange "A" "Z" c || inRange "0" "9" c
  || Ascii.eqb c "-" || Ascii.eqb c "_".

(** [([class]){0,n}$]: at most [n] more characters of the class, then the
    end of the input. *)
Fixpoint matchAtMost (n : nat) (s : string) {struct s} : bool :=
  match s with
  | EmptyString => true
  | String c rest =>
      match n with
      | O => false
      | S n' => nameClass c && matchAtMost n' rest
      end
  end.

(** [RegExp('^([a-zA-Z0-9\\-\\_]){1,' + numOfChars + '}$').test(s)]: one
    character of the class, at most [numOfChars - 1] more, the end. *)
Definition reTest (numOfChars : nat) (s : string) : bool :=
  match numOfChars, s with
  | S n', String c rest => nameClass c && matchAtMost n' rest
  | _, _ => false
  end.

Definition isValidName (name : JsValue) (length : nat) : bool :=
  if negb (truthy name) then false
  else
    let numOfChars := match length with O => 24 | _ => length end in
    reTest numOfChars (ToString name).

Definition isValidTopicName (topicName : JsValue) : bool :=
  isValidName topicName 24.

Definition isValidQueueName (queueName : JsValue) : bool :=
  isValidName queueName 80.

Definition getTopicName (topicNames : list JsValue) : JsValue :=
  match topicNames with
  | [only] => only
  | _ => JStr MULTIPLE_TOPICS
  end.

(** The validators as the design document words them: a length between 1
    and the limit, and every character one of the letters, digits, [_]
    and [-]. *)
Definition allowedCharacters : string :=
  "ABCDEFGHIJKLMNOPQRSTUVWXYZabcdefghijklmnopqrstuvwxyz0123456789_-".

Definition allowedChar (c : ascii) : bool :=
  existsb (Ascii.eqb c) (list_ascii_of_string allowedCharacters).

Definition wellFormedName (limit : nat) (s : string) : bool :=
  (1 <=? String.length s)%nat && (String.length s <=? limit)%nat
  && forallb allowedChar (list_ascii_of_string s).

(** ** Events and message attributes (lines 986-1088) *)

Record MessageAttribute : Type := mkAttr {
  DataType : string;
  StringValue : string
}.

Global Instance MessageAttribute_eq_dec : EqDecision MessageAttribute.
Proof. solve_decision. Defined.

Definition UNDEFINED_FILLER : string := "[value is undefined]".

(** The result is the one-property object [{key: attribute}], or
    [undefined] ([None]) for a value that is neither string nor number. *)
Definition convertPropertyToAttribute (key : string) (value : JsValue)
  : option (gmap string MessageAttribute) :=
  if isUndefined value || isEmpty value then
    Some {[ key := mkAttr "String" UNDEFINED_FILLER ]}
  else if isString value then
    Some {[ key := mkAttr "String" (ToString value) ]}
  else if isNumber value then
    Some {[ key := mkAttr "Number" (ToString value) ]}
  else None.

(** One turn of the [ld.forEach] over the event's own properties. *)
Definition convertProperty (attrs : gmap string MessageAttribute)
    (prop : string * JsValue) : gmap string MessageAttribute :=
  let '(key, val) := prop in
  if isUndefined val then attrs
  else if isObject val then attrs
  else
    match convertPropertyToAttribute key val with
    | Some convert =>
        match convert !! key with
        | Some attr => <[ key := attr ]> attrs
        | None => attrs
        end
    | None => attrs
    end.

Definition convertEventToMessageAttributes (event : list (string * JsValue))
  : gmap string MessageAttribute :=
  foldl convertProperty ∅ event.

(** The event of the design document's example:
    [{a: "x", b: 5, c: {nested: 1}, d: undefined}]. *)
Definition exampleEvent : list (string * JsValue) :=
  [ ("a", JStr "x"); ("b", JNum 5);
    ("c", JObj [("nested", JNum 1)]); ("d", JUndefined) ].

(** The attribute map the design document expects for it. *)
Definition exampleAttributes : gmap string MessageAttribute :=
  {[ "a" := mkAttr "String" "x";
     "b" := mkAttr "Number" "5";
     "d" := mkAttr "String" "[value is undefined]" ]}.

(** ** Callbacks, the collaborators and the module's state *)

Record JsError : Type := mkError { message : string }.

(** How an asynchronous operation ends: [cb(null, a)], [cb(err)], an
    exception that escapes (so that the callback is never invoked), or no
    answer at all within the paging budget of the model. *)
Inductive Outcome (A : Type) : Type :=
| Success (a : A)
| Failure (err : JsError)
| Uncaught (err : JsError)
| Pending.

Arguments Success {A} a.
Arguments Failure {A} err.
Arguments Uncaught {A} err.
Arguments Pending {A}.

(** An entry of [data.Subscriptions], and the answer of [sns.subscribe]. *)
Record Subscription : Type := mkSubscription {
  SubscriptionArn : option string;
  Endpoint : option string;
  Protocol : option string;
  SubscriptionTopicArn : option string
}.

(** The answer of [sns.listSubscriptionsByTopic]: one page of the
    subscriptions, and the token of the next page if there is one. *)
Record ListSubscriptionsResponse : Type := mkListSubscriptions {
  Subscriptions : list Subscription;
  SubscriptionsNextToken : option string
}.

Record ListTopicsResponse : Type := mkListTopics {
  Topics : list string;          (* the [TopicArn] of every entry *)
  NextToken : option string
}.

(** The parameters of [sns.addPermission] (line 120). *)
Record PublishPermissionParams : Type := mkPublishPermission {
  AWSAccountId : list string;
  ActionName : list string;
  Label : string;
  PermissionTopicArn : option string
}.

(** The requests the module sends to its collaborators, indexed by the
    shape of the answer it reads. *)
Inductive Request : Type -> Type :=
| GetClients : Request unit
| ScopesGetEnvironmentAttribute : Request (option string)
    (* [voyent_config.default.host] of the environment scope *)
| SnsListTopics (nextToken : option string) : Request ListTopicsResponse
| SnsCreateTopic (name : string) : Request (option string)
    (* [data.TopicArn] *)
| SnsAddPermission (params : PublishPermissionParams) : Request JsValue
| SnsDeleteTopic (topicArn : JsValue) : Request JsValue
| SnsSubscribe (protocol : string) (topicArn : JsValue)
    (endpoint : option string) : Request Subscription
| SnsListSubscriptionsByTopic (topicArn : JsValue)
    : Request ListSubscriptionsResponse
| SnsSetSubscriptionAttributes (attributeName : string)
    (subscriptionArn : option string) (attributeValue : option string)
    : Request JsValue
| SnsGetTopicAttributes (topicArn : JsValue) : Request (option string)
    (* [data.Attributes.Policy] *)
| SnsSetTopicAttributes (attributeName : string) (topicArn : JsValue)
    (attributeValue : option string) : Request JsValue
| SqsCreateQueue (queueName : string) (attributes : list (string * string))
    : Request (option string)   (* [data.QueueUrl] *)
| SqsGetQueueUrl (queueName : string) : Request (option string)
| SqsGetQueueAttributes (queueUrl : string)
    : Request (option (option string))
    (* [data], and in it [Attributes.QueueArn] *)
| SqsSetQueueAttributes (queueUrl : option string)
    (attributes : list (string * option string)) : Request JsValue
| SqsDeleteQueue (queueUrl : option string) : Request JsValue.

(** The collaborators, as a parameter of the module: every request is
    answered with an error or with data, and may change the world. *)
Class Provider (W : Type) : Type := {
  respond : forall A : Type, Request A -> W -> (JsError + A) * W
}.

Arguments respond {W _ A} _ _.

(** An entry of the log: a request and the answer it got. *)
Record LoggedRequest : Type := Logged {
  answerShape : Type;
  request : Request answerShape;
  answer : JsError + answerShape
}.

Arguments Logged {_} _ _.

(** [process.env], as far as the module reads it. *)
Record ProcessEnv : Type := mkProcessEnv {
  ENVIRONMENT_NAME : option string;
  SERVICE_NAME : option string;
  topicAccountPermissions : option string
}.

(** The module's variables (lines 30-36), the environment, the world of
    the collaborators and the log of the requests sent so far. *)
Record State (W : Type) : Type := mkState {
  processEnv : ProcessEnv;
  environmentName : option string;
  serviceName : option string;
  cachedTopicArns : gmap string string;
  world : W;
  calls : list LoggedRequest
}.

Arguments mkState {W}.
Arguments processEnv {W}.
Arguments environmentName {W}.
Arguments serviceName {W}.
Arguments cachedTopicArns {W}.
Arguments world {W}.
Arguments calls {W}.

Definition initialState {W : Type} (env : ProcessEnv) (w : W) : State W :=
  mkState env None None ∅ w [].

Definition M (W A : Type) : Type := State W -> Outcome A * State W.

Definition ret {W A : Type} (a : A) : M W A := fun st => (Success a, st).

Definition fail {W A : Type} (msg : string) : M W A :=
  fun st => (Failure (mkError msg), st).

Definition throw {W A : Type} (msg : string) : M W A :=
  fun st => (Uncaught (mkError msg), st).

Definition bind {W A B : Type} (m : M W A) (k : A -> M W B) : M W B :=
  fun st =>
    match m st with
    | (Success a, st') => k a st'
    | (Failure e, st') => (Failure e, st')
    | (Uncaught e, st') => (Uncaught e, st')
    | (Pending, st') => (Pending, st')
    end.

Notation "x <- m ;; k" := (bind m (fun x => k))
  (at level 100, m at next level, right associativity).
Notation "m ;;; k" := (bind m (fun _ => k))
  (at level 100, right associativity).

Definition setEnvironmentName {W : Type} (e : string) (st : State W) : State W :=
  mkState (processEnv st) (Some e) (serviceName st) (cachedTopicArns st)
    (world st) (calls st).

Definition setServiceName {W : Type} (s : string) (st : State W) : State W :=
  mkState (processEnv st) (environmentName st) (Some s) (cachedTopicArns st)
    (world st) (calls st).

Definition setCachedTopicArns {W : Type} (c : gmap string string)
    (st : State W) : State W :=
  mkState (processEnv st) (environmentName st) (serviceName st) c
    (world st) (calls st).

(** The number of requests in a log that a test selects. *)
Definition countCalls (p : LoggedRequest -> bool) (log : list LoggedRequest)
  : nat :=
  length (filter (fun r => p r = true) log).

Definition isListTopics (r : LoggedRequest) : bool :=
  match r with Logged (SnsListTopics _) _ => true | _ => false end.

Definition isSubscribe (r : LoggedRequest) : bool :=
  match r with Logged (SnsSubscribe _ _ _) _ => true | _ => false end.

Definition isSetTopicAttributes (r : LoggedRequest) : bool :=
  match r with Logged (SnsSetTopicAttributes _ _ _) _ => true | _ => false end.

(** The cache object [cachedTopicArns = {}]: its own properties are the
    cached ARNs; a name that is not its own is looked up in
    [Object.prototype]. *)
Definition objectPrototypeMethods : list string :=
  [ "constructor"; "__defineGetter__"; "__defineSetter__"; "hasOwnProperty";
    "__lookupGetter__"; "__lookupSetter__"; "isPrototypeOf";
    "propertyIsEnumerable"; "toString"; "valueOf"; "toLocaleString" ].

Definition cacheGet (cache : gmap string string) (key : string) : JsValue :=
  match cache !! key with
  | Some arn => JStr arn
  | None =>
      if String.eqb key "__proto__" then JObj []
      else if String.eqb key "constructor"
           then JFun "function Object() { [native code] }"
      else if existsb (String.eqb key) objectPrototypeMethods
           then JFun ("function " ++ key ++ "() { [native code] }")
           else JUndefined
  end.

(** [cachedTopicArns[key] = arn]; assigning a string to [__proto__] has no
    effect. *)
Definition cacheSet (cache : gmap string string) (key arn : string)
  : gmap string string :=
  if String.eqb key "__proto__" then cache else <[ key := arn ]> cache.

(** The body of the [ld.each] of [cacheTopicArns] (lines 775-786). *)
Definition cacheTopicArn (envName : string) (cache : gmap string string)
    (arn : string) : gmap string string :=
  let envPrefix := envName ++ "_" in
  match indexOf envPrefix arn with
  | Some envNameIndex =>
      let envTopicName := substring_from envNameIndex arn in
      let topicName := substring_from (String.length envPrefix) envTopicName in
      cacheSet cache topicName arn
  | None => cache
  end.

(** ** More built-ins: splitting, trimming, JSON text *)

(** [s.split(sep)] for a one-character separator. *)
Fixpoint split (sep : ascii) (s : string) : list string :=
  match s with
  | EmptyString => [EmptyString]
  | String c rest =>
      if Ascii.eqb c sep then EmptyString :: split sep rest
      else
        match split sep rest with
        | [] => [String c EmptyString]
        | first :: others => String c first :: others
        end
  end.

(** [parts.join(sep)]. *)
Fixpoint join (sep : string) (parts : list string) : string :=
  match parts with
  | [] => ""
  | [p] => p
  | p :: rest => p ++ sep ++ join sep rest
  end.

(** The white space that [String.prototype.trim] strips, as far as ASCII
    has it: the space and the characters 9 to 13.  The other white space
    of Unicode (U+00A0, U+FEFF, U+2028 and the like) does not occur in the
    texts of the model. *)
Definition isWhiteSpace (c : ascii) : bool :=
  existsb (Ascii.eqb c)
    [" "%char; "009"%char; "010"%char; "011"%char; "012"%char; "013"%char].

Fixpoint trimStart (s : string) : string :=
  match s with
  | EmptyString => EmptyString
  | String c rest => if isWhiteSpace c then trimStart rest else s
  end.

(** [trimEnd] drops the white space that only white space follows. *)
Fixpoint trimEnd (s : string) : string :=
  match s with
  | EmptyString => EmptyString
  | String c rest =>
      match trimEnd rest with
      | EmptyString => if isWhiteSpace c then EmptyString
                       else String c EmptyString
      | kept => String c kept
      end
  end.

Definition trim (s : string) : string := trimEnd (trimStart s).

(** [parts[i] = v] on an array: an index past the end leaves holes, which
    [join] prints as empty strings. *)
Fixpoint setIndex (i : nat) (v : string) (parts : list string) : list string :=
  match i, parts with
  | O, [] => [v]
  | O, _ :: rest => v :: rest
  | S i', [] => "" :: setIndex i' v []
  | S i', p :: rest => p :: setIndex i' v rest
  end.

Definition doubleQuote : ascii := "034"%char.
Definition backslash : ascii := "092"%char.

Definition hexDigit (n : N) : ascii :=
  if (n <? 10)%N then ascii_of_N (48 + n) else ascii_of_N (87 + n).

(** The escape of one character inside a JSON string. *)
Definition escapeChar (c : ascii) : string :=
  if Ascii.eqb c doubleQuote then String backslash (String doubleQuote "")
  else if Ascii.eqb c backslash then String backslash (String backslash "")
  else if Ascii.eqb c "008"%char then String backslash "b"
  else if Ascii.eqb c "012"%char then String backslash "f"
  else if Ascii.eqb c "010"%char then String backslash "n"
  else if Ascii.eqb c "013"%char then String backslash "r"
  else if Ascii.eqb c "009"%char then String backslash "t"
  else if (N_of_ascii c <? 32)%N then
    String backslash
      ("u00" ++ String (hexDigit (N_of_ascii c / 16))
                  (String (hexDigit (N_of_ascii c mod 16)) ""))
  else String c "".

Fixpoint escapeString (s : string) : string :=
  match s with
  | EmptyString => EmptyString
  | String c rest => escapeChar c ++ escapeString rest
  end.

Definition quoteString (s : string) : string :=
  String doubleQuote (escapeString s ++ String doubleQuote "").

(** [JSON.stringify(v)]; [None] is the [undefined] it returns for
    [undefined] and for functions.  Inside an array these print as
    [null], inside an object their property is left out. *)
Fixpoint JSON_stringify (v : JsValue) : option string :=
  match v with
  | JUndefined => None
  | JFun _ => None
  | JNull => Some "null"
  | JBool true => Some "true"
  | JBool false => Some "false"
  | JNum n => Some (pretty n)
  | JStr s => Some (quoteString s)
  | JArr items =>
      Some ("[" ++
        join "," ((fix elements (l : list JsValue) : list string :=
                     match l with
                     | [] => []
                     | x :: rest =>
                         match JSON_stringify x with
                         | Some t => t
                         | None => "null"
                         end :: elements rest
                     end) items)
        ++ "]")
  | JObj props =>
      Some ("{" ++
        join "," ((fix members (l : list (string * JsValue)) : list string :=
                     match l with
                     | [] => []
                     | (k, x) :: rest =>
                         match JSON_stringify x with
                         | Some t => (quoteString k ++ ":" ++ t) :: members rest
                         | None => members rest
                         end
                     end) props)
        ++ "}")
  end.

(** [o[key]] and [ld.get(o, 'a.b')] on a value. *)
Fixpoint getProperty (key : string) (props : list (string * JsValue))
  : JsValue :=
  match props with
  | [] => JUndefined
  | (k, v) :: rest => if String.eqb k key then v else getProperty key rest
  end.

Definition ld_get1 (v : JsValue) (key : string) : JsValue :=
  match v with
  | JObj props => getProperty key props
  | _ => JUndefined
  end.

(** [o[key] = v] on an object that has the property. *)
Fixpoint setProperty (key : string) (v : JsValue)
    (props : list (string * JsValue)) : list (string * JsValue) :=
  match props with
  | [] => [(key, v)]
  | (k, old) :: rest =>
      if String.eqb k key then (k, v) :: rest
      else (k, old) :: setProperty key v rest
  end.

Definition ofOption (o : option string) : JsValue :=
  match o with
  | Some s => JStr s
  | None => JUndefined
  end.

(** [JSON.parse(text)]: [None] is the [SyntaxError].  The numbers of the
    model are the integers, so a number with a fraction or an exponent is
    not read. *)
Fixpoint skipWhiteSpace (s : string) : string :=
  match s with
  | String c rest =>
      if existsb (Ascii.eqb c) [" "%char; "009"%char; "010"%char; "013"%char]
      then skipWhiteSpace rest else s
  | EmptyString => EmptyString
  end.

Definition hexValue (c : ascii) : option N :=
  let n := N_of_ascii c in
  if (48 <=? n)%N && (n <=? 57)%N then Some (n - 48)%N
  else if (97 <=? n)%N && (n <=? 102)%N then Some (n - 87)%N
  else if (65 <=? n)%N && (n <=? 70)%N then Some (n - 55)%N
  else None.

Definition prepend (c : ascii) (parsed : option (string * string))
  : option (string * string) :=
  match parsed with
  | Some (body, remaining) => Some (String c body, remaining)
  | None => None
  end.

(** The characters of a string literal after its opening quote, up to
    the closing one. *)
Fixpoint parseStringBody (s : string) : option (string * string) :=
  match s with
  | EmptyString => None
  | String c rest =>
      if Ascii.eqb c doubleQuote then Some (EmptyString, rest)
      else if (N_of_ascii c <? 32)%N then None
      else if Ascii.eqb c backslash then
        match rest with
        | String e rest' =>
            if Ascii.eqb e doubleQuote then
              prepend doubleQuote (parseStringBody rest')
            else if Ascii.eqb e backslash then
              prepend backslash (parseStringBody rest')
            else if Ascii.eqb e "/" then prepend "/" (parseStringBody rest')
            else if Ascii.eqb e "b" then prepend "008" (parseStringBody rest')
            else if Ascii.eqb e "f" then prepend "012" (parseStringBody rest')
            else if Ascii.eqb e "n" then prepend "010" (parseStringBody rest')
            else if Ascii.eqb e "r" then prepend "013" (parseStringBody rest')
            else if Ascii.eqb e "t" then prepend "009" (parseStringBody rest')
            else if Ascii.eqb e "u" then
              match rest' with
              | String h1 (String h2 (String h3 (String h4 rest''))) =>
                  match hexValue h1, hexValue h2, hexValue h3, hexValue h4 with
                  | Some 0%N, Some 0%N, Some a, Some b =>
                      prepend (ascii_of_N (16 * a + b)) (parseStringBody rest'')
                  | _, _, _, _ => None
                  end
              | _ => None
              end
            else None
        | EmptyString => None
        end
      else prepend c (parseStringBody rest)
  end.

Definition isDigit (c : ascii) : bool :=
  (48 <=? N_of_ascii c)%N && (N_of_ascii c <=? 57)%N.

(** The digits at the head of [s], as a number, and what follows them. *)
Fixpoint parseDigits (acc : Z) (s : string) : Z * string :=
  match s with
  | String c rest =>
      if isDigit c then
        parseDigits (10 * acc + Z.of_N (N_of_ascii c - 48)) rest
      else (acc, s)
  | EmptyString => (acc, s)
  end.

Definition endsNumber (s : string) : bool :=
  match s with
  | String c _ =>
      negb (Ascii.eqb c "." || Ascii.eqb c "e" || Ascii.eqb c "E" || isDigit c)
  | EmptyString => true
  end.

(** An optional minus sign, then [0] or digits that do not start with
    [0]. *)
Definition parseInteger (s : string) : option (Z * string) :=
  let unsigned (t : string) : option (Z * string) :=
    match t with
    | String c rest =>
        if Ascii.eqb c "0" then
          if endsNumber rest then Some (0%Z, rest) else None
        else if isDigit c then
          let '(n, after) := parseDigits 0 t in
          if endsNumber after then Some (n, after) else None
        else None
    | EmptyString => None
    end in
  match s with
  | String c rest =>
      if Ascii.eqb c "-" then
        match unsigned rest with
        | Some (n, after) => Some ((- n)%Z, after)
        | None => None
        end
      else unsigned s
  | EmptyString => None
  end.

Definition parseLiteral (word : string) (v : JsValue) (s : string)
  : option (JsValue * string) :=
  if String.prefix word s then
    Some (v, String.substring (String.length word)
               (String.length s - String.length word) s)
  else None.

Fixpoint parseValue (budget : nat) (s : string) {struct budget}
  : option (JsValue * string) :=
  match budget with
  | O => None
  | S budget' =>
      match skipWhiteSpace s with
      | EmptyString => None
      | String c rest =>
          if Ascii.eqb c "[" then
            match skipWhiteSpace rest with
            | String "]" after => Some (JArr [], after)
            | _ => parseElements budget' [] rest
            end
          else if Ascii.eqb c "{" then
            match skipWhiteSpace rest with
            | String "}" after => Some (JObj [], after)
            | _ => parseMembers budget' [] rest
            end
          else if Ascii.eqb c doubleQuote then
            match parseStringBody rest with
            | Some (text, after) => Some (JStr text, after)
            | None => None
            end
          else if Ascii.eqb c "t" then parseLiteral "true" (JBool true) (String c rest)
          else if Ascii.eqb c "f" then parseLiteral "false" (JBool false) (String c rest)
          else if Ascii.eqb c "n" then parseLiteral "null" JNull (String c rest)
          else
            match parseInteger (String c rest) with
            | Some (n, after) => Some (JNum n, after)
            | None => None
            end
      end
  end
with parseElements (budget : nat) (read : list JsValue) (s : string)
    {struct budget} : option (JsValue * string) :=
  match budget with
  | O => None
  | S budget' =>
      match parseValue budget' s with
      | Some (v, after) =>
          match skipWhiteSpace after with
          | String "," more => parseElements budget' (read ++ [v])%list more
          | String "]" more => Some (JArr (read ++ [v])%list, more)
          | _ => None
          end
      | None => None
      end
  end
with parseMembers (budget : nat) (read : list (string * JsValue)) (s : string)
    {struct budget} : option (JsValue * string) :=
  match budget with
  | O => None
  | S budget' =>
      match skipWhiteSpace s with
      | String c rest =>
          if Ascii.eqb c doubleQuote then
            match parseStringBody rest with
            | Some (key, after) =>
                match skipWhiteSpace after with
                | String ":" more =>
                    match parseValue budget' more with
                    | Some (v, after') =>
                        match skipWhiteSpace after' with
                        | String "," more' =>
                            parseMembers budget' (setProperty key v read) more'
                        | String "}" more' =>
                            Some (JObj (setProperty key v read), more')
                        | _ => None
                        end
                    | None => None
                    end
                | _ => None
                end
            | None => None
            end
          else None
      | EmptyString => None
      end
  end.

Definition JSON_parse (text : string) : option JsValue :=
  match parseValue (2 * String.length text + 2) text with
  | Some (v, after) =>
      match skipWhiteSpace after with
      | EmptyString => Some v
      | _ => None
      end
  | None => None
  end.

(** [ld.some(collection, predicate)]. *)
Definition ld_some (collection : JsValue) (predicate : JsValue -> bool)
  : bool :=
  match collection with
  | JArr items => existsb predicate items
  | JObj props => existsb (fun p => predicate (snd p)) props
  | JStr s =>
      existsb (fun c => predicate (JStr (String c ""))) (list_ascii_of_string s)
  | _ => false
  end.

(** [JSON.stringify(a) == JSON.stringify(b)]. *)
Definition sameJSON (a b : JsValue) : bool :=
  bool_decide (JSON_stringify a = JSON_stringify b).

(** The elements of an array; nothing for any other value. *)
Definition arrayItems (v : JsValue) : list JsValue :=
  match v with
  | JArr items => items
  | _ => []
  end.

(** A subscription as [createSubscription] receives it (line 1646). *)
Record SubscriptionRequest : Type := mkSubscriptionRequest {
  subscription_topicNames : JsValue;
  subscription_queueName : JsValue;
  subscription_filter : JsValue
}.

(** ** Policies (lines 64-126) and the configuration they read *)

Module config.
Definition aws_queues_messageRetention : string := "43200".
Definition aws_queues_visibilityTimeout : string := "180".
Definition aws_queues_pollingInterval : string := "20".
Definition aws_dlq_maxReceiveCount : string := "10".
Definition aws_dlq_messageRetention : string := "1209600".
End config.

(** [None] is the [TypeError] of [queueArn.split] on [undefined]. *)
Definition getQueuePolicy (queueArn : option string) : option JsValue :=
  match queueArn with
  | None => None
  | Some arn =>
      let split5 := take 5 (split ":" arn) in
      let sourceArn := join ":" (setIndex 2 "sns" split5) ++ ":*" in
      Some (JObj
        [ ("Version", JStr "2012-10-17");
          ("Id", JStr (arn ++ "/SQSDefaultPolicy"));
          ("Statement", JArr
             [ JObj
                 [ ("Effect", JStr "Allow");
                   ("Principal", JObj [("AWS", JStr "*")]);
                   ("Action", JStr "SQS:SendMessage");
                   ("Resource", JStr arn);
                   ("Condition", JObj
                      [("ArnEquals", JObj
                          [("aws:SourceArn", JStr sourceArn)])]) ] ]) ])
  end.

Definition getRedrivePolicy (dlqArn : option string) : JsValue :=
  JObj [ ("deadLetterTargetArn", ofOption dlqArn);
         ("maxReceiveCount", JStr config.aws_dlq_maxReceiveCount) ].

(** The account that the [topicAccountPermissions] entries name for a
    topic: the last matching entry decides.  [inl tt] is the [TypeError]
    of [pieces[1].trim()] on an entry without a colon. *)
Fixpoint permittedAccount (topicName : JsValue) (entries : list string)
    (account : option string) : unit + option string :=
  match entries with
  | [] => inr account
  | entry :: rest =>
      let pieces := split ":" entry in
      let matches :=
        match topicName, pieces with
        | JStr t, p0 :: _ => String.eqb (trim p0) t
        | _, _ => false
        end in
      if matches then
        match pieces with
        | _ :: p1 :: _ => permittedAccount topicName rest (Some (trim p1))
        | _ => inl tt
        end
      else permittedAccount topicName rest account
  end.

(** The callback that [async.map] hands to its iteratee.  Only one thing
    about its text matters here: as the source text of a function it has
    characters that no name may have. *)
Definition asyncCallback : JsValue := JFun "function () { [native code] }".

(** The [i]-th argument of a call; a missing one is [undefined]. *)
Definition argument (i : nat) (args : list JsValue) : JsValue :=
  nth i args JUndefined.

(** The name that [getServiceName] works from: the module's variable
    when it is set, else [SERVICE_NAME], else the placeholder. *)
Definition configuredServiceName {W : Type} (st : State W) : string :=
  match serviceName st with
  | Some s => if truthyStr s then s
              else orElse (SERVICE_NAME (processEnv st)) "SERVICE_NAME_UNKNOWN"
  | None => orElse (SERVICE_NAME (processEnv st)) "SERVICE_NAME_UNKNOWN"
  end.

Section Module.

Context {W : Type} {provider : Provider W}.

(** The number of pages of a paginated listing that the model follows;
    a listing with more pages than that is [Pending]. *)
Variable pageBudget : nat.

Local Abbreviation M := (M W).

(** A request to a collaborator: logged, answered, and the world updated. *)
Definition call {A : Type} (r : Request A) : M A :=
  fun st =>
    let '(answer, w') := respond r (world st) in
    let st' := mkState (processEnv st) (environmentName st) (serviceName st)
                 (cachedTopicArns st) w' (calls st ++ [Logged r answer]) in
    match answer with
    | inl err => (Failure err, st')
    | inr data => (Success data, st')
    end.

(** [awsClient.getClients(function (err, clients) {...})]. *)
Definition getClients : M unit := call GetClients.

(** *** Identity (lines 1898-1956) *)

Definition getServiceName : State W -> string * State W :=
  fun st =>
    let current := configuredServiceName st in
    let truncated :=
      if (24 <? String.length current)%nat then substring_to 23 current
      else current in
    (truncated, setServiceName truncated st).

(** The name derived from the host of the environment scope (lines
    1927-1936). *)
Definition environmentNameOfHost (host : string) : string :=
  let name :=
    match indexOf "." host with
    | Some firstDot =>
        if (0 <? firstDot)%nat then substring_to firstDot host else host
    | None => host
    end in
  if (12 <? String.length name)%nat then substring_to 11 name else name.

Definition getEnvironmentName : M string :=
  fun st =>
    if truthyStr (orElse (environmentName st) "") then
      (Success (orElse (environmentName st) ""), st)
    else if truthyStr (orElse (ENVIRONMENT_NAME (processEnv st)) "") then
      let e := orElse (ENVIRONMENT_NAME (processEnv st)) "" in
      (Success e, setEnvironmentName e st)
    else
      (host <- call ScopesGetEnvironmentAttribute ;;
       if truthyStr (orElse host "") then
         let e := environmentNameOfHost (orElse host "") in
         fun st' => (Success e, setEnvironmentName e st')
       else
         fail "cannot find voyent_config.default.host in environment scope") st.

(** *** Qualified names (lines 1961-2011) *)

Definition getQualifiedTopicName (topicName : JsValue) : M string :=
  if negb (isValidTopicName topicName) then
    fail ("topic name is invalid " ++ ToString topicName)
  else
    eName <- getEnvironmentName ;;
    ret (eName ++ "_" ++ ToString topicName).

Definition getQualifiedQueueName (topicName queueName : JsValue) : M string :=
  if negb (isValidTopicName topicName) then
    fail ("topic name is invalid " ++ ToString topicName)
  else if negb (isValidQueueName queueName) then
    fail ("queue name is invalid " ++ ToString queueName)
  else
    tName <- getQualifiedTopicName topicName ;;
    fun st =>
      let '(sName, st') := getServiceName st in
      (Success (tName ++ "_" ++ sName ++ "_" ++ ToString queueName), st').

(** *** The ARN cache (lines 677-866) *)

(** The [async.doWhilst] of [getAllTopics]: one page per turn, as long
    as the page names a next one. *)
Fixpoint getAllTopics_from (budget : nat) (nextToken : option string)
    (allTopics : list string) : M (list string) :=
  match budget with
  | O => fun st => (Pending, st)
  | S budget' =>
      getClients ;;;
      data <- call (SnsListTopics
                      (if truthyStr (orElse nextToken "") then nextToken
                       else None)) ;;
      let allTopics' := (allTopics ++ Topics data)%list in
      if truthyStr (orElse (NextToken data) "") then
        getAllTopics_from budget' (NextToken data) allTopics'
      else ret allTopics'
  end.

Definition getAllTopics : M (list string) :=
  getAllTopics_from pageBudget None [].

Definition cacheTopicArns : M unit :=
  allTopics <- getAllTopics ;;
  envName <- getEnvironmentName ;;
  fun st =>
    (Success tt,
     setCachedTopicArns
       (foldl (cacheTopicArn envName) (cachedTopicArns st) allTopics) st).

Definition getTopicArn (topicName : JsValue) : M JsValue :=
  if negb (isValidTopicName topicName) then
    fail ("invalid topic name " ++ ToString topicName)
  else
    fun st =>
      let cached := cacheGet (cachedTopicArns st) (ToString topicName) in
      if truthy cached then (Success cached, st)
      else
        (cacheTopicArns ;;;
         fun st' =>
           let topicArn :=
             cacheGet (cachedTopicArns st') (ToString topicName) in
           if negb (truthy topicArn) then
             (Failure (mkError ("cannot get ARN for " ++ ToString topicName)),
              st')
           else (Success topicArn, st')) st.

(** [arnQueue.push({topicName}, cb)]: in a sequential run the task is
    alone in the queue, and the worker hands it to [getTopicArn]. *)
Definition queuedGetTopicArn (topicName : JsValue) : M JsValue :=
  getTopicArn topicName.

(** *** Queue URLs and ARNs (lines 877-981) *)

Definition getQueueUrl (topicName queueName : JsValue) : M (option string) :=
  if negb (isValidTopicName topicName) then
    fail ("topic name is invalid " ++ ToString topicName)
  else if negb (isValidQueueName queueName) then
    fail ("queue name is invalid " ++ ToString queueName)
  else
    qName <- getQualifiedQueueName topicName queueName ;;
    getClients ;;;
    call (SqsGetQueueUrl qName).

Definition getQueueArn (topicName queueName : JsValue) : M (option string) :=
  qURL <- getQueueUrl topicName queueName ;;
  if negb (truthyStr (orElse qURL "")) then
    fail ("queue does not exist for " ++ ToString topicName ++ " "
          ++ ToString queueName)
  else
    getClients ;;;
    data <- call (SqsGetQueueAttributes (orElse qURL "")) ;;
    match data with
    | None => fail ("cannot get attributes for queue " ++ orElse qURL "")
    | Some queueArn => ret queueArn
    end.

Definition getDeadLetterQueueArn : M (option string) :=
  getQueueArn (JStr DLQ_TOPIC_NAME) (JStr DLQ_QUEUE_NAME).

(** *** Calling back *)

(** The last step of an operation that was handed [cb]: [cb(err)] or
    [cb(null, data)].  When [cb] is not a function the call throws. *)
Definition callingBack {A : Type} (cb : JsValue) (m : M A) : M A :=
  fun st =>
    match m st with
    | (Success a, st') =>
        if isFunction cb then (Success a, st')
        else (Uncaught (mkError "TypeError: cb is not a function"), st')
    | (Failure e, st') =>
        if isFunction cb then (Failure e, st')
        else (Uncaught (mkError "TypeError: cb is not a function"), st')
    | other => other
    end.

(** [JSON.stringify(getQueuePolicy(queueArn))]. *)
Definition queuePolicyText (queueArn : option string) : M (option string) :=
  match getQueuePolicy queueArn with
  | Some policy => ret (JSON_stringify policy)
  | None =>
      throw "TypeError: Cannot read properties of undefined (reading 'split')"
  end.

(** *** Queues (lines 144-418) *)

Definition createDeadLetterQueue : M (option string) :=
  qName <- getQualifiedQueueName (JStr DLQ_TOPIC_NAME) (JStr DLQ_QUEUE_NAME) ;;
  getClients ;;;
  data <- call (SqsCreateQueue qName
                  [("MessageRetentionPeriod", config.aws_dlq_messageRetention)]) ;;
  queueArn <- getQueueArn (JStr DLQ_TOPIC_NAME) (JStr DLQ_QUEUE_NAME) ;;
  policy <- queuePolicyText queueArn ;;
  call (SqsSetQueueAttributes data [("Policy", policy)]) ;;;
  ret queueArn.

Definition createQueue (topicName queueName cb : JsValue)
  : M (option string) :=
  callingBack cb
    (if negb (isValidTopicName topicName) then
       fail ("topic name is invalid " ++ ToString topicName)
     else if negb (isValidQueueName queueName) then
       fail ("queue name is invalid " ++ ToString queueName)
     else
       qName <- getQualifiedQueueName topicName queueName ;;
       getClients ;;;
       queueUrl <- call (SqsCreateQueue qName
                    [ ("MessageRetentionPeriod", config.aws_queues_messageRetention);
                      ("ReceiveMessageWaitTimeSeconds", config.aws_queues_pollingInterval);
                      ("VisibilityTimeout", config.aws_queues_visibilityTimeout) ]) ;;
       queueArn <- getQueueArn topicName queueName ;;
       dlqArn <- createDeadLetterQueue ;;
       policy <- queuePolicyText queueArn ;;
       let redrive := JSON_stringify (getRedrivePolicy dlqArn) in
       getClients ;;;
       call (SqsSetQueueAttributes queueUrl
               [("Policy", policy); ("RedrivePolicy", redrive)]) ;;;
       ret queueArn).

Definition deleteQueue (topicName queueName cb : JsValue) : M JsValue :=
  callingBack cb
    (if negb (isValidTopicName topicName) then
       fail ("topic name is invalid " ++ ToString topicName)
     else if negb (isValidQueueName queueName) then
       fail ("queue name is invalid " ++ ToString queueName)
     else
       qURL <- getQueueUrl topicName queueName ;;
       getClients ;;;
       call (SqsDeleteQueue qURL)).

(** *** Topics (lines 99-126, 429-514, 610-643) *)

Definition getPublishPermissionParams (topicName : JsValue)
    (topicArn : option string) : M (option PublishPermissionParams) :=
  fun st =>
    let tap := orElse (topicAccountPermissions (processEnv st)) "" in
    if negb (truthyStr tap) then (Success None, st)
    else
      match permittedAccount topicName (split "," tap) None with
      | inl _ =>
          (Uncaught (mkError
             "TypeError: Cannot read properties of undefined (reading 'trim')"),
           st)
      | inr account =>
          if negb (truthyStr (orElse account "")) then (Success None, st)
          else
            (Success (Some (mkPublishPermission [orElse account ""]
                              ["Publish"] "AllowCrossAccountPublish" topicArn)),
             st)
      end.

Definition createTopic (topicName cb : JsValue) : M JsValue :=
  callingBack cb
    (if negb (isValidTopicName topicName) then
       fail ("topic name is invalid " ++ ToString topicName)
     else
       tName <- getQualifiedTopicName topicName ;;
       getClients ;;;
       topicArn <- call (SnsCreateTopic tName) ;;
       publishParams <- getPublishPermissionParams topicName topicArn ;;
       match publishParams with
       | Some params =>
           fun st =>
             match call (SnsAddPermission params) st with
             | (Failure _, st') =>
                 (* [cb(err)] with the [err] of [createTopic], which is
                    null here *)
                 (Success JUndefined, st')
             | (Success _, st') => (Success JUndefined, st')
             | (Uncaught e, st') => (Uncaught e, st')
             | (Pending, st') => (Pending, st')
             end
       | None => ret JUndefined
       end).

Definition deleteTopic (topicName cb : JsValue) : M JsValue :=
  callingBack cb
    (if negb (isValidTopicName topicName) then
       fail ("topic name is invalid " ++ ToString topicName)
     else
       fun st =>
         let proceed (topicArn : JsValue) : M JsValue :=
           getClients ;;;
           call (SnsDeleteTopic topicArn) in
         match queuedGetTopicArn topicName st with
         | (Success topicArn, st') => proceed topicArn st'
         | (Failure _, st') => proceed JUndefined st'
         | (Uncaught e, st') => (Uncaught e, st')
         | (Pending, st') => (Pending, st')
         end).

(** *** The [async] combinators, run one task after the other

    [async.map], [async.each] and [async.parallel] start every task
    before any of them calls back, and report the error that arrives
    first in time.  The model has no time: it runs the tasks in the
    order of the collection, each to its callback; after a failure it
    still runs the remaining tasks, for their effects, and reports the
    failure of the task that comes first in that order.  When several
    tasks fail, the error that the code reports may be that of a later
    task (one that fails before it sends a request, while an earlier one
    waits for an answer): of a run with a failure the model tells that it
    fails and what it requests, not which of the errors is reported.  An
    uncaught exception ends the run. *)

(** [async.map(coll, iteratee, cb)]: the iteratee is invoked with the
    item and a callback, [iteratee(item, callback)]. *)
Fixpoint async_map (coll : list JsValue)
    (iteratee : list JsValue -> M JsValue) : M (list JsValue) :=
  match coll with
  | [] => ret []
  | item :: rest =>
      fun st =>
        match iteratee [item; asyncCallback] st with
        | (Success v, st') =>
            (results <- async_map rest iteratee ;; ret (v :: results)) st'
        | (Failure e, st') =>
            match async_map rest iteratee st' with
            | (Uncaught e', st'') => (Uncaught e', st'')
            | (_, st'') => (Failure e, st'')
            end
        | (Uncaught e, st') => (Uncaught e, st')
        | (Pending, st') => (Pending, st')
        end
  end.

Definition async_each (coll : list JsValue)
    (iteratee : list JsValue -> M JsValue) : M unit :=
  async_map coll iteratee ;;; ret tt.

(** [async.parallel({first: ..., second: ...}, cb)]. *)
Definition async_parallel {A B : Type} (first : M A) (second : M B)
  : M (A * B) :=
  fun st =>
    match first st with
    | (Success a, st1) => (b <- second ;; ret (a, b)) st1
    | (Failure e, st1) =>
        match second st1 with
        | (Uncaught e', st2) => (Uncaught e', st2)
        | (_, st2) => (Failure e, st2)
        end
    | (Uncaught e, st1) => (Uncaught e, st1)
    | (Pending, st1) => (Pending, st1)
    end.

(** [!names || !ld.isArray(names) || ld.isEmpty(names)]. *)
Definition noArrayOfNames (names : JsValue) : bool :=
  negb (truthy names) || negb (isArray names) || isEmpty names.

(** *** Batches (lines 248-266, 400-418, 581-599, 654-672)

    Each hands its single-item function itself to [async.map], which
    calls it with two arguments. *)

Definition createQueues (names : JsValue) : M (list JsValue) :=
  if noArrayOfNames names then fail "no array of queue names provided"
  else
    async_map (arrayItems names)
      (fun args =>
         queueArn <- createQueue (argument 0 args) (argument 1 args)
                       (argument 2 args) ;;
         ret (ofOption queueArn)).

Definition deleteQueues (names : JsValue) : M (list JsValue) :=
  if noArrayOfNames names then fail "no array of queue names provided"
  else
    async_map (arrayItems names)
      (fun args =>
         deleteQueue (argument 0 args) (argument 1 args) (argument 2 args)).

Definition createTopics (names : JsValue) : M (list JsValue) :=
  if noArrayOfNames names then fail "no array of topic names provided"
  else
    async_map (arrayItems names)
      (fun args => createTopic (argument 0 args) (argument 1 args)).

Definition deleteTopics (names : JsValue) : M (list JsValue) :=
  if noArrayOfNames names then fail "no array of topic names provided"
  else
    async_map (arrayItems names)
      (fun args => deleteTopic (argument 0 args) (argument 1 args)).

(** *** Subscriptions (lines 1331-1636) *)

Definition getSubscriptionsForTopic (topicArn : JsValue)
  : M ListSubscriptionsResponse :=
  getClients ;;;
  call (SnsListSubscriptionsByTopic topicArn).

Definition checkQueueAlreadySubscribed (topicArn : JsValue)
    (queueArn : option string) : M (option Subscription) :=
  data <- getSubscriptionsForTopic topicArn ;;
  ret (find (fun sub => bool_decide (queueArn = Endpoint sub))
         (Subscriptions data)).

(** The two lookups that [subscribeQueueToTopic] and
    [setFilterForSubscription] start with. *)
Definition resolveArns (topicName : JsValue) (isMultiTopic : bool)
    (queueName : JsValue) : M (JsValue * option string) :=
  async_parallel
    (queuedGetTopicArn topicName)
    (if isMultiTopic then getQueueArn (JStr MULTIPLE_TOPICS) queueName
     else getQueueArn topicName queueName).

Definition subscribeQueueToTopic (topicName : JsValue) (isMultiTopic : bool)
    (queueName : JsValue) : M Subscription :=
  if negb (isValidTopicName topicName) then
    fail ("topic name is invalid " ++ ToString topicName)
  else if negb (isValidQueueName queueName) then
    fail ("queue name is invalid " ++ ToString queueName)
  else
    results <- resolveArns topicName isMultiTopic queueName ;;
    sub <- checkQueueAlreadySubscribed (fst results) (snd results) ;;
    match sub with
    | Some existing => ret existing
    | None =>
        getClients ;;;
        call (SnsSubscribe "sqs" (fst results) (snd results))
    end.

Definition subscribeQueueToTopics (topicNames : list JsValue)
    (queueName : JsValue) : M unit :=
  async_each topicNames
    (fun args =>
       subscribeQueueToTopic (argument 0 args)
         (1 <? length topicNames)%nat queueName ;;;
       ret JUndefined).

Definition setFilterForSubscription (topicName : JsValue)
    (isMultiTopic : bool) (queueName filter : JsValue) : M JsValue :=
  if negb (isValidTopicName topicName) then
    fail ("topic name is invalid " ++ ToString topicName)
  else if negb (isValidQueueName queueName) then
    fail ("queue name is invalid " ++ ToString queueName)
  else
    results <- resolveArns topicName isMultiTopic queueName ;;
    sub <- checkQueueAlreadySubscribed (fst results) (snd results) ;;
    match sub with
    | None => ret JUndefined
    | Some existing =>
        getClients ;;;
        call (SnsSetSubscriptionAttributes "FilterPolicy"
                (SubscriptionArn existing) (JSON_stringify filter))
    end.

Definition setFilterForSubscriptions (topicNames : list JsValue)
    (queueName filter : JsValue) : M unit :=
  async_each topicNames
    (fun args =>
       setFilterForSubscription (argument 0 args)
         (1 <? length topicNames)%nat queueName filter).

(** The four steps of [createSubscription] (lines 1668-1728). *)
Definition createSubscription (subscription : SubscriptionRequest) : M unit :=
  createTopics (subscription_topicNames subscription) ;;;
  createQueue (getTopicName (arrayItems (subscription_topicNames subscription)))
    (subscription_queueName subscription) asyncCallback ;;;
  subscribeQueueToTopics (arrayItems (subscription_topicNames subscription))
    (subscription_queueName subscription) ;;;
  if truthy (subscription_filter subscription) then
    setFilterForSubscriptions (arrayItems (subscription_topicNames subscription))
      (subscription_queueName subscription) (subscription_filter subscription)
  else ret tt.

(** *** Topic policies (lines 1757-1893) *)

Definition getCurrentTopicPolicy (topicArn : JsValue) : M JsValue :=
  getClients ;;;
  currentPolicy <- call (SnsGetTopicAttributes topicArn) ;;
  if negb (truthyStr (orElse currentPolicy "")) then
    fail ("cannot get policy for " ++ ToString topicArn)
  else
    match JSON_parse (orElse currentPolicy "") with
    | None => fail ("cannot parse policy " ++ orElse currentPolicy "")
    | Some parsed => ret parsed
    end.

Definition updateCurrentPolicy (topicArn currentPolicy newStatement : JsValue)
  : M JsValue :=
  let currentStatements := ld_get1 currentPolicy "Statement" in
  let hasStatement :=
    ld_some currentStatements
      (fun currentStatement => sameJSON currentStatement newStatement) in
  if hasStatement then ret currentPolicy
  else
    match currentStatements, currentPolicy with
    | JArr statements, JObj props =>
        (* [currentStatements.push(newStatement)] changes the policy
           object in place *)
        let modified :=
          JObj (setProperty "Statement"
                  (JArr (statements ++ [newStatement])%list) props) in
        getClients ;;;
        call (SnsSetTopicAttributes "Policy" topicArn
                (JSON_stringify modified)) ;;;
        ret modified
    | _, _ => throw "TypeError: currentStatements.push is not a function"
    end.

Definition addToTopicPolicy (topicName statement : JsValue) : M JsValue :=
  if negb (truthy topicName) || negb (truthy statement) then ret JUndefined
  else
    getQualifiedTopicName topicName ;;;
    topicArn <- getTopicArn topicName ;;
    currentPolicy <- getCurrentTopicPolicy topicArn ;;
    updateCurrentPolicy topicArn currentPolicy statement.

End Module.

(** ** The ARN queue between turns of the event loop (lines 849-866)

    [arnQueue = async.queue(worker, 1)]: pushed tasks wait in order, and
    the queue hands the next one to its worker only while fewer than
    [concurrency] workers run.  The worker is [getTopicArn]; a lookup
    that misses the cache stays in flight until its listing arrives,
    which happens in a later turn of the event loop.  The state below is
    what the module holds between two turns. *)

Module ArnQueue.

(** The operations of the module that resolve a topic ARN. *)
Inductive Operation : Type :=
| DeleteTopic               (* line 617 *)
| PublishMessageToTopic     (* line 1175 *)
| SubscribeQueueToTopic     (* line 1413 *)
| SetFilterForSubscription  (* line 1538 *)
| AddToTopicPolicy.         (* line 1856 *)

(** Whether the operation asks through [queuedGetTopicArn] or calls
    [getTopicArn] itself. *)
Definition resolvesThroughQueue (op : Operation) : bool :=
  match op with
  | DeleteTopic => true
  | PublishMessageToTopic => true
  | SubscribeQueueToTopic => true
  | SetFilterForSubscription => true
  | AddToTopicPolicy => false
  end.

(** A lookup that waits for the listing of [cacheTopicArns]. *)
Record Lookup : Type := mkLookup {
  lookupName : JsValue;
  byWorker : bool       (* started by the worker of the queue *)
}.

Record Loop : Type := mkLoop {
  envName : string;                    (* the resolved environment name *)
  cache : gmap string string;          (* [cachedTopicArns] *)
  tasks : list JsValue;                (* the tasks that wait in the queue *)
  running : nat;                       (* the workers that run *)
  inFlight : list Lookup;              (* lookups that wait for a listing *)
  answers : list (JsValue * Outcome JsValue)   (* callbacks made so far *)
}.

Definition concurrency : nat := 1.

Inductive Event : Type :=
| Calls (op : Operation) (topicName : JsValue)
| ListingArrives (lookup : nat) (listing : JsError + list string).

(** [getTopicArn] up to its first wait: an invalid name and a cached ARN
    are answered at once, anything else waits for a listing. *)
Definition startLookup (topicName : JsValue) (worker : bool) (l : Loop)
  : Loop * bool :=
  if negb (isValidTopicName topicName) then
    (mkLoop (envName l) (cache l) (tasks l) (running l) (inFlight l)
       (answers l ++
          [(topicName,
            Failure (mkError ("invalid topic name " ++ ToString topicName)))]),
     true)
  else if truthy (cacheGet (cache l) (ToString topicName)) then
    (mkLoop (envName l) (cache l) (tasks l) (running l) (inFlight l)
       (answers l ++
          [(topicName, Success (cacheGet (cache l) (ToString topicName)))]),
     true)
  else
    (mkLoop (envName l) (cache l) (tasks l) (running l)
       (inFlight l ++ [mkLookup topicName worker]) (answers l),
     false).

(** The queue hands tasks to its worker while a worker is free. *)
Fixpoint process (turns : nat) (l : Loop) : Loop :=
  match turns with
  | O => l
  | S turns' =>
      match tasks l with
      | [] => l
      | task :: waiting =>
          if (running l <? concurrency)%nat then
            let taken :=
              mkLoop (envName l) (cache l) waiting (S (running l))
                (inFlight l) (answers l) in
            let '(l', answered) := startLookup task true taken in
            if answered then
              process turns'
                (mkLoop (envName l') (cache l') (tasks l') (pred (running l'))
                   (inFlight l') (answers l'))
            else l'
          else l
      end
  end.

Definition push (topicName : JsValue) (l : Loop) : Loop :=
  let pushed :=
    mkLoop (envName l) (cache l) (tasks l ++ [topicName])%list (running l)
      (inFlight l) (answers l) in
  process (length (tasks pushed)) pushed.

(** The listing of a waiting lookup arrives: the cache is refreshed, the
    lookup is answered, and a worker that ran it is free again. *)
Definition arrive (i : nat) (listing : JsError + list string) (l : Loop)
  : Loop :=
  match inFlight l !! i with
  | None => l
  | Some lookup =>
      let remaining := (take i (inFlight l) ++ drop (S i) (inFlight l))%list in
      let cache' :=
        match listing with
        | inl _ => cache l
        | inr topics => foldl (cacheTopicArn (envName l)) (cache l) topics
        end in
      let answer :=
        match listing with
        | inl err => Failure err
        | inr _ =>
            let topicArn := cacheGet cache' (ToString (lookupName lookup)) in
            if negb (truthy topicArn) then
              Failure (mkError ("cannot get ARN for "
                                ++ ToString (lookupName lookup)))
            else Success topicArn
        end in
      let answered :=
        mkLoop (envName l) cache' (tasks l)
          (if byWorker lookup then pred (running l) else running l)
          remaining
          (answers l ++ [(lookupName lookup, answer)]) in
      if byWorker lookup then process (length (tasks answered)) answered
      else answered
  end.

Definition step (l : Loop) (e : Event) : Loop :=
  match e with
  | Calls op topicName =>
      if resolvesThroughQueue op then push topicName l
      else fst (startLookup topicName false l)
  | ListingArrives i listing => arrive i listing l
  end.

Definition run (events : list Event) (l : Loop) : Loop :=
  foldl step l events.

Definition idle (envName : string) : Loop :=
  mkLoop envName ∅ [] 0 [] [].

(** Every operation of the trace asks through the queue. *)
Definition allThroughQueue (events : list Event) : bool :=
  forallb (fun e => match e with
                    | Calls op _ => resolvesThroughQueue op
                    | ListingArrives _ _ => true
                    end) events.

(** While every lookup comes from the worker of the queue, the lookups
    in flight are as many as the workers that run, and at most one. *)
Definition queueDiscipline (l : Loop) : Prop :=
  (running l <= concurrency)%nat /\
  length (inFlight l) = running l /\
  Forall (fun lookup => byWorker lookup = true) (inFlight l).

End ArnQueue.

(** ** An in-memory double of the collaborators

    Modelled from the spec: the messaging provider and the scope service
    (section 6 of the design document), whose clients [./aws-client] and
    [./scopes] are not in the source.  The double serves to run the
    module on concrete inputs: one account in one region, which other
    users share.  Topics, queues and subscriptions are created, listed
    and deleted; a second [sns.subscribe] of the same queue makes a second
    subscription.  The subscriptions of a topic are listed in pages of
    100, the first of which is what a request without a token gets, and
    the policy of a topic is the text that was last set for it. *)

Module Cloud.

Record World : Type := mkWorld {
  scopeHost : option string;        (* [voyent_config.default.host] *)
  topics : list string;             (* the ARNs of the topics *)
  newcomers : list (list string);   (* the topics that other users of the
                                       account create before each of the
                                       coming listings *)
  queues : list string;             (* the names of the queues *)
  subscriptions : list Subscription;
  policies : list (string * string) (* topic ARN, policy text *)
}.

Definition topicArnOf (name : string) : string :=
  "arn:aws:sns:us-east-1:000000000000:" ++ name.

Definition queueArnOf (name : string) : string :=
  "arn:aws:sqs:us-east-1:000000000000:" ++ name.

Definition queueUrlPrefix : string :=
  "https://sqs.us-east-1.amazonaws.com/000000000000/".

Definition queueUrlOf (name : string) : string := queueUrlPrefix ++ name.

Definition queueOfUrl (url : string) : option string :=
  if String.prefix queueUrlPrefix url then
    Some (String.substring (String.length queueUrlPrefix)
            (String.length url - String.length queueUrlPrefix) url)
  else None.

Definition defaultPolicy : string :=
  default ""
    (JSON_stringify
       (JObj [ ("Version", JStr "2008-10-17");
               ("Id", JStr "__default_policy_ID");
               ("Statement", JArr []) ])).

Definition has (x : string) (l : list string) : bool :=
  existsb (String.eqb x) l.

(** The number of subscriptions in a page of
    [sns.listSubscriptionsByTopic]. *)
Definition subscriptionsPerPage : nat := 100.

Fixpoint lookupText (key : string) (l : list (string * string))
  : option string :=
  match l with
  | [] => None
  | (k, v) :: rest => if String.eqb k key then Some v else lookupText key rest
  end.

Fixpoint storeText (key text : string) (l : list (string * string))
  : list (string * string) :=
  match l with
  | [] => [(key, text)]
  | (k, v) :: rest =>
      if String.eqb k key then (k, text) :: rest
      else (k, v) :: storeText key text rest
  end.

Definition answer (A : Type) (r : Request A) (w : World)
  : (JsError + A) * World :=
  match r in Request T return (JsError + T) * World with
  | GetClients => (inr tt, w)
  | ScopesGetEnvironmentAttribute => (inr (scopeHost w), w)
  | SnsListTopics _ =>
      let listed := (topics w ++ concat (take 1 (newcomers w)))%list in
      (inr (mkListTopics listed None),
       mkWorld (scopeHost w) listed (drop 1 (newcomers w)) (queues w)
         (subscriptions w) (policies w))
  | SnsCreateTopic name =>
      let arn := topicArnOf name in
      if has arn (topics w) then (inr (Some arn), w)
      else
        (inr (Some arn),
         mkWorld (scopeHost w) (topics w ++ [arn])%list (newcomers w)
           (queues w) (subscriptions w)
           (storeText arn defaultPolicy (policies w)))
  | SnsAddPermission _ => (inr JUndefined, w)
  | SnsDeleteTopic topicArn =>
      match topicArn with
      | JStr arn =>
          if has arn (topics w) then
            (inr JUndefined,
             mkWorld (scopeHost w)
               (filter (fun t => t ≠ arn) (topics w)) (newcomers w)
               (queues w) (subscriptions w) (policies w))
          else (inl (mkError "NotFound: Topic does not exist"), w)
      | _ =>
          (inl (mkError "MissingRequiredParameter: Missing required key 'TopicArn' in params"),
           w)
      end
  | SnsSubscribe protocol topicArn endpoint =>
      match topicArn with
      | JStr arn =>
          let sub :=
            mkSubscription
              (Some (arn ++ ":" ++ pretty (length (subscriptions w))))
              endpoint (Some protocol) (Some arn) in
          (inr sub,
           mkWorld (scopeHost w) (topics w) (newcomers w) (queues w)
             (subscriptions w ++ [sub])%list (policies w))
      | _ => (inl (mkError "InvalidParameter: TopicArn"), w)
      end
  | SnsListSubscriptionsByTopic topicArn =>
      match topicArn with
      | JStr arn =>
          let ofTopic :=
            filter (fun sub => SubscriptionTopicArn sub = Some arn)
              (subscriptions w) in
          (inr (mkListSubscriptions (take subscriptionsPerPage ofTopic)
                  (if (subscriptionsPerPage <? length ofTopic)%nat
                   then Some (pretty subscriptionsPerPage) else None)), w)
      | _ => (inl (mkError "InvalidParameter: TopicArn"), w)
      end
  | SnsSetSubscriptionAttributes _ _ _ => (inr JUndefined, w)
  | SnsGetTopicAttributes topicArn =>
      match topicArn with
      | JStr arn =>
          if has arn (topics w) then (inr (lookupText arn (policies w)), w)
          else (inl (mkError "NotFound: Topic does not exist"), w)
      | _ => (inl (mkError "InvalidParameter: TopicArn"), w)
      end
  | SnsSetTopicAttributes _ topicArn attributeValue =>
      match topicArn, attributeValue with
      | JStr arn, Some text =>
          if has arn (topics w) then
            (inr JUndefined,
             mkWorld (scopeHost w) (topics w) (newcomers w) (queues w)
               (subscriptions w) (storeText arn text (policies w)))
          else (inl (mkError "NotFound: Topic does not exist"), w)
      | _, _ => (inl (mkError "InvalidParameter"), w)
      end
  | SqsCreateQueue name _ =>
      if has name (queues w) then (inr (Some (queueUrlOf name)), w)
      else
        (inr (Some (queueUrlOf name)),
         mkWorld (scopeHost w) (topics w) (newcomers w)
           (queues w ++ [name])%list (subscriptions w) (policies w))
  | SqsGetQueueUrl name =>
      if has name (queues w) then (inr (Some (queueUrlOf name)), w)
      else
        (inl (mkError "AWS.SimpleQueueService.NonExistentQueue"), w)
  | SqsGetQueueAttributes url =>
      match queueOfUrl url with
      | Some name =>
          if has name (queues w) then (inr (Some (Some (queueArnOf name))), w)
          else (inl (mkError "AWS.SimpleQueueService.NonExistentQueue"), w)
      | None => (inl (mkError "AWS.SimpleQueueService.NonExistentQueue"), w)
      end
  | SqsSetQueueAttributes _ _ => (inr JUndefined, w)
  | SqsDeleteQueue queueUrl =>
      match queueUrl with
      | Some url =>
          match queueOfUrl url with
          | Some name =>
              (inr JUndefined,
               mkWorld (scopeHost w) (topics w) (newcomers w)
                 (filter (fun q => q ≠ name) (queues w))
                 (subscriptions w) (policies w))
          | None =>
              (inl (mkError "AWS.SimpleQueueService.NonExistentQueue"), w)
          end
      | None => (inl (mkError "MissingRequiredParameter: QueueUrl"), w)
      end
  end.

#[global] Instance cloud : Provider World := {| respond := answer |}.

Definition devEnvironment : ProcessEnv :=
  mkProcessEnv (Some "dev") (Some "billing") None.

Definition emptyWorld : World := mkWorld None [] [] [] [] [].

End Cloud.

(** ** What an operation may change

    Between the state before an operation and the state after it: the
    environment is the same, an environment name and a service name that
    are set stay as they are, a name that the ARN cache answers is still
    answered, and the log grows by requests of a given kind. *)

Definition isRead (r : LoggedRequest) : bool :=
  match r with
  | Logged GetClients _ => true
  | Logged ScopesGetEnvironmentAttribute _ => true
  | Logged (SnsListTopics _) _ => true
  | Logged (SnsListSubscriptionsByTopic _) _ => true
  | Logged (SnsGetTopicAttributes _) _ => true
  | Logged (SqsGetQueueUrl _) _ => true
  | Logged (SqsGetQueueAttributes _) _ => true
  | _ => false
  end.

Definition evolves {W : Type} (P : LoggedRequest -> Prop) (st st' : State W)
  : Prop :=
  processEnv st' = processEnv st /\
  (forall e, environmentName st = Some e -> truthyStr e = true ->
             environmentName st' = Some e) /\
  (forall s, serviceName st = Some s -> truthyStr s = true ->
             (String.length s <= 24)%nat -> serviceName st' = Some s) /\
  (forall k, truthy (cacheGet (cachedTopicArns st) k) = true ->
             truthy (cacheGet (cachedTopicArns st') k) = true) /\
  exists l, calls st' = (calls st ++ l)%list /\ Forall P l.

Definition respects {W A : Type} (P : LoggedRequest -> Prop) (m : M W A)
  : Prop :=
  forall st, evolves P st (snd (m st)).

(** The state after resolving the names of a list, one after the other. *)
Definition resolveAll {W : Type} {provider : Provider W} (pageBudget : nat)
    (names : list JsValue) (st : State W) : State W :=
  foldl (fun s name => snd (getTopicArn pageBudget name s)) st names.

(** The outcome of a request, from its answer. *)
Definition outcomeOf {A : Type} (answer : JsError + A) : Outcome A :=
  match answer with
  | inl err => Failure err
  | inr data => Success data
  end.

Definition withWorld {W : Type} (w : W) (log : list LoggedRequest)
    (st : State W) : State W :=
  mkState (processEnv st) (environmentName st) (serviceName st)
    (cachedTopicArns st) w log.

(** A log of reads. *)
Definition reads (r : LoggedRequest) : Prop := isRead r = true.

(** The requests that create no queue. *)
Definition createsNoQueue (r : LoggedRequest) : Prop :=
  match r with
  | Logged (SqsCreateQueue _ _) _ => False
  | _ => True
  end.

(** The copies of a statement among the statements of a policy. *)
Definition copies (statement policy : JsValue) : nat :=
  length (filter (fun current => sameJSON current statement = true)
            (arrayItems (ld_get1 policy "Statement"))).

(** The requests that create queues only under the given names. *)
Definition createsOnly (allowed : list string) (r : LoggedRequest) : Prop :=
  match r with
  | Logged (SqsCreateQueue name _) _ => In name allowed
  | _ => True
  end.

(** A qualified queue name, from its four parts (line 2002). *)
Definition qualifiedQueueName (eName : string) (topicName : JsValue)
    (sName : string) (queueName : JsValue) : string :=
  eName ++ "_" ++ ToString topicName ++ "_" ++ sName ++ "_"
  ++ ToString queueName.

(** ** Concrete runs on the double *)

Module Example.

(** The world after the topic [orders] and its queue [ledger] have been
    created in the environment [dev] for the service [billing]. *)
Definition provisioned : State Cloud.World :=
  snd ((createTopics (JArr [JStr "orders"]) ;;;
        createQueue (JStr "orders") (JStr "ledger") asyncCallback)
         (initialState Cloud.devEnvironment Cloud.emptyWorld)).

Definition ordersArn : string := "arn:aws:sns:us-east-1:000000000000:dev_orders".

Definition ledgerArn : string :=
  "arn:aws:sqs:us-east-1:000000000000:dev_orders_billing_ledger".

Definition ledgerSubscription : Subscription :=
  mkSubscription (Some (ordersArn ++ ":0")) (Some ledgerArn) (Some "sqs")
    (Some ordersArn).

(** The same world when the queues of a hundred other services are
    subscribed to the topic [orders] already: a full page of
    subscriptions. *)
Definition otherSubscription (i : nat) : Subscription :=
  mkSubscription (Some (ordersArn ++ ":" ++ pretty i))
    (Some (Cloud.queueArnOf ("dev_orders_service" ++ pretty i ++ "_ledger")))
    (Some "sqs") (Some ordersArn).

Definition crowded : State Cloud.World :=
  let w := world provisioned in
  withWorld
    (Cloud.mkWorld (Cloud.scopeHost w) (Cloud.topics w) (Cloud.newcomers w)
       (Cloud.queues w)
       (map otherSubscription (seq 0 Cloud.subscriptionsPerPage))
       (Cloud.policies w))
    (calls provisioned) provisioned.

(** The subscriptions of a queue in a world. *)
Definition subscriptionsOf (queueArn : string) (w : Cloud.World)
  : list Subscription :=
  filter (fun sub => Endpoint sub = Some queueArn) (Cloud.subscriptions w).

(** A policy statement, and the default policy with it appended. *)
Definition allowPublish : JsValue :=
  JObj [ ("Sid", JStr "AllowPublish");
         ("Effect", JStr "Allow");
         ("Principal", JObj [("AWS", JStr "*")]);
         ("Action", JArr [JStr "SNS:Publish"]);
         ("Resource", JStr ordersArn) ].

Definition policyWithAllowPublish : JsValue :=
  JObj [ ("Version", JStr "2008-10-17");
         ("Id", JStr "__default_policy_ID");
         ("Statement", JArr [allowPublish]) ].

End Example.

(** The name under which [cacheTopicArns] caches an ARN, if any (lines
    777-783). *)
Definition topicNameOf (envName arn : string) : option string :=
  match indexOf (envName ++ "_") arn with
  | Some envNameIndex =>
      Some (substring_from (String.length (envName ++ "_"))
              (substring_from envNameIndex arn))
  | None => None
  end.

(** A log entry that is no listing, or a listing in which every ARN
    cached under [key] is [arn]. *)
Definition listsNoOther (envName key : string) (arn : JsValue)
    (r : LoggedRequest) : Prop :=
  match r with
  | Logged (SnsListTopics _) (inr data) =>
      forall listed, In listed (Topics data) ->
                     topicNameOf envName listed = Some key -> JStr listed = arn
  | _ => True
  end.

(** ** Further tests on the log, and texts without a separator *)

Definition isAddPermission (r : LoggedRequest) : bool :=
  match r with Logged (SnsAddPermission _) _ => true | _ => false end.

Definition isCreateTopic (r : LoggedRequest) : bool :=
  match r with Logged (SnsCreateTopic _) _ => true | _ => false end.

Definition isSetSubscriptionAttributes (r : LoggedRequest) : bool :=
  match r with
  | Logged (SnsSetSubscriptionAttributes _ _ _) _ => true
  | _ => false
  end.

(** Any request at all. *)
Definition anyRequest (r : LoggedRequest) : Prop := True.

(** The character [c] does not occur in [s]. *)
Definition without (c : ascii) (s : string) : Prop :=
  ~ In c (list_ascii_of_string s).

(** An entry [name:account] of [topicAccountPermissions]. *)
Definition permissionEntry (entry : string * string) : string :=
  fst entry ++ ":" ++ snd entry.

(** Modelled from the spec: the double of the collaborators again, with
    a provider that refuses every [sns.addPermission], and an
    environment that grants the topic [orders] to another account. *)
Definition refusingPermissions : Provider Cloud.World :=
  {| respond := fun (A : Type) (r : Request A) (w : Cloud.World) =>
       match r in Request T
             return (JsError + T) * Cloud.World -> (JsError + T) * Cloud.World
       with
       | SnsAddPermission _ =>
           fun _ => (inl (mkError "AuthorizationError"), w)
       | _ => fun usual => usual
       end (Cloud.answer A r w) |}.

Definition sharingEnvironment (tap : string) : ProcessEnv :=
  mkProcessEnv (Some "dev") (Some "billing") (Some tap).


(** ** Service topics (lines 525-570) *)

(** [ld.uniq]: the first occurrence of every string, in order. *)
Fixpoint uniqFrom (seen : list string) (l : list string) : list string :=
  match l with
  | [] => []
  | x :: rest =>
      if existsb (String.eqb x) seen then uniqFrom seen rest
      else x :: uniqFrom (x :: seen) rest
  end.

Definition ld_uniq (l : list string) : list string := uniqFrom [] l.

(** lodash walks an object as it walks an array when the object is
    array-like: when its [length] is a number that [isLength] accepts, an
    integer from 0 to [Number.MAX_SAFE_INTEGER].  The indices from 0 up to
    the length are then visited, whether or not the object has them. *)
Definition arrayLikeLength (props : list (string * JsValue)) : option nat :=
  match getProperty "length" props with
  | JNum n =>
      if (0 <=? n)%Z && (n <=? 9007199254740991)%Z then Some (Z.to_nat n)
      else None
  | _ => None
  end.

Definition indexedProperties (props : list (string * JsValue)) (n : nat)
  : list (string * JsValue) :=
  map (fun i => (pretty i, getProperty (pretty i) props)) (seq 0 n).

(** The values that [ld.map] and [ld.forEach] visit: the elements of an
    array, the values of the properties of an object, the characters of
    a string. *)
Definition collectionValues (v : JsValue) : list JsValue :=
  match v with
  | JArr items => items
  | JObj props =>
      match arrayLikeLength props with
      | Some n => map snd (indexedProperties props n)
      | None => map snd props
      end
  | JStr s => map (fun c => JStr (String c "")) (list_ascii_of_string s)
  | _ => []
  end.

(** The properties that [ld.forEach(event, function (val, key) ...)]
    visits, with their keys: for an array, for a string and for an
    array-like object the keys are the indices.  The list of an object
    holds its own enumerable properties: a [__proto__] in it is an own
    property, as [JSON.parse] makes one, not the prototype that an object
    literal sets. *)
Definition ownProperties (v : JsValue) : list (string * JsValue) :=
  match v with
  | JObj props =>
      match arrayLikeLength props with
      | Some n => indexedProperties props n
      | None => props
      end
  | JArr items => imap (fun i item => (pretty i, item)) items
  | JStr s =>
      imap (fun i c => (pretty i, JStr (String c "")))
        (list_ascii_of_string s)
  | _ => []
  end.

(** The requests of publishing, sending and saving, with the collaborator
    that answers them ([clients.sns.publish], [clients.sqs.sendMessage],
    [db.getCollection] of [./db] and [insertOne] of the collection it
    hands over). *)
Inductive Dispatch : Type -> Type :=
| SnsPublish (Message : JsValue)
    (MessageAttributes : gmap string MessageAttribute) (TargetArn : JsValue)
    : Dispatch JsValue
| SqsSendMessage (MessageBody : JsValue) (QueueUrl : option string)
    (DelaySeconds : Z) : Dispatch JsValue
| DbGetCollection (account realm : JsValue) (collectionName : string)
    : Dispatch JsValue
| CollectionInsertOne (coll newEvent : JsValue) : Dispatch JsValue.

Class Courier (W : Type) : Type := {
  deliver : forall A : Type, Dispatch A -> W -> (JsError + A) * W
}.

Arguments deliver {W _ A} _ _.

(** [val.key] where [val] may be [undefined] or [null], of which reading
    a property throws ([None]). *)
Definition readProperty (v : JsValue) (key : string) : option JsValue :=
  match v with
  | JUndefined | JNull => None
  | _ => Some (ld_get1 v key)
  end.

(** [o.key = v] in sloppy mode: an object gets or changes the property, a
    primitive value stays as it is.  (A named property put on an array
    or on a function is not kept by the model.) *)
Definition assignProperty (o : JsValue) (key : string) (v : JsValue)
  : JsValue :=
  match o with
  | JObj props => JObj (setProperty key v props)
  | _ => o
  end.

(** The name that [createServiceTopics] gives the topic of a suffix
    (lines 550-553). *)
Definition serviceTopicName (sName suffix : string) : string :=
  if (String.length (trim suffix) <? 1)%nat then sName
  else sName ++ "-" ++ suffix.

(** [a || b] on values. *)
Definition orValue (a b : JsValue) : JsValue := if truthy a then a else b.

(** [config.assemblePermission] (lines 2821-2827), for the permission
    prefix that the configuration holds. *)
Definition assemblePermission (permissionPrefix : string)
    (service resource verb : JsValue) : string :=
  let verb := if negb (truthy verb) then JStr "create" else verb in
  permissionPrefix ++ "." ++ ToString service ++ "." ++ ToString verb ++ "."
  ++ ToString resource.

Section Publishing.

Context {W : Type} {provider : Provider W} {courier : Courier W}.

Variable pageBudget : nat.

(** The clock and [tools.getProcessId] of [./tools]: the text of
    [new Date().toISOString()], the value of
    [new Date().getTime() - startTime], and the process id of a request. *)
Variable now : string.
Variable elapsedSince : JsValue -> JsValue.
Variable getProcessId : JsValue -> JsValue.

Local Abbreviation M := (M W).

(** [async.eachLimit(coll, 1, iteratee, cb)]: one task at a time, in the
    order of the collection; the first error ends the run, and the
    items after it are not started. *)
Fixpoint async_eachLimit (coll : list JsValue)
    (iteratee : list JsValue -> M JsValue) : M unit :=
  match coll with
  | [] => ret tt
  | item :: rest =>
      iteratee [item; asyncCallback] ;;;
      async_eachLimit rest iteratee
  end.

Definition createServiceTopic (cb : JsValue) : M JsValue :=
  fun st =>
    let '(sName, st') := getServiceName st in
    createTopic (JStr sName) cb st'.

(** The [ld.map] of [createServiceTopics] (lines 549-554): [suffix.trim]
    is there for a string only (the objects of the model have no
    methods). *)
Fixpoint serviceTopicNames (suffixes : list JsValue) : M (list string) :=
  match suffixes with
  | [] => ret []
  | suffix :: rest =>
      match suffix with
      | JStr s =>
          fun st =>
            let '(sName, st') := getServiceName st in
            (names <- serviceTopicNames rest ;;
             ret (serviceTopicName sName s :: names)) st'
      | JUndefined =>
          throw "TypeError: Cannot read properties of undefined (reading 'trim')"
      | JNull =>
          throw "TypeError: Cannot read properties of null (reading 'trim')"
      | _ => throw "TypeError: suffix.trim is not a function"
      end
  end.

Definition createServiceTopics (suffixes : JsValue) : M unit :=
  if isEmpty suffixes then ret tt
  else
    serviceSuffixes <- serviceTopicNames (collectionValues suffixes) ;;
    async_eachLimit (map JStr (ld_uniq serviceSuffixes))
      (fun args => createTopic (argument 0 args) (argument 1 args)).

(** *** Publishing (lines 1093-1320) *)

(** A request of publishing, sending or saving: answered, and the world
    updated. *)
Definition dispatch {A : Type} (d : Dispatch A) : M A :=
  fun st =>
    let '(answer, w') := deliver d (world st) in
    (outcomeOf answer,
     mkState (processEnv st) (environmentName st) (serviceName st)
       (cachedTopicArns st) w' (calls st)).

Definition saveEventToDB (event : JsValue) : M unit :=
  match readProperty event "username", readProperty event "account",
        readProperty event "realm" with
  | Some username, Some account, Some realm =>
      let newEvent :=
        JObj [ ("_data", event);
               ("_permissions", JObj
                  [ ("owner", orValue username (JStr "unknown"));
                    ("rights", JObj
                       [ ("owner", JArr [JStr "r"]);
                         ("realm", JArr [JStr "r"]);
                         ("roles", JObj []) ]) ]) ] in
      coll <- dispatch (DbGetCollection account realm "events") ;;
      match coll with
      | JUndefined | JNull =>
          throw "TypeError: Cannot read properties of undefined (reading 'insertOne')"
      | _ => dispatch (CollectionInsertOne coll newEvent) ;;; ret tt
      end
  | _, _, _ =>
      throw "TypeError: Cannot read properties of null (reading 'username')"
  end.

Definition publishMessageToTopic (topicName message : JsValue)
    (attrs : option (gmap string MessageAttribute)) : M JsValue :=
  if negb (isValidTopicName topicName) then
    fail ("topic name is invalid " ++ ToString topicName)
  else
    let message := orValue message (JStr "No message provided.") in
    let attrs := default ∅ attrs in
    topicArn <- queuedGetTopicArn pageBudget topicName ;;
    if negb (truthy topicArn) then
      fail ("could not get topic ARN for " ++ ToString topicName)
    else
      getClients ;;;
      data <- dispatch (SnsPublish message attrs topicArn) ;;
      match JSON_parse (ToString message) with
      | None => throw "SyntaxError: Unexpected token in JSON"
      | Some event => saveEventToDB event ;;; ret data
      end.

(** The callback of [publishEventToTopic] logs an error and reports
    nothing. *)
Definition publishEventToTopic (topicName event : JsValue) : M unit :=
  let message := ofOption (JSON_stringify event) in
  let attrs := convertEventToMessageAttributes (ownProperties event) in
  fun st =>
    match publishMessageToTopic topicName message (Some attrs) st with
    | (Success _, st') => (Success tt, st')
    | (Failure _, st') => (Success tt, st')
    | (Uncaught e, st') => (Uncaught e, st')
    | (Pending, st') => (Pending, st')
    end.

Definition publishEventToServiceTopic (event topicSuffix : JsValue)
  : M unit :=
  fun st =>
    let '(sName, st') := getServiceName st in
    if truthy topicSuffix then
      match topicSuffix with
      | JStr s =>
          let trimmed := trim s in
          let topicName :=
            if (0 <? String.length trimmed)%nat then sName ++ "-" ++ trimmed
            else sName in
          publishEventToTopic (JStr topicName) event st'
      | _ =>
          (Uncaught (mkError "TypeError: topicSuffix.trim is not a function"),
           st')
      end
    else publishEventToTopic (JStr sName) event st'.

Definition publishMessage (topic message : JsValue) : M unit :=
  publishEventToTopic topic message.

Definition publishServiceEvent (event topicSuffix : JsValue) : M unit :=
  publishEventToServiceTopic event topicSuffix.

Definition sendMessageToQueue (topicName queueName message : JsValue)
  : M JsValue :=
  if negb (isValidTopicName topicName) then
    fail ("topic name is invalid " ++ ToString topicName)
  else if negb (isValidQueueName queueName) then
    fail ("queue name is invalid " ++ ToString queueName)
  else
    queueUrl <- getQueueUrl topicName queueName ;;
    getClients ;;;
    dispatch (SqsSendMessage message queueUrl 0).

(** *** Events (lines 2028-2348) *)

(** [createEvent], from the list of the arguments of the call. *)
Definition createEvent (args : list JsValue) : JsValue :=
  if (length args <? 6)%nat || (9 <? length args)%nat then JNull
  else
    let time := argument 7 args in
    let txcode := argument 8 args in
    JObj ([ ("time", if truthy time then time else JStr now);
            ("account", argument 0 args);
            ("realm", argument 1 args);
            ("service", argument 2 args);
            ("event", argument 3 args);
            ("type", argument 4 args);
            ("username", argument 5 args) ]
          ++ (if truthy txcode then [("tx", txcode)] else [])
          ++ [("data", orValue (argument 6 args) (JObj []))])%list.

(** [barrel.meta && barrel.meta.tx ? barrel.meta.tx : null]. *)
Definition transactionCode (barrel : JsValue) : JsValue :=
  let meta := ld_get1 barrel "meta" in
  if truthy meta && truthy (ld_get1 meta "tx") then ld_get1 meta "tx"
  else JNull.

(** The [origin] and [processTime] that both barrel functions add to
    the custom data. *)
Definition withOriginAndProcessTime (barrel customData : JsValue) : JsValue :=
  let req := ld_get1 barrel "req" in
  let host := ld_get1 (ld_get1 req "headers") "host" in
  let customData :=
    if truthy req && truthy (ld_get1 req "headers") && truthy host
    then assignProperty customData "origin" host
    else customData in
  if truthy (ld_get1 barrel "startTime") then
    assignProperty customData "processTime"
      (elapsedSince (ld_get1 barrel "startTime"))
  else customData.

(** The names of the parameters that [createEventFromBarrel] misses. *)
Definition missingParameters (barrel : JsValue) (sName : string)
  : list string :=
  ((if negb (truthy (ld_get1 barrel "account"))
       && negb (truthy (ld_get1 barrel "accountId"))
    then ["barrel.account or barrel.accountId"] else [])
   ++ (if negb (truthy (ld_get1 barrel "realmId"))
       then ["barrel.realmId"] else [])
   ++ (if negb (truthyStr sName) then ["config.service.name"] else [])
   ++ (if negb (truthy (ld_get1 barrel "serviceEvent"))
       then ["barrel.serviceEvent"] else [])
   ++ (if negb (truthy (ld_get1 barrel "resourceType"))
       then ["barrel.resourceType"] else [])
   ++ (if negb (truthy (ld_get1 barrel "username"))
       then ["barrel.username"] else []))%list.

Definition createEventFromBarrel (barrel : JsValue) : M JsValue :=
  match readProperty barrel "account" with
  | None =>
      throw "TypeError: Cannot read properties of undefined (reading 'account')"
  | Some _ =>
      fun st =>
        let '(sName, st1) := getServiceName st in
        if (0 <? length (missingParameters barrel sName))%nat then
          (Success JNull, st1)
        else
          let account :=
            orValue (ld_get1 barrel "account") (ld_get1 barrel "accountId") in
          let customData :=
            orValue (ld_get1 barrel "serviceEventData") (JObj []) in
          let resourceId :=
            orValue (ld_get1 barrel "validatedResourceId")
              (ld_get1 barrel "resourceId") in
          let customData :=
            if truthy resourceId
            then assignProperty customData "resourceId" resourceId
            else customData in
          let customData := withOriginAndProcessTime barrel customData in
          let '(sName', st2) := getServiceName st1 in
          let theEvent :=
            createEvent
              [ account; ld_get1 barrel "realmId"; JStr sName';
                ld_get1 barrel "serviceEvent"; ld_get1 barrel "resourceType";
                ld_get1 barrel "username"; customData; JNull;
                transactionCode barrel ] in
          let theEvent :=
            if truthy (ld_get1 barrel "req") then
              let processId := getProcessId (ld_get1 barrel "req") in
              if truthy processId
              then assignProperty theEvent "processId" processId
              else theEvent
            else theEvent in
          (Success theEvent, st2)
  end.

(** The names of the parameters that [createCustomEventFromBarrel]
    misses. *)
Definition missingCustomParameters (barrel validatedResource : JsValue)
  : list string :=
  ((if negb (truthy (ld_get1 barrel "account"))
       && negb (truthy (ld_get1 barrel "accountId"))
    then ["barrel.account or barrel.accountId"] else [])
   ++ (if negb (truthy (ld_get1 barrel "realmId"))
       then ["barrel.realmId"] else [])
   ++ (if negb (truthy (ld_get1 validatedResource "service"))
       then ["barrel.validatedResource.service"] else [])
   ++ (if negb (truthy (ld_get1 validatedResource "event"))
       then ["barrel.validatedResource.event"] else [])
   ++ (if negb (truthy (ld_get1 validatedResource "type"))
       then ["barrel.validatedResource.type"] else [])
   ++ (if negb (truthy (ld_get1 barrel "username"))
       then ["barrel.username"] else []))%list.

Definition createCustomEventFromBarrel (barrel : JsValue) : M JsValue :=
  match readProperty barrel "validatedResource" with
  | None =>
      throw "TypeError: Cannot read properties of undefined (reading 'account')"
  | Some (JUndefined | JNull) =>
      throw "TypeError: Cannot read properties of undefined (reading 'service')"
  | Some validatedResource =>
      if (0 <? length (missingCustomParameters barrel validatedResource))%nat
      then ret JNull
      else
        let account :=
          orValue (ld_get1 barrel "account") (ld_get1 barrel "accountId") in
        let customData :=
          withOriginAndProcessTime barrel
            (orValue (ld_get1 validatedResource "data") (JObj [])) in
        let time := ld_get1 validatedResource "time" in
        let theEvent :=
          createEvent
            [ account; ld_get1 barrel "realmId";
              ld_get1 validatedResource "service";
              ld_get1 validatedResource "event";
              ld_get1 validatedResource "type";
              ld_get1 barrel "username"; customData;
              (if truthy time then time else JStr now);
              transactionCode barrel ] in
        let processId := getProcessId (ld_get1 barrel "req") in
        ret (if truthy processId
             then assignProperty theEvent "processId" processId
             else theEvent)
  end.

(** The event that [publishAppUpdateEvent] builds and returns (lines
    2032-2068).  [groups.length === 0] is read for an array and for an
    object with a [length] of its own. *)
Definition hasLengthZero (v : JsValue) : bool :=
  match v with
  | JArr [] => true
  | JObj props =>
      match getProperty "length" props with
      | JNum 0 => true
      | _ => false
      end
  | _ => false
  end.

Definition appUpdateEvent
    (account realm username typeInPayload txcode groups fullPayload : JsValue)
  : JsValue :=
  let officialGroups :=
    if negb (truthy groups) || hasLengthZero groups
    then JArr [JStr "_appUpdate"] else groups in
  let payload :=
    if truthy fullPayload then
      if isUndefined (ld_get1 fullPayload "isAppUpdate")
      then assignProperty fullPayload "isAppUpdate" (JBool true)
      else fullPayload
    else if truthy typeInPayload then
      JObj [("isAppUpdate", JBool true); ("type", typeInPayload)]
    else JObj [("isAppUpdate", JBool true)] in
  JObj ([ ("time", JStr now);
          ("account", account);
          ("realm", realm);
          ("service", JStr "action");
          ("event", JStr "single");
          ("type", JStr "broadcast");
          ("username", username);
          ("data", JObj [("groups", officialGroups); ("payload", payload)]) ]
        ++ (if truthy txcode then [("tx", txcode)] else []))%list.

(** [publishAppUpdateEvent] returns the event at once; what its
    publishing comes to is the second component. *)
Definition publishAppUpdateEvent
    (account realm username typeInPayload txcode groups fullPayload : JsValue)
    (st : State W) : JsValue * (Outcome unit * State W) :=
  let officialEvent :=
    appUpdateEvent account realm username typeInPayload txcode groups
      fullPayload in
  (officialEvent, publishServiceEvent officialEvent JUndefined st).

Definition publishServiceEventFromBarrel (barrel : JsValue) : M unit :=
  event <- createEventFromBarrel barrel ;;
  publishServiceEvent event JUndefined.

Definition publishCustomEventFromBarrel (barrel : JsValue) : M unit :=
  event <- createCustomEventFromBarrel barrel ;;
  publishServiceEvent event JUndefined.

End Publishing.


(** ** A double that keeps what was published and saved

    Modelled from the spec: publishing and sending through the messaging
    provider and the event persistence store (section 6 of the design
    document), whose clients are not in the source.  The double answers
    the other requests as [Cloud] does, accepts every message, and keeps
    what it was given. *)

Module Post.

Record World : Type := mkWorld {
  cloud : Cloud.World;
  published : list (JsValue * JsValue);     (* target ARN, message *)
  sent : list (option string * JsValue);    (* queue URL, message body *)
  saved : list JsValue                      (* the records of [events] *)
}.

Definition through (A : Type) (r : Request A) (w : World)
  : (JsError + A) * World :=
  let '(answer, c) := Cloud.answer A r (cloud w) in
  (answer, mkWorld c (published w) (sent w) (saved w)).

Definition accept (A : Type) (d : Dispatch A) (w : World)
  : (JsError + A) * World :=
  match d in Dispatch T return (JsError + T) * World with
  | SnsPublish message _ targetArn =>
      (inr (JObj [("MessageId", JStr (pretty (length (published w))))]),
       mkWorld (cloud w) (published w ++ [(targetArn, message)])%list (sent w)
         (saved w))
  | SqsSendMessage body queueUrl _ =>
      (inr (JObj [("MessageId", JStr (pretty (length (sent w))))]),
       mkWorld (cloud w) (published w) (sent w ++ [(queueUrl, body)])%list
         (saved w))
  | DbGetCollection _ _ collectionName => (inr (JStr collectionName), w)
  | CollectionInsertOne _ newEvent =>
      (inr (JObj [("insertedCount", JNum 1)]),
       mkWorld (cloud w) (published w) (sent w) (saved w ++ [newEvent])%list)
  end.

#[global] Instance postProvider : Provider World := {| respond := through |}.
#[global] Instance postCourier : Courier World := {| deliver := accept |}.

Definition emptyWorld : World := mkWorld Cloud.emptyWorld [] [] [].

(** The state after the topic [orders] has been created in the
    environment [dev] for the service [billing]. *)
Definition withOrders : State World :=
  snd (createTopics (JArr [JStr "orders"])
         (initialState Cloud.devEnvironment emptyWorld)).

End Post.


(** ** Values that JSON text holds entirely

    The values without [undefined] and without functions, whose objects
    name each property once: what [JSON.stringify] writes of them,
    [JSON.parse] reads back. *)
Fixpoint plainJSON (v : JsValue) : bool :=
  match v with
  | JUndefined | JFun _ => false
  | JNull | JBool _ | JNum _ | JStr _ => true
  | JArr items => forallb plainJSON items
  | JObj props =>
      forallb (fun p => plainJSON (snd p)) props
      && bool_decide (NoDup (map fst props))
  end.

(** The characters that the text of a value may begin with. *)
Definition startsValue (c : ascii) : bool :=
  isDigit c
  || existsb (Ascii.eqb c)
       [ "n"%char; "t"%char; "f"%char; "-"%char; doubleQuote; "["%char;
         "{"%char ].

(** The texts of the elements of an array and of the members of an
    object, which [JSON.stringify] joins with commas. *)
Definition textsOf (items : list JsValue) : list string :=
  map (fun x => default "null" (JSON_stringify x)) items.

Definition membersOf (props : list (string * JsValue)) : list string :=
  map (fun p => quoteString (fst p) ++ ":"
                ++ default "" (JSON_stringify (snd p))) props.

(** What [parseValue] is to do for a value: read it back from its text,
    whatever follows the text. *)
Definition readsBack (v : JsValue) : Prop :=
  plainJSON v = true ->
  forall text, JSON_stringify v = Some text ->
  forall (budget : nat) (rest : string),
    (String.length text <= budget)%nat -> endsNumber rest = true ->
    parseValue budget (text ++ rest) = Some (v, rest).



(** * Properties *)

(** ** Names *)

Lemma nameClass_allowedChar (c : ascii) : nameClass c = allowedChar c.
Proof. destruct c as [[] [] [] [] [] [] [] []]; reflexivity. Qed.

Lemma matchAtMost_length (n : nat) (s : string) :
  matchAtMost n s =
  (String.length s <=? n)%nat && forallb allowedChar (list_ascii_of_string s).
Proof.
  revert n. induction s as [|c s IH]; intros n; simpl.
  - reflexivity.
  - destruct n as [|n]; [reflexivity|].
    rewrite IH, nameClass_allowedChar. simpl.
    destruct (String.length s <=? n)%nat, (allowedChar c); reflexivity.
Qed.

Lemma reTest_wellFormedName (n : nat) (s : string) :
  reTest (S n) s = wellFormedName (S n) s.
Proof.
  unfold reTest, wellFormedName. destruct s as [|c s]; [reflexivity|].
  rewrite matchAtMost_length, nameClass_allowedChar. simpl.
  destruct (String.length s <=? n)%nat, (allowedChar c); reflexivity.
Qed.

Lemma wellFormedName_truthy (limit : nat) (s : string) :
  truthy (JStr s) = false -> wellFormedName limit s = false.
Proof.
  simpl. destruct s; [reflexivity|discriminate].
Qed.

Lemma isValidName_string (n : nat) (s : string) :
  isValidName (JStr s) (S n) = wellFormedName (S n) s.
Proof.
  unfold isValidName. destruct (truthy (JStr s)) eqn:Ht; simpl.
  - apply reTest_wellFormedName.
  - symmetry. now apply wellFormedName_truthy.
Qed.

(** C8: a string is a valid topic name exactly when it has 1 to 24
    characters, all of them letters, digits, [_] or [-]; a valid queue
    name exactly when it has 1 to 80 such characters; an absent name
    ([undefined], [null]) and the empty string are not valid. *)
Theorem validators_accept_the_well_formed_names :
  (forall s : string, isValidTopicName (JStr s) = wellFormedName 24 s) /\
  (forall s : string, isValidQueueName (JStr s) = wellFormedName 80 s) /\
  isValidTopicName JUndefined = false /\ isValidTopicName JNull = false /\
  isValidTopicName (JStr "") = false /\
  isValidQueueName JUndefined = false /\ isValidQueueName JNull = false /\
  isValidQueueName (JStr "") = false.
Proof.
  repeat split; try reflexivity; intros s; apply isValidName_string.
Qed.

(** What [wellFormedName] says, spelled out. *)
Lemma wellFormedName_true (limit : nat) (s : string) :
  wellFormedName limit s = true <->
  (1 <= String.length s <= limit)%nat /\
  Forall (fun c => allowedChar c = true) (list_ascii_of_string s).
Proof.
  unfold wellFormedName. rewrite !andb_true_iff, !Nat.leb_le, forallb_forall.
  rewrite Forall_forall. split.
  - intros [[H1 H2] H3]. repeat split; try assumption.
    intros c Hc. apply H3. now apply list_elem_of_In.
  - intros [[H1 H2] H3]. repeat split; try assumption.
    intros c Hc. apply H3. now apply list_elem_of_In.
Qed.

(** ** Message attributes *)

(** C1, as the code has it: for the event
    [{a: "x", b: 5, c: {nested: 1}, d: undefined}] the attribute [a] is
    the String ["x"], and there is no attribute for the object [c] and
    none for the undefined [d]. *)
Theorem convertEvent_example_amended :
  convertEventToMessageAttributes exampleEvent !! "a"
    = Some (mkAttr "String" "x") /\
  convertEventToMessageAttributes exampleEvent !! "c" = None /\
  convertEventToMessageAttributes exampleEvent !! "d" = None.
Proof. repeat split; vm_compute; reflexivity. Qed.

(** C1 as stated fails: the map of the example is not the expected one
    (it has no [d], and its [b] is not a Number). *)
Lemma convertEvent_example_refuted :
  convertEventToMessageAttributes exampleEvent <> exampleAttributes.
Proof.
  intros H.
  apply (f_equal (fun m : gmap string MessageAttribute => m !! "d")) in H.
  vm_compute in H. discriminate H.
Qed.

(** The whole map of the example. *)
Lemma convertEvent_example_value :
  convertEventToMessageAttributes exampleEvent =
  {[ "a" := mkAttr "String" "x";
     "b" := mkAttr "String" "[value is undefined]" ]}.
Proof.
  vm_compute. reflexivity.
Qed.

(** An undefined property never becomes an attribute, a number always
    becomes the filler. *)
Lemma convertProperty_undefined attrs key :
  convertProperty attrs (key, JUndefined) = attrs.
Proof. reflexivity. Qed.

Lemma convertPropertyToAttribute_number key n :
  convertPropertyToAttribute key (JNum n)
  = Some {[ key := mkAttr "String" UNDEFINED_FILLER ]}.
Proof. reflexivity. Qed.

(** ** Identity *)

Lemma substring_to_length (n : nat) (s : string) :
  String.length (substring_to n s) = Nat.min n (String.length s).
Proof.
  unfold substring_to. revert n.
  induction s as [|c s IH]; intros [|n]; simpl; try reflexivity.
  now rewrite IH.
Qed.

Lemma getServiceName_short {W : Type} (st : State W) :
  (String.length (configuredServiceName st) <= 24)%nat ->
  fst (getServiceName st) = configuredServiceName st.
Proof.
  intros H. unfold getServiceName. fold (configuredServiceName st).
  destruct (24 <? _)%nat eqn:E; [|reflexivity].
  apply Nat.ltb_lt in E. lia.
Qed.

(** A name of more than 24 characters is cut to 23, not to 24. *)
Lemma getServiceName_long {W : Type} (st : State W) :
  (24 < String.length (configuredServiceName st))%nat ->
  fst (getServiceName st) = substring_to 23 (configuredServiceName st) /\
  String.length (fst (getServiceName st)) = 23%nat.
Proof.
  intros H. unfold getServiceName. fold (configuredServiceName st).
  destruct (24 <? _)%nat eqn:E.
  - simpl. split; [reflexivity|]. rewrite substring_to_length. lia.
  - apply Nat.ltb_ge in E. lia.
Qed.

Lemma getServiceName_at_most_24 {W : Type} (st : State W) :
  (String.length (fst (getServiceName st)) <= 24)%nat.
Proof.
  unfold getServiceName. fold (configuredServiceName st).
  destruct (24 <? _)%nat eqn:E; simpl.
  - rewrite substring_to_length. lia.
  - now apply Nat.ltb_ge in E.
Qed.

Lemma substring_to_cons n c s :
  substring_to (S n) (String c s) = String c (substring_to n s).
Proof. reflexivity. Qed.

Lemma environmentNameOfHost_truthy host :
  truthyStr host = true -> truthyStr (environmentNameOfHost host) = true.
Proof.
  intros Hh. unfold environmentNameOfHost.
  set (name := match indexOf "." host with
               | Some firstDot =>
                   if (0 <? firstDot)%nat then substring_to firstDot host
                   else host
               | None => host
               end).
  assert (Hname : truthyStr name = true).
  { unfold name. destruct (indexOf "." host) as [[|k]|]; simpl; try assumption.
    destruct host as [|c h]; [discriminate|]. reflexivity. }
  destruct (12 <? String.length name)%nat; [|assumption].
  destruct name as [|c r]; [discriminate|]. reflexivity.
Qed.

Lemma environmentNameOfHost_at_most_12 (host : string) :
  (String.length (environmentNameOfHost host) <= 12)%nat.
Proof.
  unfold environmentNameOfHost.
  destruct (12 <? _)%nat eqn:E.
  - rewrite substring_to_length. lia.
  - now apply Nat.ltb_ge in E.
Qed.

(** C7, on the code: a [SERVICE_NAME] of 25 characters comes out with
    23, and a host whose first label has 13 characters gives an
    environment name of 11. *)
Theorem identity_truncation_cuts_one_short :
  fst (getServiceName
         (initialState
            (mkProcessEnv None (Some "subscription-provisioning") None)
            Cloud.emptyWorld))
  = "subscription-provisioni" /\
  String.length "subscription-provisioning" = 25%nat /\
  String.length "subscription-provisioni" = 23%nat /\
  fst (getEnvironmentName
         (initialState
            (mkProcessEnv None None None)
            (Cloud.mkWorld (Some "environment01.voyent.cloud") [] [] [] [] [])))
  = Success "environment" /\
  String.length "environment01" = 13%nat /\
  String.length "environment" = 11%nat.
Proof. repeat split; vm_compute; reflexivity. Qed.

(** ** Batches of queues *)

Lemma asyncCallback_is_no_queue_name : isValidQueueName asyncCallback = false.
Proof. reflexivity. Qed.

Section BatchProperties.

Context {W : Type} {provider : Provider W}.

Lemma createQueue_as_iteratee (item : JsValue) (st : State W) :
  createQueue item asyncCallback JUndefined st
  = (Uncaught (mkError "TypeError: cb is not a function"), st).
Proof.
  unfold createQueue, callingBack.
  destruct (isValidTopicName item); reflexivity.
Qed.

Lemma deleteQueue_as_iteratee (item : JsValue) (st : State W) :
  deleteQueue item asyncCallback JUndefined st
  = (Uncaught (mkError "TypeError: cb is not a function"), st).
Proof.
  unfold deleteQueue, callingBack.
  destruct (isValidTopicName item); reflexivity.
Qed.

(** C4, on the code: [createQueues] and [deleteQueues] hand [createQueue]
    and [deleteQueue], which take three arguments, to [async.map], which
    calls them with two.  For every non-empty array the first item ends
    in a [TypeError], before any request is sent, and the callback of the
    batch is never invoked. *)
Theorem queue_batches_never_call_back (item : JsValue) (rest : list JsValue)
    (st : State W) :
  createQueues (JArr (item :: rest)) st
  = (Uncaught (mkError "TypeError: cb is not a function"), st) /\
  deleteQueues (JArr (item :: rest)) st
  = (Uncaught (mkError "TypeError: cb is not a function"), st).
Proof.
  split.
  - unfold createQueues. simpl. unfold bind, argument. simpl.
    now rewrite createQueue_as_iteratee.
  - unfold deleteQueues. simpl. unfold argument. simpl.
    now rewrite deleteQueue_as_iteratee.
Qed.

End BatchProperties.

(** ** What the operations change *)

Section Evolution.

Context {W : Type} {provider : Provider W}.
Variable pageBudget : nat.

Implicit Types (st : State W) (P : LoggedRequest -> Prop).

Lemma evolves_refl P st : evolves P st st.
Proof.
  repeat split; auto. exists []. split; [now rewrite app_nil_r | constructor].
Qed.

Lemma evolves_trans P st1 st2 st3 :
  evolves P st1 st2 -> evolves P st2 st3 -> evolves P st1 st3.
Proof.
  intros (He1 & Hn1 & Hs1 & Hc1 & l1 & Hl1 & HP1)
         (He2 & Hn2 & Hs2 & Hc2 & l2 & Hl2 & HP2).
  repeat split.
  - congruence.
  - intros e H1 H2. apply Hn2; auto.
  - intros s H1 H2 H3. apply Hs2; auto.
  - intros k H. auto.
  - exists (l1 ++ l2)%list. split.
    + rewrite Hl2, Hl1. now rewrite app_assoc.
    + apply Forall_app. now split.
Qed.

Lemma evolves_weaken (P Q : LoggedRequest -> Prop) st st' :
  (forall r, P r -> Q r) -> evolves P st st' -> evolves Q st st'.
Proof.
  intros HPQ (He & Hn & Hs & Hc & l & Hl & HP).
  repeat split; auto. exists l. split; [assumption|].
  eapply Forall_impl; eauto.
Qed.

Lemma respects_weaken {A} (P Q : LoggedRequest -> Prop) (m : M W A) :
  (forall r, P r -> Q r) -> respects P m -> respects Q m.
Proof. intros HPQ H st. eapply evolves_weaken; eauto. Qed.

Lemma respects_ret {A} P (a : A) : respects P (ret (W:=W) a).
Proof. intros st. apply evolves_refl. Qed.

Lemma respects_fail {A} P msg : respects P (fail (W:=W) (A:=A) msg).
Proof. intros st. apply evolves_refl. Qed.

Lemma respects_throw {A} P msg : respects P (throw (W:=W) (A:=A) msg).
Proof. intros st. apply evolves_refl. Qed.

Lemma respects_bind {A B} P (m : M W A) (k : A -> M W B) :
  respects P m -> (forall a, respects P (k a)) -> respects P (bind m k).
Proof.
  intros Hm Hk st. unfold bind. specialize (Hm st).
  destruct (m st) as [[a|e|e|] st1]; simpl in *; try assumption.
  eapply evolves_trans; [exact Hm|]. apply Hk.
Qed.

Lemma respects_call {A} P (r : Request A) :
  (forall answer, P (Logged r answer)) -> respects P (call r).
Proof.
  intros HP st. unfold call.
  destruct (respond r (world st)) as [[e|a] w']; simpl;
    (repeat split; auto; eexists [Logged r _]; split; [reflexivity|];
     constructor; [apply HP|constructor]).
Qed.

Lemma respects_getClients P :
  (forall answer, P (Logged GetClients answer)) -> respects P getClients.
Proof. apply respects_call. Qed.

Lemma respects_callingBack {A} P cb (m : M W A) :
  respects P m -> respects P (callingBack cb m).
Proof.
  intros Hm st. unfold callingBack. specialize (Hm st).
  destruct (m st) as [[a|e|e|] st1]; simpl in *;
    try destruct (isFunction cb); simpl; assumption.
Qed.

(** What a state function that sets one of the names must show. *)
Lemma evolves_getServiceName P st : evolves P st (snd (getServiceName st)).
Proof.
  unfold getServiceName, configuredServiceName. simpl. repeat split; auto.
  - intros s Hs Ht Hl. simpl. f_equal.
    rewrite Hs, Ht.
    destruct (24 <? String.length s)%nat eqn:E; [|reflexivity].
    apply Nat.ltb_lt in E. lia.
  - exists []. split; [now rewrite app_nil_r | constructor].
Qed.

Lemma evolves_setEnvironmentName P st e :
  truthyStr (orElse (environmentName st) "") = false ->
  evolves P st (setEnvironmentName e st).
Proof.
  intros Hunset. repeat split; auto.
  - intros e' He' Ht. rewrite He' in Hunset. simpl in Hunset.
    rewrite Ht in Hunset. now rewrite Ht in Hunset.
  - exists []. split; [now rewrite app_nil_r | constructor].
Qed.

Lemma respects_getEnvironmentName P :
  (forall answer, P (Logged ScopesGetEnvironmentAttribute answer)) ->
  respects P getEnvironmentName.
Proof.
  intros HP st. unfold getEnvironmentName.
  destruct (truthyStr (orElse (environmentName st) "")) eqn:E1.
  - apply evolves_refl.
  - destruct (truthyStr (orElse (ENVIRONMENT_NAME (processEnv st)) "")) eqn:E2.
    + simpl. now apply evolves_setEnvironmentName.
    + unfold bind.
      pose proof (respects_call P ScopesGetEnvironmentAttribute HP st) as Hc.
      destruct (call ScopesGetEnvironmentAttribute st) as [[host|e|e|] st1] eqn:Ec;
        simpl in *; try assumption.
      destruct (truthyStr (orElse host "")); simpl; [|assumption].
      eapply evolves_trans; [exact Hc|].
      apply evolves_setEnvironmentName.
      (* the call leaves the module's variables alone *)
      unfold call in Ec.
      destruct (respond ScopesGetEnvironmentAttribute (world st)) as [[?|?] ?];
        inversion Ec; subst; simpl; assumption.
Qed.


End Evolution.

Create HintDb respects.

(** One step along the structure of an operation. *)
Ltac respects_step :=
  lazymatch goal with
  | |- respects _ (ret _) => apply respects_ret
  | |- respects _ (fail _) => apply respects_fail
  | |- respects _ (throw _) => apply respects_throw
  | |- respects _ (callingBack _ _) => apply respects_callingBack
  | |- respects _ (call _) =>
      apply respects_call; intros ?;
      first [reflexivity | exact I | simpl; tauto]
  | |- respects _ getClients =>
      apply respects_getClients; intros ?; first [reflexivity | exact I]
  | |- respects _ getEnvironmentName =>
      apply respects_getEnvironmentName; intros ?;
      first [reflexivity | exact I]
  | |- respects _ (bind _ _) => apply respects_bind; [|intros ?]
  | |- respects _ (if ?b then _ else _) => destruct b
  | |- respects _ (match ?x with _ => _ end) => destruct x
  end.

Ltac respects_steps := repeat respects_step.
Ltac respects_auto := respects_steps; eauto with respects.

Section ReadOperations.

Context {W : Type} {provider : Provider W}.
Variable pageBudget : nat.

Implicit Types (st : State W) (P : LoggedRequest -> Prop).


Lemma respects_getQualifiedTopicName t :
  respects reads (getQualifiedTopicName t).
Proof. unfold getQualifiedTopicName. respects_auto. Qed.

#[local] Hint Resolve respects_getQualifiedTopicName : respects.

Lemma respects_getQualifiedQueueName t q :
  respects reads (getQualifiedQueueName t q).
Proof.
  unfold getQualifiedQueueName. respects_auto.
  intros st. pose proof (evolves_getServiceName reads st) as H.
  destruct (getServiceName st) as [s st']. exact H.
Qed.

#[local] Hint Resolve respects_getQualifiedQueueName : respects.

Lemma respects_getAllTopics_from budget token acc :
  respects reads (getAllTopics_from budget token acc).
Proof.
  revert token acc. induction budget as [|budget IH]; intros token acc; simpl.
  - intros st. apply evolves_refl.
  - respects_auto.
Qed.

#[local] Hint Resolve respects_getAllTopics_from : respects.

(** The cache keeps what it answers. *)
Lemma index_empty_subject (p : string) (i : nat) :
  String.index 0 p "" = Some i -> p = "".
Proof. destruct p; simpl; [reflexivity|discriminate]. Qed.

Lemma cacheSet_keeps cache key arn k :
  arn <> "" ->
  truthy (cacheGet cache k) = true ->
  truthy (cacheGet (cacheSet cache key arn) k) = true.
Proof.
  intros Harn H. unfold cacheSet.
  destruct (String.eqb key "__proto__"); [assumption|].
  unfold cacheGet in *.
  destruct (decide (key = k)) as [->|Hne].
  - rewrite lookup_insert_eq. simpl.
    destruct (String.eqb_spec arn ""); [contradiction|reflexivity].
  - now rewrite lookup_insert_ne.
Qed.

Lemma cacheTopicArn_keeps envName cache arn k :
  truthy (cacheGet cache k) = true ->
  truthy (cacheGet (cacheTopicArn envName cache arn) k) = true.
Proof.
  intros H. unfold cacheTopicArn.
  destruct (indexOf (envName ++ "_") arn) as [i|] eqn:E; [|assumption].
  apply cacheSet_keeps; [|assumption].
  intros ->. apply index_empty_subject in E.
  destruct envName; discriminate.
Qed.

Lemma cacheTopicArns_fold_keeps envName topics cache k :
  truthy (cacheGet cache k) = true ->
  truthy (cacheGet (foldl (cacheTopicArn envName) cache topics) k) = true.
Proof.
  revert cache. induction topics as [|arn topics IH]; intros cache H; simpl.
  - assumption.
  - apply IH. now apply cacheTopicArn_keeps.
Qed.

Lemma respects_cacheTopicArns : respects reads (cacheTopicArns pageBudget).
Proof.
  unfold cacheTopicArns, getAllTopics. respects_auto.
  intros st. simpl. repeat split; auto.
  - intros k. apply cacheTopicArns_fold_keeps.
  - exists []. split; [now rewrite app_nil_r | constructor].
Qed.

#[local] Hint Resolve respects_cacheTopicArns : respects.

Lemma respects_getTopicArn t : respects reads (getTopicArn pageBudget t).
Proof.
  unfold getTopicArn. respects_auto.
  intros st.
  destruct (truthy (cacheGet (cachedTopicArns st) (ToString t))).
  - apply evolves_refl.
  - apply respects_bind; [apply respects_cacheTopicArns|].
    intros _ st'. destruct (negb _); apply evolves_refl.
Qed.

#[local] Hint Resolve respects_getTopicArn : respects.

Lemma respects_getQueueUrl t q : respects reads (getQueueUrl t q).
Proof.
  unfold getQueueUrl. respects_auto.
Qed.

#[local] Hint Resolve respects_getQueueUrl : respects.

Lemma respects_getQueueArn t q : respects reads (getQueueArn t q).
Proof.
  unfold getQueueArn. respects_auto.
Qed.

#[local] Hint Resolve respects_getQueueArn : respects.

Lemma respects_getSubscriptionsForTopic arn :
  respects reads (getSubscriptionsForTopic arn).
Proof. unfold getSubscriptionsForTopic. respects_auto. Qed.

#[local] Hint Resolve respects_getSubscriptionsForTopic : respects.

Lemma respects_checkQueueAlreadySubscribed arn q :
  respects reads (checkQueueAlreadySubscribed arn q).
Proof.
  unfold checkQueueAlreadySubscribed. respects_auto.
Qed.

Lemma respects_getCurrentTopicPolicy arn :
  respects reads (getCurrentTopicPolicy arn).
Proof. unfold getCurrentTopicPolicy. respects_auto. Qed.

End ReadOperations.

#[global] Hint Resolve respects_getQualifiedTopicName
  respects_getQualifiedQueueName respects_getAllTopics_from
  respects_cacheTopicArns respects_getTopicArn respects_getQueueUrl
  respects_getQueueArn respects_getSubscriptionsForTopic
  respects_checkQueueAlreadySubscribed respects_getCurrentTopicPolicy
  : respects.

(** ** The ARN cache *)

Section Resolution.

Context {W : Type} {provider : Provider W}.
Variable pageBudget : nat.

Implicit Types (st : State W).

Lemma getTopicArn_hit t st :
  isValidTopicName t = true ->
  truthy (cacheGet (cachedTopicArns st) (ToString t)) = true ->
  getTopicArn pageBudget t st
  = (Success (cacheGet (cachedTopicArns st) (ToString t)), st).
Proof.
  intros Hv Hc. unfold getTopicArn. rewrite Hv. simpl. now rewrite Hc.
Qed.

Lemma getTopicArn_success t st a st' :
  getTopicArn pageBudget t st = (Success a, st') ->
  isValidTopicName t = true /\
  a = cacheGet (cachedTopicArns st') (ToString t) /\
  truthy a = true.
Proof.
  unfold getTopicArn. destruct (isValidTopicName t); simpl; [|discriminate].
  destruct (truthy (cacheGet (cachedTopicArns st) (ToString t))) eqn:Hc.
  - intros H. inversion H; subst. auto.
  - unfold bind. destruct (cacheTopicArns pageBudget st) as [[[]|e|e|] st1];
      try discriminate.
    destruct (truthy (cacheGet (cachedTopicArns st1) (ToString t))) eqn:Hc1;
      simpl; [|discriminate].
    intros H. inversion H; subst. auto.
Qed.

Lemma resolveAll_evolves names st :
  evolves reads st (resolveAll pageBudget names st).
Proof.
  revert st. induction names as [|name names IH]; intros st; simpl.
  - apply evolves_refl.
  - eapply evolves_trans; [apply (respects_getTopicArn pageBudget name st)|].
    apply IH.
Qed.

(** Counting the listing requests of a log. *)
Lemma countCalls_app p (l1 l2 : list LoggedRequest) :
  countCalls p (l1 ++ l2) = (countCalls p l1 + countCalls p l2)%nat.
Proof. unfold countCalls. now rewrite filter_app, length_app. Qed.

Lemma evolves_countCalls P p st st' :
  evolves P st st' ->
  (countCalls p (calls st) <= countCalls p (calls st'))%nat.
Proof.
  intros (_ & _ & _ & _ & l & Hl & _). rewrite Hl, countCalls_app. lia.
Qed.

Lemma call_state {A} (r : Request A) st :
  cachedTopicArns (snd (call r st)) = cachedTopicArns st /\
  calls (snd (call r st))
  = (calls st ++ [Logged r (fst (respond r (world st)))])%list.
Proof.
  unfold call. destruct (respond r (world st)) as [[e|a] w']; simpl; auto.
Qed.

(** A refresh that changes the cache has sent a listing request. *)
Lemma getAllTopics_from_listing budget token acc st :
  let st' := snd (getAllTopics_from budget token acc st) in
  cachedTopicArns st' = cachedTopicArns st /\
  (forall topics, fst (getAllTopics_from budget token acc st) = Success topics ->
     (countCalls isListTopics (calls st)
      < countCalls isListTopics (calls st'))%nat).
Proof.
  revert token acc st. induction budget as [|budget IH]; intros token acc st.
  - simpl. split; [reflexivity|]. intros topics H. discriminate.
  - simpl. unfold bind, getClients.
    pose proof (call_state GetClients st) as [Hc1 Hl1].
    destruct (call GetClients st) as [[[]|e|e|] st1]; simpl in *;
      try (split; [assumption|intros ? ?; discriminate]).
    set (tok := if truthyStr (orElse token "") then token else None).
    pose proof (call_state (SnsListTopics tok) st1) as [Hc2 Hl2].
    destruct (call (SnsListTopics tok) st1) as [[data|e|e|] st2]; simpl in *;
      try (split; [congruence|intros ? ?; discriminate]).
    assert (Hcount : (countCalls isListTopics (calls st)
                      < countCalls isListTopics (calls st2))%nat).
    { rewrite Hl2, Hl1, !countCalls_app.
      assert (forall answer,
                countCalls isListTopics [Logged (SnsListTopics tok) answer]
                = 1%nat) as Hone by reflexivity.
      rewrite Hone.
      lia. }
    destruct (truthyStr (orElse (NextToken data) "")).
    + specialize (IH (NextToken data) (acc ++ Topics data)%list st2).
      destruct IH as [IHc IHl]. split; [congruence|].
      intros topics Ht.
      pose proof (respects_getAllTopics_from budget (NextToken data)
                    (acc ++ Topics data)%list st2) as Hev.
      apply (evolves_countCalls _ isListTopics) in Hev. lia.
    + simpl. split; [congruence|]. intros topics _. exact Hcount.
Qed.

Lemma cacheTopicArns_listing st :
  let st' := snd (cacheTopicArns pageBudget st) in
  cachedTopicArns st' = cachedTopicArns st \/
  (countCalls isListTopics (calls st)
   < countCalls isListTopics (calls st'))%nat.
Proof.
  unfold cacheTopicArns, getAllTopics, bind.
  pose proof (getAllTopics_from_listing pageBudget None [] st) as [Hc Hl].
  destruct (getAllTopics_from pageBudget None [] st) as [[topics|e|e|] st1];
    simpl in *; auto.
  right. specialize (Hl topics eq_refl).
  pose proof (respects_getEnvironmentName reads (fun _ => eq_refl) st1) as Hev.
  destruct (getEnvironmentName st1) as [[envName|e|e|] st2]; simpl in *;
    apply (evolves_countCalls _ isListTopics) in Hev; simpl in *; lia.
Qed.

Lemma getTopicArn_listing t st :
  let st' := snd (getTopicArn pageBudget t st) in
  cachedTopicArns st' = cachedTopicArns st \/
  (countCalls isListTopics (calls st)
   < countCalls isListTopics (calls st'))%nat.
Proof.
  unfold getTopicArn. destruct (isValidTopicName t); simpl; [|now left].
  destruct (truthy (cacheGet (cachedTopicArns st) (ToString t)));
    [now left|].
  unfold bind. pose proof (cacheTopicArns_listing st) as H.
  destruct (cacheTopicArns pageBudget st) as [[[]|e|e|] st1]; simpl in *;
    try exact H.
  destruct (negb _); simpl; exact H.
Qed.

Lemma resolveAll_without_listing names st :
  countCalls isListTopics (calls (resolveAll pageBudget names st))
  = countCalls isListTopics (calls st) ->
  cachedTopicArns (resolveAll pageBudget names st) = cachedTopicArns st.
Proof.
  revert st. induction names as [|name names IH]; intros st H; simpl in *.
  - reflexivity.
  - pose proof (respects_getTopicArn pageBudget name st) as H1.
    apply (evolves_countCalls _ isListTopics) in H1.
    pose proof (resolveAll_evolves names (snd (getTopicArn pageBudget name st)))
      as H2.
    apply (evolves_countCalls _ isListTopics) in H2.
    rewrite IH by lia.
    destruct (getTopicArn_listing name st) as [Hc|Hlt]; [assumption|].
    simpl in Hlt. lia.
Qed.

(** *** What a refresh may write *)

Lemma cacheTopicArn_agrees envName cache listed key arn :
  (topicNameOf envName listed = Some key -> JStr listed = arn) ->
  cacheGet cache key = arn ->
  cacheGet (cacheTopicArn envName cache listed) key = arn.
Proof.
  intros Hname Hc. unfold cacheTopicArn. unfold topicNameOf in Hname.
  destruct (indexOf (envName ++ "_") listed) as [i|]; [|exact Hc].
  set (name := substring_from _ _) in *.
  unfold cacheSet. destruct (String.eqb name "__proto__"); [exact Hc|].
  destruct (decide (name = key)) as [Heq|Hne].
  - subst key. unfold cacheGet. rewrite lookup_insert_eq. now apply Hname.
  - unfold cacheGet in *. now rewrite lookup_insert_ne.
Qed.

Lemma cacheTopicArns_fold_agrees envName topics cache key arn :
  (forall listed, In listed topics ->
                  topicNameOf envName listed = Some key -> JStr listed = arn) ->
  cacheGet cache key = arn ->
  cacheGet (foldl (cacheTopicArn envName) cache topics) key = arn.
Proof.
  revert cache. induction topics as [|listed topics IH]; intros cache Hall Hc;
    simpl; [exact Hc|].
  apply IH.
  - intros l Hl. apply Hall. now right.
  - apply cacheTopicArn_agrees; [|exact Hc]. apply Hall. now left.
Qed.

Lemma call_success {A} (r : Request A) st a st' :
  call r st = (Success a, st') ->
  calls st' = (calls st ++ [Logged r (inr a)])%list /\
  cachedTopicArns st' = cachedTopicArns st.
Proof.
  unfold call. destruct (respond r (world st)) as [[e|data] w']; intros H;
    inversion H; subst. simpl. auto.
Qed.

Lemma bind_success {A B} (m : M W A) (k : A -> M W B) st b st' :
  bind m k st = (Success b, st') ->
  exists a s1, m st = (Success a, s1) /\ k a s1 = (Success b, st').
Proof.
  unfold bind. destruct (m st) as [[a|e|e|] s1]; try discriminate.
  intros H. eauto.
Qed.

(** Every topic that [getAllTopics] returns was in a page of the
    listing. *)
Lemma getAllTopics_from_pages budget token acc st topics st' :
  getAllTopics_from budget token acc st = (Success topics, st') ->
  exists l,
    calls st' = (calls st ++ l)%list /\
    forall listed, In listed topics ->
      In listed acc \/
      exists token' data,
        In (Logged (SnsListTopics token') (inr data)) l /\
        In listed (Topics data).
Proof.
  revert token acc st. induction budget as [|budget IH]; intros token acc st;
    simpl; [discriminate|].
  intros H. apply bind_success in H as ([] & s1 & H1 & H).
  apply bind_success in H as (data & s2 & H2 & H).
  apply call_success in H1 as [L1 _]. apply call_success in H2 as [L2 _].
  set (tok := if truthyStr (orElse token "") then token else None) in *.
  destruct (truthyStr (orElse (NextToken data) "")).
  - apply IH in H as (l & L & Hin).
    exists ([Logged GetClients (inr tt); Logged (SnsListTopics tok) (inr data)]
            ++ l)%list.
    split.
    + rewrite L, L2, L1. now rewrite <- !app_assoc.
    + intros listed Hl. destruct (Hin listed Hl) as [Hacc|(t' & d' & Hd & Ht)].
      * apply in_app_or in Hacc as [Hacc|Hdata]; [now left|].
        right. exists tok, data. split; [|exact Hdata]. right. now left.
      * right. exists t', d'. split; [|exact Ht]. right. now right.
  - inversion H; subst.
    exists [Logged GetClients (inr tt); Logged (SnsListTopics tok) (inr data)].
    split.
    + rewrite L2, L1. now rewrite <- !app_assoc.
    + intros listed Hl. apply in_app_or in Hl as [Hacc|Hdata]; [now left|].
      right. exists tok, data. split; [|exact Hdata]. right. now left.
Qed.

Lemma getEnvironmentName_cache st :
  cachedTopicArns (snd (getEnvironmentName st)) = cachedTopicArns st.
Proof.
  unfold getEnvironmentName.
  destruct (truthyStr (orElse (environmentName st) "")); [reflexivity|].
  destruct (truthyStr (orElse (ENVIRONMENT_NAME (processEnv st)) ""));
    [reflexivity|].
  unfold bind. pose proof (call_state ScopesGetEnvironmentAttribute st) as [Hc _].
  destruct (call ScopesGetEnvironmentAttribute st) as [[host|?|?|] s1];
    simpl in *; try exact Hc.
  destruct (truthyStr (orElse host "")); simpl; exact Hc.
Qed.

Lemma getEnvironmentName_success st e st' :
  getEnvironmentName st = (Success e, st') ->
  environmentName st' = Some e /\ truthyStr e = true.
Proof.
  unfold getEnvironmentName.
  destruct (truthyStr (orElse (environmentName st) "")) eqn:E1.
  - intros H. inversion H; subst. split; [|assumption].
    destruct (environmentName st') as [e'|]; simpl in *; [|discriminate].
    destruct (truthyStr e'); [reflexivity|discriminate].
  - destruct (truthyStr (orElse (ENVIRONMENT_NAME (processEnv st)) "")) eqn:E2.
    + intros H. inversion H; subst. auto.
    + unfold bind.
      destruct (call ScopesGetEnvironmentAttribute st) as [[host|?|?|] st1];
        try discriminate.
      destruct (truthyStr (orElse host "")) eqn:E3; [|discriminate].
      intros H. inversion H; subst. simpl. split; [reflexivity|].
      now apply environmentNameOfHost_truthy.
Qed.

(** The log of a refresh, and what it leaves under a name when its
    listing names no other ARN there. *)
Lemma cacheTopicArns_agrees key arn st :
  exists l,
    calls (snd (cacheTopicArns pageBudget st)) = (calls st ++ l)%list /\
    ((forall e, environmentName (snd (cacheTopicArns pageBudget st)) = Some e ->
                truthyStr e = true -> Forall (listsNoOther e key arn) l) ->
     cacheGet (cachedTopicArns st) key = arn ->
     cacheGet (cachedTopicArns (snd (cacheTopicArns pageBudget st))) key = arn).
Proof.
  destruct (respects_cacheTopicArns pageBudget st)
    as (_ & _ & _ & _ & l & L & _).
  exists l. split; [exact L|].
  revert L. unfold cacheTopicArns, getAllTopics, bind.
  pose proof (getAllTopics_from_listing pageBudget None [] st) as [Hc _].
  destruct (getAllTopics_from pageBudget None [] st) as [[topics|?|?|] s1] eqn:E1;
    simpl in *; try (intros _ _ Ha; congruence).
  pose proof (getEnvironmentName_cache s1) as Hc2.
  destruct (getEnvironmentName s1) as [[e|?|?|] s2] eqn:E2; simpl in *;
    try (intros _ _ Ha; congruence).
  intros L Hall Ha.
  apply getEnvironmentName_success in E2 as E2'. destruct E2' as [He Hte].
  specialize (Hall e He Hte).
  apply getAllTopics_from_pages in E1 as (l1 & L1 & Hin).
  pose proof (respects_getEnvironmentName reads (fun _ => eq_refl) s1) as Hev.
  rewrite E2 in Hev. destruct Hev as (_ & _ & _ & _ & l2 & L2 & _).
  simpl in L2. rewrite L2, L1, <- app_assoc in L.
  apply app_inv_head in L. subst l.
  apply Forall_app in Hall as [Hall1 _].
  apply cacheTopicArns_fold_agrees; [|congruence].
  intros listed Hl Hname.
  destruct (Hin listed Hl) as [[]|(token' & data & Hd & Ht)].
  rewrite Forall_forall in Hall1.
  apply list_elem_of_In in Hd. specialize (Hall1 _ Hd). simpl in Hall1.
  now apply Hall1.
Qed.

Lemma getTopicArn_agrees t key arn st :
  exists l,
    calls (snd (getTopicArn pageBudget t st)) = (calls st ++ l)%list /\
    ((forall e, environmentName (snd (getTopicArn pageBudget t st)) = Some e ->
                truthyStr e = true -> Forall (listsNoOther e key arn) l) ->
     cacheGet (cachedTopicArns st) key = arn ->
     cacheGet (cachedTopicArns (snd (getTopicArn pageBudget t st))) key = arn).
Proof.
  unfold getTopicArn.
  assert (Hsame : exists l : list LoggedRequest,
            calls st = (calls st ++ l)%list /\
            ((forall e, environmentName st = Some e -> truthyStr e = true ->
                        Forall (listsNoOther e key arn) l) ->
             cacheGet (cachedTopicArns st) key = arn ->
             cacheGet (cachedTopicArns st) key = arn)).
  { exists []. split; [now rewrite app_nil_r|auto]. }
  destruct (isValidTopicName t); simpl; [|exact Hsame].
  destruct (truthy (cacheGet (cachedTopicArns st) (ToString t)));
    [exact Hsame|].
  unfold bind. pose proof (cacheTopicArns_agrees key arn st) as H.
  destruct (cacheTopicArns pageBudget st) as [[[]|?|?|] s1]; simpl in *;
    try exact H.
  destruct (negb _); simpl; exact H.
Qed.

Lemma resolveAll_agrees names key arn st :
  exists l,
    calls (resolveAll pageBudget names st) = (calls st ++ l)%list /\
    ((forall e, environmentName (resolveAll pageBudget names st) = Some e ->
                truthyStr e = true -> Forall (listsNoOther e key arn) l) ->
     cacheGet (cachedTopicArns st) key = arn ->
     cacheGet (cachedTopicArns (resolveAll pageBudget names st)) key = arn).
Proof.
  revert st. induction names as [|name names IH]; intros st; simpl.
  - exists []. split; [now rewrite app_nil_r|auto].
  - destruct (getTopicArn_agrees name key arn st) as (l1 & L1 & H1).
    set (s1 := snd (getTopicArn pageBudget name st)) in *.
    destruct (IH s1) as (l2 & L2 & H2).
    exists (l1 ++ l2)%list. split.
    + rewrite L2, L1. now rewrite app_assoc.
    + intros Hall Ha. apply H2.
      * intros e He Hte. specialize (Hall e He Hte).
        now apply Forall_app in Hall as [_ Hall].
      * apply H1; [|exact Ha].
        intros e He Hte.
        pose proof (resolveAll_evolves names s1) as Hev.
        pose proof (Hev) as (_ & Hn & _).
        specialize (Hall e (Hn e He Hte) Hte).
        now apply Forall_app in Hall as [Hall _].
Qed.

(** Once the ARN of a topic has been resolved, whatever names are
    resolved next, the cache still answers for the topic; resolving it
    again sends no request at all (the state and its log are unchanged)
    and gives the ARN that the cache then holds.  That ARN is the one
    resolved first whenever no listing made in between has another ARN
    that [cacheTopicArns] files under the topic's name. *)
Theorem resolved_arn_is_answered_from_the_cache t st a st1 names :
  queuedGetTopicArn pageBudget t st = (Success a, st1) ->
  let st2 := resolveAll pageBudget names st1 in
  queuedGetTopicArn pageBudget t st2
  = (Success (cacheGet (cachedTopicArns st2) (ToString t)), st2) /\
  truthy (cacheGet (cachedTopicArns st2) (ToString t)) = true /\
  (forall l,
     calls st2 = (calls st1 ++ l)%list ->
     (forall e, environmentName st2 = Some e ->
                Forall (listsNoOther e (ToString t) a) l) ->
     cacheGet (cachedTopicArns st2) (ToString t) = a).
Proof.
  intros H. cbv zeta. unfold queuedGetTopicArn in *.
  set (st2 := resolveAll pageBudget names st1).
  apply getTopicArn_success in H as (Hv & -> & Ht).
  pose proof (resolveAll_evolves names st1) as (_ & _ & _ & Hkeep & _).
  fold st2 in Hkeep. specialize (Hkeep _ Ht).
  repeat split.
  - now apply getTopicArn_hit.
  - exact Hkeep.
  - intros l L Hall.
    destruct (resolveAll_agrees names (ToString t)
                (cacheGet (cachedTopicArns st1) (ToString t)) st1)
      as (l' & L' & Hagree).
    fold st2 in L', Hagree. rewrite L in L'. apply app_inv_head in L'.
    subst l'. apply Hagree; [|reflexivity].
    intros e He _. now apply Hall.
Qed.

(** In particular the ARN is the one resolved first when no listing was
    made in between. *)
Lemma resolved_arn_without_listing t st a st1 names :
  queuedGetTopicArn pageBudget t st = (Success a, st1) ->
  let st2 := resolveAll pageBudget names st1 in
  countCalls isListTopics (calls st2) = countCalls isListTopics (calls st1) ->
  cacheGet (cachedTopicArns st2) (ToString t) = a.
Proof.
  intros H. cbv zeta. unfold queuedGetTopicArn in *. intros Hcount.
  apply getTopicArn_success in H as (_ & -> & _).
  now rewrite resolveAll_without_listing.
Qed.

(** ** Deleting a topic *)

Lemma callingBack_function {A} cb (m : M W A) st :
  isFunction cb = true -> callingBack cb m st = m st.
Proof.
  intros Hf. unfold callingBack. rewrite Hf.
  destruct (m st) as [[a|e|e|] st']; reflexivity.
Qed.

(** C10: when the name is valid and its resolution fails, [deleteTopic]
    does not report the failure: it goes on to [getClients] and to
    [sns.deleteTopic] with an undefined [TopicArn], and what its caller
    hears is the answer to that request. *)
Theorem deleteTopic_ignores_a_failed_resolution t cb st e st1 :
  isValidTopicName t = true ->
  isFunction cb = true ->
  queuedGetTopicArn pageBudget t st = (Failure e, st1) ->
  deleteTopic pageBudget t cb st
  = (getClients ;;; call (SnsDeleteTopic JUndefined)) st1 /\
  forall w1 answer w2,
    respond GetClients (world st1) = (inr tt, w1) ->
    respond (SnsDeleteTopic JUndefined) w1 = (answer, w2) ->
    deleteTopic pageBudget t cb st
    = (outcomeOf answer,
       withWorld w2
         (calls st1 ++ [ Logged GetClients (inr tt);
                         Logged (SnsDeleteTopic JUndefined) answer ])
         st1).
Proof.
  intros Hv Hf Hr.
  assert (Hd : deleteTopic pageBudget t cb st
               = (getClients ;;; call (SnsDeleteTopic JUndefined)) st1).
  { unfold deleteTopic. rewrite callingBack_function by assumption.
    rewrite Hv. simpl. now rewrite Hr. }
  split; [exact Hd|].
  intros w1 answer w2 H1 H2. rewrite Hd.
  unfold bind, getClients, call. rewrite H1. simpl. rewrite H2.
  unfold withWorld. rewrite <- app_assoc. simpl.
  destruct answer; reflexivity.
Qed.

End Resolution.

(** C2: the code replaces a cached ARN.  [cacheTopicArns] is to cache the
    topics of this environment, whose names are [envName_topic] (lines
    742, 765-773), but it looks for the prefix anywhere in the ARN
    ([indexOf], line 779): the topic [predev_x] of the environment
    [predev] does not begin with [dev_], and yet it is filed under [x] in
    the environment [dev].  So, in [dev], with a topic of [predev] in the
    account: the topic [x] is resolved, then the topic [y], which misses
    the cache; the listing that follows names [predev_x] after [dev_x],
    and the entry of [x] is overwritten with the ARN of the other
    environment's topic. *)
Lemma resolved_arn_replaced_by_a_refresh :
  let st0 :=
    initialState Cloud.devEnvironment
      (Cloud.mkWorld None [Cloud.topicArnOf "dev_x"]
         [[]; [Cloud.topicArnOf "predev_x"; Cloud.topicArnOf "dev_y"]]
         [] [] []) in
  let st1 := snd (queuedGetTopicArn 1 (JStr "x") st0) in
  let st2 := resolveAll 1 [JStr "y"] st1 in
  String.prefix "dev_" "predev_x" = false /\
  topicNameOf "dev" (Cloud.topicArnOf "predev_x") = Some "x" /\
  fst (queuedGetTopicArn 1 (JStr "x") st0)
  = Success (JStr "arn:aws:sns:us-east-1:000000000000:dev_x") /\
  fst (queuedGetTopicArn 1 (JStr "x") st2)
  = Success (JStr "arn:aws:sns:us-east-1:000000000000:predev_x") /\
  fst (queuedGetTopicArn 1 (JStr "x") st2)
  <> fst (queuedGetTopicArn 1 (JStr "x") st0).
Proof.
  cbv zeta. split; [vm_compute; reflexivity|].
  split; [vm_compute; reflexivity|].
  split; [vm_compute; reflexivity|].
  split; [vm_compute; reflexivity|].
  intros H. vm_compute in H. inversion H.
Qed.

Lemma resolved_arn_is_answered_from_the_cache_witness :
  let st0 :=
    initialState Cloud.devEnvironment
      (Cloud.mkWorld None [Cloud.topicArnOf "dev_x"]
         [[]; [Cloud.topicArnOf "dev_y"]] [] [] []) in
  let st1 := snd (queuedGetTopicArn 1 (JStr "x") st0) in
  let st2 := resolveAll 1 [JStr "y"; JStr "x"] st1 in
  queuedGetTopicArn 1 (JStr "x") st2
  = (Success (cacheGet (cachedTopicArns st2) "x"), st2) /\
  truthy (cacheGet (cachedTopicArns st2) "x") = true /\
  (forall l,
     calls st2 = (calls st1 ++ l)%list ->
     (forall e, environmentName st2 = Some e ->
                Forall (listsNoOther e "x"
                          (JStr "arn:aws:sns:us-east-1:000000000000:dev_x")) l) ->
     cacheGet (cachedTopicArns st2) "x"
     = JStr "arn:aws:sns:us-east-1:000000000000:dev_x").
Proof.
  cbv zeta.
  apply (resolved_arn_is_answered_from_the_cache 1 (JStr "x")
           (initialState Cloud.devEnvironment
              (Cloud.mkWorld None [Cloud.topicArnOf "dev_x"]
                 [[]; [Cloud.topicArnOf "dev_y"]] [] [] []))).
  vm_compute. reflexivity.
Defined.

Lemma deleteTopic_ignores_a_failed_resolution_witness :
  let st0 := initialState Cloud.devEnvironment Cloud.emptyWorld in
  deleteTopic 1 (JStr "orders") asyncCallback st0
  = (getClients ;;; call (SnsDeleteTopic JUndefined))
      (snd (queuedGetTopicArn 1 (JStr "orders") st0)).
Proof.
  cbv zeta.
  refine (proj1 (deleteTopic_ignores_a_failed_resolution 1 (JStr "orders")
                   asyncCallback
                   (initialState Cloud.devEnvironment Cloud.emptyWorld)
                   (mkError "cannot get ARN for orders") _ _ _ _)).
  - reflexivity.
  - reflexivity.
  - vm_compute. reflexivity.
Defined.

(** ** What the provisioning operations change *)

Section Provisioning.

Context {W : Type} {provider : Provider W}.
Variable pageBudget : nat.

Implicit Types (st : State W) (P : LoggedRequest -> Prop).

Lemma reads_createsNoQueue r : reads r -> createsNoQueue r.
Proof.
  destruct r as [A r ?]. unfold reads. destruct r; simpl; intros H;
    try exact I; discriminate H.
Qed.

Lemma respects_reads {A} (m : M W A) :
  respects reads m -> respects createsNoQueue m.
Proof. apply respects_weaken, reads_createsNoQueue. Qed.

#[local] Hint Resolve respects_reads : respects.

Lemma respects_async_map P coll (iteratee : list JsValue -> M W JsValue) :
  (forall args, respects P (iteratee args)) ->
  respects P (async_map coll iteratee).
Proof.
  intros Hi. induction coll as [|item rest IH]; simpl.
  - apply respects_ret.
  - intros st. pose proof (Hi [item; asyncCallback] st) as H1.
    destruct (iteratee [item; asyncCallback] st) as [[v|e|e|] st1];
      simpl in *; try assumption.
    + eapply evolves_trans; [exact H1|].
      apply respects_bind; [exact IH|]. intros ?. apply respects_ret.
    + pose proof (IH st1) as H2.
      destruct (async_map rest iteratee st1) as [[?|?|?|] st2]; simpl in *;
        eapply evolves_trans; eauto.
Qed.

Lemma respects_async_each P coll (iteratee : list JsValue -> M W JsValue) :
  (forall args, respects P (iteratee args)) ->
  respects P (async_each coll iteratee).
Proof.
  intros Hi. unfold async_each. apply respects_bind.
  - now apply respects_async_map.
  - intros ?. apply respects_ret.
Qed.

Lemma respects_async_parallel {A B} P (first : M W A) (second : M W B) :
  respects P first -> respects P second ->
  respects P (async_parallel first second).
Proof.
  intros H1 H2 st. unfold async_parallel. specialize (H1 st).
  destruct (first st) as [[a|e|e|] st1]; simpl in *; try assumption.
  - eapply evolves_trans; [exact H1|].
    apply respects_bind; [exact H2|]. intros ?. apply respects_ret.
  - specialize (H2 st1).
    destruct (second st1) as [[?|?|?|] st2]; simpl in *;
      eapply evolves_trans; eauto.
Qed.

Lemma respects_resolveArns t m q :
  respects createsNoQueue (resolveArns pageBudget t m q).
Proof.
  unfold resolveArns, queuedGetTopicArn. apply respects_async_parallel.
  - apply respects_reads, respects_getTopicArn.
  - destruct m; apply respects_reads, respects_getQueueArn.
Qed.

Lemma respects_subscribeQueueToTopic t m q :
  respects createsNoQueue (subscribeQueueToTopic pageBudget t m q).
Proof.
  unfold subscribeQueueToTopic. respects_steps.
  all: auto using respects_resolveArns with respects.
Qed.

Lemma respects_subscribeQueueToTopics ts q :
  respects createsNoQueue (subscribeQueueToTopics pageBudget ts q).
Proof.
  unfold subscribeQueueToTopics. apply respects_async_each. intros args.
  respects_steps. all: apply respects_subscribeQueueToTopic.
Qed.

Lemma respects_setFilterForSubscription t m q f :
  respects createsNoQueue (setFilterForSubscription pageBudget t m q f).
Proof.
  unfold setFilterForSubscription. respects_steps.
  all: auto using respects_resolveArns with respects.
Qed.

Lemma respects_setFilterForSubscriptions ts q f :
  respects createsNoQueue (setFilterForSubscriptions pageBudget ts q f).
Proof.
  unfold setFilterForSubscriptions. apply respects_async_each. intros args.
  apply respects_setFilterForSubscription.
Qed.

Lemma respects_getPublishPermissionParams P t arn :
  respects P (getPublishPermissionParams (W:=W) t arn).
Proof.
  intros st. unfold getPublishPermissionParams.
  destruct (negb _); [apply evolves_refl|].
  destruct (permittedAccount _ _ _) as [[]|account]; [apply evolves_refl|].
  destruct (negb _); apply evolves_refl.
Qed.

Lemma respects_createTopic t cb : respects createsNoQueue (createTopic t cb).
Proof.
  unfold createTopic. respects_steps.
  - auto with respects.
  - apply respects_getPublishPermissionParams.
  - intros st.
    pose proof (respects_call createsNoQueue (SnsAddPermission p)
                  (fun _ => I) st) as H.
    destruct (call (SnsAddPermission p) st) as [[?|?|?|] st1]; exact H.
Qed.

Lemma respects_createTopics names : respects createsNoQueue (createTopics names).
Proof.
  unfold createTopics. respects_steps. apply respects_async_map.
  intros args. apply respects_createTopic.
Qed.

Lemma respects_updateCurrentPolicy arn p s :
  respects createsNoQueue (updateCurrentPolicy arn p s).
Proof. unfold updateCurrentPolicy. respects_auto. Qed.

End Provisioning.

#[global] Hint Resolve respects_reads respects_resolveArns
  respects_subscribeQueueToTopic respects_subscribeQueueToTopics
  respects_setFilterForSubscription respects_setFilterForSubscriptions
  respects_getPublishPermissionParams respects_createTopic
  respects_createTopics respects_updateCurrentPolicy : respects.

(** ** Doing it twice *)

Section Idempotence.

Context {W : Type} {provider : Provider W}.
Variable pageBudget : nat.

Implicit Types (st : State W) (P : LoggedRequest -> Prop).

Lemma evolves_environmentName P st st' e :
  evolves P st st' -> environmentName st = Some e -> truthyStr e = true ->
  environmentName st' = Some e.
Proof. intros (_ & H & _) He Ht. now apply H. Qed.

Lemma evolves_cached P st st' k :
  evolves P st st' ->
  truthy (cacheGet (cachedTopicArns st) k) = true ->
  truthy (cacheGet (cachedTopicArns st') k) = true.
Proof. intros (_ & _ & _ & H & _). apply H. Qed.

Lemma reads_count p l :
  (forall r, isRead r = true -> p r = false) ->
  Forall reads l -> countCalls p l = 0%nat.
Proof.
  intros Hp Hl. unfold countCalls.
  induction Hl as [|r l Hr Hl IH]; [reflexivity|].
  rewrite filter_cons_False; [exact IH|].
  rewrite (Hp r Hr). discriminate.
Qed.

Lemma evolves_reads_count p st st' :
  (forall r, isRead r = true -> p r = false) ->
  evolves reads st st' ->
  countCalls p (calls st') = countCalls p (calls st).
Proof.
  intros Hp (_ & _ & _ & _ & l & Hl & Hr).
  rewrite Hl, (countCalls_app p), (reads_count p l Hp Hr). lia.
Qed.

Lemma read_is_no_subscribe r : isRead r = true -> isSubscribe r = false.
Proof.
  destruct r as [A [] ?]; simpl; intros H; try reflexivity; discriminate.
Qed.

Lemma read_is_no_setTopicAttributes r :
  isRead r = true -> isSetTopicAttributes r = false.
Proof.
  destruct r as [A [] ?]; simpl; intros H; try reflexivity; discriminate.
Qed.

Lemma call_variables {A} (r : Request A) st :
  processEnv (snd (call r st)) = processEnv st /\
  environmentName (snd (call r st)) = environmentName st /\
  serviceName (snd (call r st)) = serviceName st.
Proof.
  unfold call. destruct (respond r (world st)) as [[e|a] w']; simpl; auto.
Qed.

Lemma getEnvironmentName_set st e :
  environmentName st = Some e -> truthyStr e = true ->
  getEnvironmentName st = (Success e, st).
Proof.
  intros He Ht. unfold getEnvironmentName. rewrite He. simpl.
  now rewrite !Ht.
Qed.

Lemma getQualifiedTopicName_success t st n st' :
  getQualifiedTopicName t st = (Success n, st') ->
  isValidTopicName t = true /\
  exists e, environmentName st' = Some e /\ truthyStr e = true /\
            n = e ++ "_" ++ ToString t.
Proof.
  unfold getQualifiedTopicName.
  destruct (isValidTopicName t); simpl; [|discriminate].
  intros H. apply bind_success in H as (e & s1 & He & Hr).
  inversion Hr; subst. split; [reflexivity|].
  apply getEnvironmentName_success in He as [He Ht]. eauto.
Qed.

Lemma getQualifiedTopicName_set t st e :
  isValidTopicName t = true ->
  environmentName st = Some e -> truthyStr e = true ->
  getQualifiedTopicName t st = (Success (e ++ "_" ++ ToString t), st).
Proof.
  intros Hv He Ht. unfold getQualifiedTopicName. rewrite Hv. simpl.
  unfold bind. now rewrite (getEnvironmentName_set st e He Ht).
Qed.

(** *** Subscribing *)

Lemma subscribeQueueToTopic_success t m q st sub st1 :
  subscribeQueueToTopic pageBudget t m q st = (Success sub, st1) ->
  isValidTopicName t = true /\ isValidQueueName q = true /\
  truthy (cacheGet (cachedTopicArns st1) (ToString t)) = true.
Proof.
  unfold subscribeQueueToTopic.
  destruct (isValidTopicName t); simpl; [|discriminate].
  destruct (isValidQueueName q); simpl; [|discriminate].
  intros H. apply bind_success in H as ([ta qa] & s2 & Hres & H).
  repeat split.
  assert (Hta : exists s1, truthy (cacheGet (cachedTopicArns s1) (ToString t)) = true
                           /\ evolves createsNoQueue s1 s2).
  { unfold resolveArns, async_parallel, queuedGetTopicArn in Hres.
    set (second := if m then getQueueArn (JStr MULTIPLE_TOPICS) q
                   else getQueueArn t q) in *.
    assert (Hsec : respects createsNoQueue second).
    { unfold second. destruct m; apply respects_reads, respects_getQueueArn. }
    destruct (getTopicArn pageBudget t st) as [[a|?|?|] s1] eqn:E1.
    - exists s1. apply getTopicArn_success in E1 as (_ & -> & Ht).
      split; [exact Ht|].
      specialize (Hsec s1). unfold bind in Hres.
      destruct (second s1) as [[b|?|?|] s2'] eqn:E2; try discriminate.
      inversion Hres; subst. exact Hsec.
    - destruct (second s1) as [[?|?|?|] ?]; discriminate.
    - discriminate.
    - discriminate. }
  destruct Hta as (s1 & Ht & Hev).
  eapply (evolves_cached createsNoQueue s2 st1).
  - apply bind_success in H as (found & s3 & Hchk & H).
    cbn [fst snd] in *.
    pose proof (respects_reads _
                  (respects_checkQueueAlreadySubscribed ta qa) s2) as H23.
    rewrite Hchk in H23. simpl in H23.
    eapply evolves_trans; [exact H23|].
    destruct found as [existing|].
    + inversion H; subst. apply evolves_refl.
    + assert (Hr : respects createsNoQueue
                     (getClients ;;; call (SnsSubscribe "sqs" ta qa))).
      { respects_auto. }
      specialize (Hr s3). simpl in H. rewrite H in Hr. exact Hr.
  - eapply evolves_cached; eauto.
Qed.

(** After a call of [subscribeQueueToTopic] that succeeded, a second
    call with the same topic name, flag and queue name resolves the topic
    from the cache; when the queue ARN is resolved again and the page of
    subscriptions that the provider returns for the topic has a
    subscription whose endpoint is that queue ARN, the call returns the
    first such subscription as it is listed and sends no [sns.subscribe]:
    every request it sends is a read. *)
Theorem subscribeQueueToTopic_again_returns_the_subscription
    t m q st sub1 st1 qa st2 data st3 existing :
  subscribeQueueToTopic pageBudget t m q st = (Success sub1, st1) ->
  (if m then getQueueArn (JStr MULTIPLE_TOPICS) q else getQueueArn t q) st1
  = (Success qa, st2) ->
  getSubscriptionsForTopic (cacheGet (cachedTopicArns st1) (ToString t)) st2
  = (Success data, st3) ->
  find (fun sub => bool_decide (qa = Endpoint sub)) (Subscriptions data)
  = Some existing ->
  subscribeQueueToTopic pageBudget t m q st1 = (Success existing, st3) /\
  Endpoint existing = qa /\
  In existing (Subscriptions data) /\
  countCalls isSubscribe (calls st3) = countCalls isSubscribe (calls st1).
Proof.
  intros H1 H2 H3 H4.
  apply subscribeQueueToTopic_success in H1 as (Hvt & Hvq & Hc).
  apply find_some in H4 as Hfound. destruct Hfound as [Hin Heq].
  apply bool_decide_eq_true in Heq.
  repeat split; auto.
  - unfold subscribeQueueToTopic. rewrite Hvt, Hvq. simpl.
    unfold bind at 1. unfold resolveArns, async_parallel, queuedGetTopicArn.
    rewrite (getTopicArn_hit pageBudget t st1 Hvt Hc).
    unfold bind at 1. rewrite H2. simpl.
    unfold checkQueueAlreadySubscribed, bind. rewrite H3. simpl.
    now rewrite H4.
  - transitivity (countCalls isSubscribe (calls st2)).
    + apply evolves_reads_count; [apply read_is_no_subscribe|].
      pose proof (respects_getSubscriptionsForTopic
                    (cacheGet (cachedTopicArns st1) (ToString t)) st2) as H.
      now rewrite H3 in H.
    + apply evolves_reads_count; [apply read_is_no_subscribe|].
      assert (H : respects reads
                    (if m then getQueueArn (JStr MULTIPLE_TOPICS) q
                     else getQueueArn t q)).
      { destruct m; apply respects_getQueueArn. }
      specialize (H st1). now rewrite H2 in H.
Qed.

(** The other branch: when the page has no subscription with that
    endpoint, whether or not it names a next page, the call goes on to
    [sns.subscribe]. *)
Lemma subscribeQueueToTopic_subscribes_when_not_listed
    t m q st ta qa st2 data st3 :
  isValidTopicName t = true -> isValidQueueName q = true ->
  resolveArns pageBudget t m q st = (Success (ta, qa), st2) ->
  getSubscriptionsForTopic ta st2 = (Success data, st3) ->
  find (fun sub => bool_decide (qa = Endpoint sub)) (Subscriptions data)
  = None ->
  subscribeQueueToTopic pageBudget t m q st
  = (getClients ;;; call (SnsSubscribe "sqs" ta qa)) st3.
Proof.
  intros Hvt Hvq H1 H2 H3.
  unfold subscribeQueueToTopic. rewrite Hvt, Hvq. simpl.
  unfold bind at 1. rewrite H1. simpl.
  unfold checkQueueAlreadySubscribed. unfold bind at 1. unfold bind at 1.
  rewrite H2. simpl. now rewrite H3.
Qed.

(** *** Adding a statement to a topic policy *)

Lemma addToTopicPolicy_success t s st p1 st1 :
  truthy t = true -> truthy s = true ->
  addToTopicPolicy pageBudget t s st = (Success p1, st1) ->
  isValidTopicName t = true /\
  (exists e, environmentName st1 = Some e /\ truthyStr e = true) /\
  truthy (cacheGet (cachedTopicArns st1) (ToString t)) = true.
Proof.
  intros Ht Hs. unfold addToTopicPolicy. rewrite Ht, Hs. simpl.
  intros H.
  apply bind_success in H as (n & sA & Hq & H).
  apply bind_success in H as (ta & sB & Ha & H).
  apply bind_success in H as (p & sC & Hp & H).
  apply getQualifiedTopicName_success in Hq as (Hv & e & He & Hte & _).
  pose proof (respects_getTopicArn pageBudget t sA) as HAB.
  rewrite Ha in HAB. simpl in HAB.
  pose proof (respects_getCurrentTopicPolicy ta sB) as HBC.
  rewrite Hp in HBC. simpl in HBC.
  pose proof (respects_updateCurrentPolicy ta p s sC) as HC1.
  rewrite H in HC1. simpl in HC1.
  apply getTopicArn_success in Ha as (_ & -> & Hc).
  split; [exact Hv|]. split.
  - exists e. split; [|exact Hte].
    eapply evolves_environmentName; [exact HC1| |exact Hte].
    eapply evolves_environmentName; [exact HBC| |exact Hte].
    eapply evolves_environmentName; [exact HAB| |exact Hte]. exact He.
  - eapply evolves_cached; [exact HC1|].
    eapply evolves_cached; [exact HBC|]. exact Hc.
Qed.

(** What a call leaves: a policy that has the statement is returned as it
    is, a policy without it comes back with one copy, appended. *)
Lemma sameJSON_refl s : sameJSON s s = true.
Proof. unfold sameJSON. now apply bool_decide_eq_true. Qed.

Lemma getProperty_setProperty key v props :
  getProperty key (setProperty key v props) = v.
Proof.
  induction props as [|[k old] rest IH]; simpl.
  - now rewrite String.eqb_refl.
  - destruct (String.eqb k key) eqn:E; simpl; now rewrite E.
Qed.

Lemma updateCurrentPolicy_present arn p s st :
  ld_some (ld_get1 p "Statement") (fun current => sameJSON current s) = true ->
  updateCurrentPolicy arn p s st = (Success p, st).
Proof. intros H. unfold updateCurrentPolicy. now rewrite H. Qed.

Lemma updateCurrentPolicy_appends arn p s st p' st' :
  ld_some (ld_get1 p "Statement") (fun current => sameJSON current s) = false ->
  updateCurrentPolicy arn p s st = (Success p', st') ->
  exists statements,
    ld_get1 p "Statement" = JArr statements /\
    ld_get1 p' "Statement" = JArr (statements ++ [s])%list /\
    copies s p' = 1%nat.
Proof.
  intros Hnone. unfold updateCurrentPolicy. rewrite Hnone.
  destruct (ld_get1 p "Statement") as [| | | | |statements| |] eqn:Hst;
    try discriminate.
  destruct p as [| | | | | |props|]; try discriminate.
  intros H. apply bind_success in H as (? & s1 & _ & H).
  apply bind_success in H as (? & s2 & _ & H).
  inversion H; subst. exists statements.
  assert (Hget : ld_get1
                   (JObj (setProperty "Statement"
                            (JArr (statements ++ [s])%list) props)) "Statement"
                 = JArr (statements ++ [s])%list).
  { simpl. apply getProperty_setProperty. }
  repeat split; [exact Hget|].
  unfold copies. rewrite Hget. simpl.
  rewrite filter_app, length_app.
  simpl in Hnone.
  assert (Hold : filter (fun current => sameJSON current s = true) statements
                 = []).
  { clear -Hnone. induction statements as [|c rest IH]; [reflexivity|].
    simpl in Hnone. apply orb_false_iff in Hnone as [Hc Hrest].
    rewrite filter_cons_False by (rewrite Hc; discriminate). now apply IH. }
  rewrite Hold. rewrite filter_cons_True by apply sameJSON_refl. reflexivity.
Qed.

(** The policy that a successful [addToTopicPolicy] returns has the
    statement. *)
Lemma addToTopicPolicy_has_the_statement t s st p1 st1 :
  truthy t = true -> truthy s = true ->
  addToTopicPolicy pageBudget t s st = (Success p1, st1) ->
  ld_some (ld_get1 p1 "Statement") (fun current => sameJSON current s) = true.
Proof.
  intros Ht Hs. unfold addToTopicPolicy. rewrite Ht, Hs. simpl.
  intros H.
  apply bind_success in H as (n & sA & _ & H).
  apply bind_success in H as (ta & sB & _ & H).
  apply bind_success in H as (p & sC & _ & H).
  destruct (ld_some (ld_get1 p "Statement")
              (fun current => sameJSON current s)) eqn:Hsome.
  - rewrite (updateCurrentPolicy_present ta p s sC Hsome) in H.
    inversion H; subst. exact Hsome.
  - apply updateCurrentPolicy_appends in H
      as (statements & _ & Hget & _); [|exact Hsome].
    rewrite Hget. simpl. rewrite existsb_app. simpl.
    rewrite sameJSON_refl. now rewrite orb_true_r.
Qed.

(** The policy that a successful [addToTopicPolicy] returns has the
    statement.  A second call with the same topic and statement resolves
    the qualified name and the ARN without any request; when the policy
    that the provider then returns has a statement with the same JSON
    text, as the policy of the first call has, the call returns that
    policy as it read it and sends no [sns.setTopicAttributes]. *)
Theorem addToTopicPolicy_again_leaves_the_policy t s st p1 st1 :
  truthy t = true -> truthy s = true ->
  addToTopicPolicy pageBudget t s st = (Success p1, st1) ->
  ld_some (ld_get1 p1 "Statement") (fun current => sameJSON current s) = true /\
  forall p2 st2,
    getCurrentTopicPolicy (cacheGet (cachedTopicArns st1) (ToString t)) st1
    = (Success p2, st2) ->
    ld_some (ld_get1 p2 "Statement") (fun current => sameJSON current s)
    = true ->
    addToTopicPolicy pageBudget t s st1 = (Success p2, st2) /\
    countCalls isSetTopicAttributes (calls st2)
    = countCalls isSetTopicAttributes (calls st1).
Proof.
  intros Ht Hs H1.
  split; [exact (addToTopicPolicy_has_the_statement t s st p1 st1 Ht Hs H1)|].
  intros p2 st2 H2 H3.
  apply addToTopicPolicy_success in H1 as (Hv & (e & He & Hte) & Hc);
    try assumption.
  split.
  - unfold addToTopicPolicy. rewrite Ht, Hs. simpl.
    unfold bind at 1. rewrite (getQualifiedTopicName_set t st1 e Hv He Hte).
    unfold bind at 1. rewrite (getTopicArn_hit pageBudget t st1 Hv Hc).
    unfold bind at 1. rewrite H2.
    unfold updateCurrentPolicy. now rewrite H3.
  - apply evolves_reads_count; [apply read_is_no_setTopicAttributes|].
    pose proof (respects_getCurrentTopicPolicy
                  (cacheGet (cachedTopicArns st1) (ToString t)) st1) as H.
    now rewrite H2 in H.
Qed.

End Idempotence.

(** ** The queue of a subscription *)

Section QueueOfASubscription.

Context {W : Type} {provider : Provider W}.
Variable pageBudget : nat.

Implicit Types (st : State W) (P : LoggedRequest -> Prop).

Lemma string_append_assoc (a b c : string) : (a ++ b) ++ c = a ++ b ++ c.
Proof.
  induction a as [|x a IH]; [reflexivity|].
  change (String x ((a ++ b) ++ c) = String x (a ++ b ++ c)). now f_equal.
Qed.

Lemma outcome_evolves {A} P (m : M W A) st o st' :
  respects P m -> m st = (o, st') -> evolves P st st'.
Proof. intros H E. specialize (H st). now rewrite E in H. Qed.

Lemma evolves_serviceName P st st' s :
  evolves P st st' -> serviceName st = Some s -> truthyStr s = true ->
  (String.length s <= 24)%nat -> serviceName st' = Some s.
Proof. intros (_ & _ & H & _) Hs Ht Hl. now apply H. Qed.

Lemma evolves_log P st st' :
  evolves P st st' -> exists l, calls st' = (calls st ++ l)%list /\ Forall P l.
Proof. intros (_ & _ & _ & _ & H). exact H. Qed.

Lemma createsNoQueue_createsOnly allowed r :
  createsNoQueue r -> createsOnly allowed r.
Proof. destruct r as [A [] ?]; simpl; auto; contradiction. Qed.

Lemma reads_createsOnly allowed r : reads r -> createsOnly allowed r.
Proof. intros H. now apply createsNoQueue_createsOnly, reads_createsNoQueue. Qed.

(** *** The service name, once read *)

Lemma configuredServiceName_truthy st :
  truthyStr (configuredServiceName st) = true.
Proof.
  unfold configuredServiceName.
  assert (H : truthyStr (orElse (SERVICE_NAME (processEnv st))
                           "SERVICE_NAME_UNKNOWN") = true).
  { destruct (SERVICE_NAME (processEnv st)) as [v|]; simpl; [|reflexivity].
    destruct (truthyStr v) eqn:E; [exact E|reflexivity]. }
  destruct (serviceName st) as [s|]; [|exact H].
  destruct (truthyStr s) eqn:E; [exact E|exact H].
Qed.

Lemma getServiceName_settled st :
  let s := fst (getServiceName st) in
  serviceName (snd (getServiceName st)) = Some s /\
  truthyStr s = true /\ (String.length s <= 24)%nat.
Proof.
  cbv zeta. split; [reflexivity|]. split; [|apply getServiceName_at_most_24].
  unfold getServiceName. fold (configuredServiceName st). simpl.
  pose proof (configuredServiceName_truthy st) as Ht.
  destruct (24 <? _)%nat eqn:E; [|exact Ht].
  destruct (configuredServiceName st) as [|c r]; [discriminate|reflexivity].
Qed.

Lemma getServiceName_variables st :
  environmentName (snd (getServiceName st)) = environmentName st /\
  calls (snd (getServiceName st)) = calls st.
Proof. split; reflexivity. Qed.

Lemma getQualifiedQueueName_success t q st n st' :
  getQualifiedQueueName t q st = (Success n, st') ->
  exists e s,
    environmentName st' = Some e /\ truthyStr e = true /\
    serviceName st' = Some s /\ truthyStr s = true /\
    (String.length s <= 24)%nat /\
    n = qualifiedQueueName e t s q.
Proof.
  unfold getQualifiedQueueName.
  destruct (isValidTopicName t); cbn [negb]; [|discriminate].
  destruct (isValidQueueName q); cbn [negb]; [|discriminate].
  intros H. apply bind_success in H as (tName & s1 & Hq & H).
  apply getQualifiedTopicName_success in Hq as (_ & e & He & Hte & ->).
  pose proof (getServiceName_settled s1) as (Hs & Hts & Hl).
  pose proof (getServiceName_variables s1) as (Henv & _).
  cbv beta in H.
  destruct (getServiceName s1) as [sName s2]. cbn [fst snd] in *.
  inversion H; subst. exists e, sName.
  repeat split; auto; try congruence.
  unfold qualifiedQueueName. now rewrite !string_append_assoc.
Qed.

(** With both names settled, a qualified name is the same each time. *)
Lemma getQualifiedQueueName_settled t q st n st' e s :
  getQualifiedQueueName t q st = (Success n, st') ->
  environmentName st = Some e -> truthyStr e = true ->
  serviceName st = Some s -> truthyStr s = true ->
  (String.length s <= 24)%nat ->
  n = qualifiedQueueName e t s q.
Proof.
  intros H He Hte Hs Hts Hl.
  pose proof (outcome_evolves reads _ _ _ _
                (respects_getQualifiedQueueName t q) H) as Hev.
  apply getQualifiedQueueName_success in H
    as (e' & s' & He' & _ & Hs' & _ & _ & ->).
  rewrite (evolves_environmentName _ _ _ _ Hev He Hte) in He'.
  rewrite (evolves_serviceName _ _ _ _ Hev Hs Hts Hl) in Hs'.
  congruence.
Qed.

Lemma callingBack_success {A} cb (m : M W A) st a st' :
  callingBack cb m st = (Success a, st') -> m st = (Success a, st').
Proof.
  unfold callingBack. destruct (m st) as [[?|?|?|] ?];
    try destruct (isFunction cb); intros H; inversion H; subst; reflexivity.
Qed.

Lemma respects_queuePolicyText P arn :
  respects P (queuePolicyText (W:=W) arn).
Proof. unfold queuePolicyText. respects_auto. Qed.

Lemma call_log {A} (r : Request A) st o st' :
  call r st = (o, st') ->
  calls st' = (calls st ++ [Logged r (fst (respond r (world st)))])%list.
Proof.
  intros H. pose proof (call_state r st) as [_ Hl]. now rewrite H in Hl.
Qed.

(** The log of a successful [createDeadLetterQueue]. *)
Lemma createDeadLetterQueue_success st arn st' e s :
  createDeadLetterQueue st = (Success arn, st') ->
  environmentName st = Some e -> truthyStr e = true ->
  serviceName st = Some s -> truthyStr s = true ->
  (String.length s <= 24)%nat ->
  evolves
    (createsOnly [qualifiedQueueName e (JStr DLQ_TOPIC_NAME) s
                    (JStr DLQ_QUEUE_NAME)]) st st'.
Proof.
  intros H He Hte Hs Hts Hl. unfold createDeadLetterQueue in H.
  set (dlq := qualifiedQueueName e (JStr DLQ_TOPIC_NAME) s (JStr DLQ_QUEUE_NAME)).
  apply bind_success in H as (n & s1 & H1 & H).
  apply bind_success in H as ([] & s2 & H2 & H).
  apply bind_success in H as (url & s3 & H3 & H).
  pose proof (getQualifiedQueueName_settled _ _ _ _ _ _ _ H1 He Hte Hs Hts Hl)
    as Hn.
  fold dlq in Hn. subst n.
  eapply evolves_trans.
  { eapply evolves_weaken; [apply (reads_createsOnly [dlq])|].
    eapply outcome_evolves; [apply respects_getQualifiedQueueName|exact H1]. }
  eapply evolves_trans.
  { eapply outcome_evolves; [|exact H2]. apply respects_getClients. intros ?. exact I. }
  eapply evolves_trans.
  { eapply outcome_evolves; [|exact H3]. apply respects_call. intros ?. simpl. auto. }
  eapply outcome_evolves; [|exact H].
  respects_steps.
  - eapply respects_weaken; [apply (reads_createsOnly [dlq])|].
    apply respects_getQueueArn.
  - apply respects_queuePolicyText.
Qed.

(** The log of a successful [createQueue]: the queue is created under
    the name that the topic name qualifies, and besides it only the
    dead-letter queue. *)
Lemma createQueue_success t q cb st arn st' :
  createQueue t q cb st = (Success arn, st') ->
  exists e s l attributes answer,
    environmentName st' = Some e /\ truthyStr e = true /\
    serviceName st' = Some s /\ truthyStr s = true /\
    (String.length s <= 24)%nat /\
    calls st' = (calls st ++ l)%list /\
    In (Logged (SqsCreateQueue (qualifiedQueueName e t s q) attributes)
          answer) l /\
    Forall (createsOnly
              [ qualifiedQueueName e t s q;
                qualifiedQueueName e (JStr DLQ_TOPIC_NAME) s
                  (JStr DLQ_QUEUE_NAME) ]) l.
Proof.
  intros H. apply callingBack_success in H.
  destruct (isValidTopicName t); simpl in H; [|discriminate].
  destruct (isValidQueueName q); simpl in H; [|discriminate].
  apply bind_success in H as (n & s1 & H1 & H).
  apply bind_success in H as ([] & s2 & H2 & H).
  apply bind_success in H as (url & s3 & H3 & H).
  apply bind_success in H as (queueArn & s4 & H4 & H).
  apply bind_success in H as (dlqArn & s5 & H5 & H).
  pose proof H1 as H1'.
  apply getQualifiedQueueName_success in H1'
    as (e & s & He & Hte & Hs & Hts & Hl & ->).
  set (queue := qualifiedQueueName e t s q) in *.
  set (dlq := qualifiedQueueName e (JStr DLQ_TOPIC_NAME) s (JStr DLQ_QUEUE_NAME)).
  set (P := createsOnly [queue; dlq]).
  assert (E01 : evolves P st s1).
  { eapply evolves_weaken; [apply (reads_createsOnly [queue; dlq])|].
    eapply outcome_evolves; [apply respects_getQualifiedQueueName|exact H1]. }
  assert (E12 : evolves P s1 s2).
  { eapply outcome_evolves; [|exact H2]. apply respects_getClients. intros ?. exact I. }
  assert (E23 : evolves P s2 s3).
  { eapply outcome_evolves; [|exact H3]. apply respects_call. intros ?. simpl. auto. }
  assert (E34 : evolves P s3 s4).
  { eapply evolves_weaken; [apply (reads_createsOnly [queue; dlq])|].
    eapply outcome_evolves; [apply respects_getQueueArn|exact H4]. }
  assert (He4 : environmentName s4 = Some e).
  { eapply evolves_environmentName; [exact E34| |exact Hte].
    eapply evolves_environmentName; [exact E23| |exact Hte].
    eapply evolves_environmentName; [exact E12| |exact Hte]. exact He. }
  assert (Hs4 : serviceName s4 = Some s).
  { eapply evolves_serviceName; [exact E34| |exact Hts|exact Hl].
    eapply evolves_serviceName; [exact E23| |exact Hts|exact Hl].
    eapply evolves_serviceName; [exact E12| |exact Hts|exact Hl]. exact Hs. }
  assert (E45 : evolves P s4 s5).
  { eapply evolves_weaken;
      [|exact (createDeadLetterQueue_success _ _ _ _ _ H5 He4 Hte Hs4 Hts Hl)].
    intros [A [] ?]; simpl; tauto. }
  assert (E5' : evolves P s5 st').
  { eapply outcome_evolves; [|exact H].
    respects_steps. apply respects_queuePolicyText. }
  exists e, s.
  apply call_log in H3 as L3.
  destruct (evolves_log _ _ _ E01) as (l1 & L1 & F1).
  destruct (evolves_log _ _ _ E12) as (l2 & L2 & F2).
  destruct (evolves_log _ _ _ E34) as (l4 & L4 & F4).
  destruct (evolves_log _ _ _ E45) as (l5 & L5 & F5).
  destruct (evolves_log _ _ _ E5') as (l6 & L6 & F6).
  match type of L3 with
  | _ = (_ ++ [?entry])%list =>
      exists (l1 ++ l2 ++ [entry] ++ l4 ++ l5 ++ l6)%list
  end.
  do 2 eexists.
  assert (E3' : evolves P s3 st').
  { eapply evolves_trans; [exact E34|].
    eapply evolves_trans; [exact E45|exact E5']. }
  assert (E1' : evolves P s1 st').
  { eapply evolves_trans; [exact E12|].
    eapply evolves_trans; [exact E23|exact E3']. }
  split; [eapply evolves_environmentName; [exact E1'|exact He|exact Hte]|].
  split; [exact Hte|].
  split; [eapply evolves_serviceName; [exact E1'|exact Hs|exact Hts|exact Hl]|].
  split; [exact Hts|]. split; [exact Hl|].
  split; [|split].
  - rewrite L6, L5, L4, L3, L2, L1. now rewrite <- !app_assoc.
  - apply in_or_app. right. apply in_or_app. right. left. reflexivity.
  - repeat (apply Forall_app; split); try assumption.
    constructor; [|constructor]. simpl. auto.
Qed.

Lemma getTopicName_several (names : list JsValue) :
  (1 < length names)%nat -> getTopicName names = JStr MULTIPLE_TOPICS.
Proof. destruct names as [|a [|b rest]]; simpl; intros H; try lia. reflexivity. Qed.

Lemma getTopicName_single (name : JsValue) : getTopicName [name] = name.
Proof. reflexivity. Qed.

(** C9: when [createSubscription] succeeds for a descriptor with the
    topic names [names], it has asked for the queue under the name
    qualified by [getTopicName names], which is the sentinel
    [multipleTopics] for more than one name and the name itself for
    exactly one; the only other queue it has asked for is the dead-letter
    queue. *)
Theorem createSubscription_qualifies_the_queue names q f st st' :
  createSubscription pageBudget (mkSubscriptionRequest (JArr names) q f) st
  = (Success tt, st') ->
  exists e s l attributes answer,
    environmentName st' = Some e /\ serviceName st' = Some s /\
    calls st' = (calls st ++ l)%list /\
    In (Logged (SqsCreateQueue
                  (qualifiedQueueName e (getTopicName names) s q) attributes)
          answer) l /\
    Forall (createsOnly
              [ qualifiedQueueName e (getTopicName names) s q;
                qualifiedQueueName e (JStr DLQ_TOPIC_NAME) s
                  (JStr DLQ_QUEUE_NAME) ]) l /\
    ((1 < length names)%nat -> getTopicName names = JStr MULTIPLE_TOPICS) /\
    (forall name, names = [name] -> getTopicName names = name).
Proof.
  intros H. unfold createSubscription in H. simpl in H.
  apply bind_success in H as (created & s1 & H1 & H).
  apply bind_success in H as (queueArn & s2 & H2 & H).
  apply bind_success in H as ([] & s3 & H3 & H).
  apply createQueue_success in H2
    as (e & s & l2 & attributes & answer & He & Hte & Hs & Hts & Hl & L2
        & Hin & F2).
  set (P := createsOnly
              [ qualifiedQueueName e (getTopicName names) s q;
                qualifiedQueueName e (JStr DLQ_TOPIC_NAME) s
                  (JStr DLQ_QUEUE_NAME) ]) in *.
  assert (E01 : evolves P st s1).
  { eapply evolves_weaken; [apply createsNoQueue_createsOnly|].
    eapply outcome_evolves; [apply respects_createTopics|exact H1]. }
  assert (E23 : evolves P s2 s3).
  { eapply evolves_weaken; [apply createsNoQueue_createsOnly|].
    eapply outcome_evolves; [apply respects_subscribeQueueToTopics|exact H3]. }
  assert (E3' : evolves P s3 st').
  { eapply evolves_weaken; [apply createsNoQueue_createsOnly|].
    destruct (truthy f).
    - eapply outcome_evolves; [apply respects_setFilterForSubscriptions|exact H].
    - inversion H; subst. apply evolves_refl. }
  assert (E2' : evolves P s2 st') by (eapply evolves_trans; eauto).
  destruct (evolves_log _ _ _ E01) as (l1 & L1 & F1).
  destruct (evolves_log _ _ _ E2') as (l3 & L3 & F3).
  exists e, s, (l1 ++ l2 ++ l3)%list, attributes, answer.
  split; [eapply evolves_environmentName; eauto|].
  split; [eapply evolves_serviceName; eauto|].
  split; [rewrite L3, L2, L1; now rewrite <- !app_assoc|].
  split; [apply in_or_app; right; apply in_or_app; now left|].
  split; [repeat (apply Forall_app; split); assumption|].
  split; [apply getTopicName_several|].
  intros name ->. reflexivity.
Qed.

End QueueOfASubscription.

Lemma createSubscription_qualifies_the_queue_witness :
  let st0 := initialState Cloud.devEnvironment Cloud.emptyWorld in
  let request :=
    mkSubscriptionRequest (JArr [JStr "orders"; JStr "invoices"])
      (JStr "ledger") (JObj [("status", JStr "paid")]) in
  exists e s l attributes answer,
    environmentName (snd (createSubscription 1 request st0)) = Some e /\
    serviceName (snd (createSubscription 1 request st0)) = Some s /\
    calls (snd (createSubscription 1 request st0)) = (calls st0 ++ l)%list /\
    In (Logged (SqsCreateQueue
                  (qualifiedQueueName e
                     (getTopicName [JStr "orders"; JStr "invoices"]) s
                     (JStr "ledger")) attributes) answer) l /\
    Forall (createsOnly
              [ qualifiedQueueName e
                  (getTopicName [JStr "orders"; JStr "invoices"]) s
                  (JStr "ledger");
                qualifiedQueueName e (JStr DLQ_TOPIC_NAME) s
                  (JStr DLQ_QUEUE_NAME) ]) l /\
    ((1 < length [JStr "orders"; JStr "invoices"])%nat ->
     getTopicName [JStr "orders"; JStr "invoices"] = JStr MULTIPLE_TOPICS) /\
    (forall name, [JStr "orders"; JStr "invoices"] = [name] ->
                  getTopicName [JStr "orders"; JStr "invoices"] = name).
Proof.
  cbv zeta.
  apply (createSubscription_qualifies_the_queue 1
           [JStr "orders"; JStr "invoices"] (JStr "ledger")
           (JObj [("status", JStr "paid")])
           (initialState Cloud.devEnvironment Cloud.emptyWorld)).
  vm_compute. reflexivity.
Defined.

(** ** Witnesses of the two idempotence theorems *)

Lemma subscribeQueueToTopic_again_returns_the_subscription_witness :
  let st1 :=
    snd (subscribeQueueToTopic 1 (JStr "orders") false (JStr "ledger")
           Example.provisioned) in
  let st2 := snd (getQueueArn (JStr "orders") (JStr "ledger") st1) in
  let st3 := snd (getSubscriptionsForTopic (JStr Example.ordersArn) st2) in
  subscribeQueueToTopic 1 (JStr "orders") false (JStr "ledger") st1
  = (Success Example.ledgerSubscription, st3) /\
  Endpoint Example.ledgerSubscription = Some Example.ledgerArn /\
  In Example.ledgerSubscription
    (Subscriptions (mkListSubscriptions [Example.ledgerSubscription] None)) /\
  countCalls isSubscribe (calls st3) = countCalls isSubscribe (calls st1).
Proof.
  cbv zeta.
  eapply (subscribeQueueToTopic_again_returns_the_subscription 1
            (JStr "orders") false (JStr "ledger") Example.provisioned).
  - vm_compute. reflexivity.
  - vm_compute. reflexivity.
  - vm_compute. reflexivity.
  - vm_compute. reflexivity.
Defined.

Lemma addToTopicPolicy_again_leaves_the_policy_witness :
  let st0 :=
    snd (createTopics (JArr [JStr "orders"])
           (initialState Cloud.devEnvironment Cloud.emptyWorld)) in
  let st1 := snd (addToTopicPolicy 1 (JStr "orders") Example.allowPublish st0) in
  let st2 := snd (getCurrentTopicPolicy (JStr Example.ordersArn) st1) in
  ld_some (ld_get1 Example.policyWithAllowPublish "Statement")
    (fun current => sameJSON current Example.allowPublish) = true /\
  addToTopicPolicy 1 (JStr "orders") Example.allowPublish st1
  = (Success Example.policyWithAllowPublish, st2) /\
  countCalls isSetTopicAttributes (calls st2)
  = countCalls isSetTopicAttributes (calls st1).
Proof.
  cbv zeta.
  destruct (addToTopicPolicy_again_leaves_the_policy 1 (JStr "orders")
              Example.allowPublish
              (snd (createTopics (JArr [JStr "orders"])
                      (initialState Cloud.devEnvironment Cloud.emptyWorld)))
              Example.policyWithAllowPublish
              (snd (addToTopicPolicy 1 (JStr "orders") Example.allowPublish
                      (snd (createTopics (JArr [JStr "orders"])
                              (initialState Cloud.devEnvironment
                                 Cloud.emptyWorld)))))
              eq_refl eq_refl)
    as [Hhas Hagain].
  - vm_compute. reflexivity.
  - split; [exact Hhas|].
    apply Hagain.
    + vm_compute. reflexivity.
    + vm_compute. reflexivity.
Defined.

(** C3: the code subscribes the queue a second time.
    [checkQueueAlreadySubscribed] is to tell whether the queue is
    subscribed to the topic already (lines 1356-1364, 1389-1398), but
    [getSubscriptionsForTopic] reads one page of the subscriptions and
    never asks for the next one (lines 1331-1352; [getAllTopics] does
    follow the token of its listing, lines 684-709).  On a topic that has a full page of
    other subscriptions, the subscription that the first call makes is
    on the second page: the second call does not find it, sends
    [sns.subscribe] again and returns another subscription, and the queue
    is subscribed twice. *)
Lemma subscribeQueueToTopic_again_subscribes_past_the_first_page :
  let first :=
    subscribeQueueToTopic 1 (JStr "orders") false (JStr "ledger")
      Example.crowded in
  let second :=
    subscribeQueueToTopic 1 (JStr "orders") false (JStr "ledger")
      (snd first) in
  length (Example.subscriptionsOf Example.ledgerArn
            (world Example.crowded)) = 0%nat /\
  fst first
  = Success (mkSubscription (Some (Example.ordersArn ++ ":100"))
               (Some Example.ledgerArn) (Some "sqs")
               (Some Example.ordersArn)) /\
  length (Example.subscriptionsOf Example.ledgerArn (world (snd first)))
  = 1%nat /\
  fst second
  = Success (mkSubscription (Some (Example.ordersArn ++ ":101"))
               (Some Example.ledgerArn) (Some "sqs")
               (Some Example.ordersArn)) /\
  countCalls isSubscribe (calls (snd second))
  = S (countCalls isSubscribe (calls (snd first))) /\
  length (Example.subscriptionsOf Example.ledgerArn (world (snd second)))
  = 2%nat.
Proof. cbv zeta. repeat split; vm_compute; reflexivity. Qed.

(** The first call of the witness wrote the statement once. *)
Lemma addToTopicPolicy_example_writes_once :
  let st0 :=
    snd (createTopics (JArr [JStr "orders"])
           (initialState Cloud.devEnvironment Cloud.emptyWorld)) in
  let st1 := snd (addToTopicPolicy 1 (JStr "orders") Example.allowPublish st0) in
  let st2 := snd (addToTopicPolicy 1 (JStr "orders") Example.allowPublish st1) in
  countCalls isSetTopicAttributes (calls st0) = 0%nat /\
  countCalls isSetTopicAttributes (calls st1) = 1%nat /\
  countCalls isSetTopicAttributes (calls st2) = 1%nat /\
  copies Example.allowPublish Example.policyWithAllowPublish = 1%nat.
Proof. cbv zeta. repeat split; vm_compute; reflexivity. Qed.

(** ** The ARN queue *)

Section QueueDiscipline.

Import ArnQueue.

Lemma startLookup_answered name worker l l' :
  startLookup name worker l = (l', true) ->
  envName l' = envName l /\ cache l' = cache l /\ tasks l' = tasks l /\
  running l' = running l /\ inFlight l' = inFlight l.
Proof.
  unfold startLookup.
  destruct (negb (isValidTopicName name)).
  - intros H. inversion H; subst. simpl. auto.
  - destruct (truthy _); intros H; inversion H; subst. simpl. auto.
Qed.

Lemma startLookup_waiting name worker l l' :
  startLookup name worker l = (l', false) ->
  envName l' = envName l /\ cache l' = cache l /\ tasks l' = tasks l /\
  running l' = running l /\
  inFlight l' = (inFlight l ++ [mkLookup name worker])%list.
Proof.
  unfold startLookup.
  destruct (negb (isValidTopicName name)); [discriminate|].
  destruct (truthy _); [discriminate|].
  intros H. inversion H; subst. simpl. auto.
Qed.

Lemma process_discipline turns l :
  queueDiscipline l -> queueDiscipline (process turns l).
Proof.
  revert l. induction turns as [|turns IH]; intros l Hd; simpl; [exact Hd|].
  destruct (tasks l) as [|task waiting] eqn:Ht; [exact Hd|].
  destruct (running l <? concurrency)%nat eqn:Hr; [|exact Hd].
  apply Nat.ltb_lt in Hr. unfold concurrency in Hr.
  destruct Hd as (Hle & Hlen & Hall).
  assert (Hrun : running l = 0%nat) by lia.
  assert (Hnone : inFlight l = []).
  { destruct (inFlight l); [reflexivity|]. simpl in Hlen. lia. }
  destruct (startLookup task true _) as [l' answered] eqn:Hs.
  destruct answered.
  - apply startLookup_answered in Hs as (_ & _ & _ & Hr' & Hi'). simpl in *.
    apply IH. unfold queueDiscipline. simpl.
    rewrite Hi', Hnone, Hr', Hrun. simpl. unfold concurrency.
    repeat split; [lia|constructor].
  - apply startLookup_waiting in Hs as (_ & _ & _ & Hr' & Hi'). simpl in *.
    unfold queueDiscipline. rewrite Hi', Hnone, Hr', Hrun. simpl.
    unfold concurrency. repeat split; [lia|].
    constructor; [reflexivity|constructor].
Qed.

Lemma push_discipline name l : queueDiscipline l -> queueDiscipline (push name l).
Proof. intros Hd. unfold push. apply process_discipline. exact Hd. Qed.

Lemma arrive_discipline i listing l :
  queueDiscipline l -> queueDiscipline (arrive i listing l).
Proof.
  intros (Hle & Hlen & Hall). unfold arrive.
  destruct (inFlight l !! i) as [lookup|] eqn:Hi;
    [|repeat split; assumption].
  assert (Hw : byWorker lookup = true).
  { rewrite Forall_forall in Hall. apply Hall.
    eapply list_elem_of_lookup_2; eauto. }
  rewrite Hw. apply process_discipline.
  unfold queueDiscipline. simpl.
  assert (Hlt : (i < length (inFlight l))%nat)
    by (eapply lookup_lt_Some; eauto).
  unfold concurrency in *.
  assert (Hone : length (inFlight l) = 1%nat) by lia.
  destruct (inFlight l) as [|only [|more rest]] eqn:El; simpl in Hone;
    try discriminate.
  destruct i as [|i]; [|simpl in Hlt; lia].
  simpl. rewrite <- Hlen. simpl. repeat split; [lia|constructor].
Qed.

Lemma step_discipline l e :
  match e with
  | Calls op _ => resolvesThroughQueue op = true
  | ListingArrives _ _ => True
  end ->
  queueDiscipline l -> queueDiscipline (step l e).
Proof.
  destruct e as [op name|i listing]; simpl.
  - intros ->. apply push_discipline.
  - intros _. apply arrive_discipline.
Qed.

Lemma run_discipline events l :
  allThroughQueue events = true ->
  queueDiscipline l -> queueDiscipline (run events l).
Proof.
  revert l. induction events as [|e events IH]; intros l Hq Hd; simpl.
  - exact Hd.
  - simpl in Hq. apply andb_true_iff in Hq as [He Hq].
    apply IH; [exact Hq|]. apply step_discipline; [|exact Hd].
    destruct e; [exact He|exact I].
Qed.

Lemma idle_discipline env : queueDiscipline (idle env).
Proof. unfold queueDiscipline, idle, concurrency. simpl. repeat split; [lia|constructor]. Qed.

(** What the queue is for: when every operation asks through it, at
    most one lookup waits for a listing, whatever the order of events. *)
Lemma one_lookup_in_flight_through_the_queue env events :
  allThroughQueue events = true ->
  (length (inFlight (run events (idle env))) <= 1)%nat.
Proof.
  intros Hq.
  destruct (run_discipline events (idle env) Hq (idle_discipline env))
    as (Hle & Hlen & _).
  unfold concurrency in Hle. lia.
Qed.

(** C5, on the code: [addToTopicPolicy] calls [getTopicArn] itself (line
    1856), not [queuedGetTopicArn].  While the lookup of a publication
    waits for its listing, the lookup of [addToTopicPolicy] starts a
    second one: two lookups are in flight. *)
Theorem addToTopicPolicy_looks_up_beside_the_queue :
  resolvesThroughQueue AddToTopicPolicy = false /\
  inFlight
    (run [ Calls PublishMessageToTopic (JStr "orders");
           Calls AddToTopicPolicy (JStr "invoices") ] (idle "dev"))
  = [ mkLookup (JStr "orders") true; mkLookup (JStr "invoices") false ] /\
  length
    (inFlight
       (run [ Calls PublishMessageToTopic (JStr "orders");
              Calls AddToTopicPolicy (JStr "invoices") ] (idle "dev")))
  = 2%nat.
Proof. repeat split; vm_compute; reflexivity. Qed.

End QueueDiscipline.

Lemma one_lookup_in_flight_through_the_queue_example :
  (length
     (ArnQueue.inFlight
        (ArnQueue.run
           [ ArnQueue.Calls ArnQueue.PublishMessageToTopic (JStr "orders");
             ArnQueue.Calls ArnQueue.DeleteTopic (JStr "invoices");
             ArnQueue.ListingArrives 0
               (inr ["arn:aws:sns:us-east-1:000000000000:dev_orders"]) ]
           (ArnQueue.idle "dev"))) <= 1)%nat.
Proof.
  apply (one_lookup_in_flight_through_the_queue "dev"). reflexivity.
Defined.

(** ** What the batches of topics report *)

Section TopicBatches.

Context {W : Type} {provider : Provider W}.
Variable pageBudget : nat.

(** [async.map] in the model: a success has one result for each item, a
    failure is the error of one of the items. *)
Lemma async_map_outcome (coll : list JsValue)
    (iteratee : list JsValue -> M W JsValue) (st : State W) :
  match fst (async_map coll iteratee st) with
  | Success results => length results = length coll
  | Failure e =>
      exists item s s',
        In item coll /\ iteratee [item; asyncCallback] s = (Failure e, s')
  | _ => True
  end.
Proof.
  revert st. induction coll as [|item rest IH]; intros st; simpl.
  - reflexivity.
  - destruct (iteratee [item; asyncCallback] st) as [[v|e|e|] st1] eqn:E;
      simpl; try exact I.
    + unfold bind. specialize (IH st1).
      destruct (async_map rest iteratee st1) as [[vs|e|e|] st2]; simpl in *;
        try exact I.
      * now rewrite IH.
      * destruct IH as (i & s & s' & Hin & Hf).
        exists i, s, s'. split; [now right|exact Hf].
    + destruct (async_map rest iteratee st1) as [[vs|e'|e'|] st2]; simpl;
        try exact I; exists item, st, st1; (split; [now left|exact E]).
Qed.

(** An item in the first place that fails at once, before it has
    requested anything, decides: nothing can call back before it, and its
    error is the one reported, whatever the later items do, short of an
    exception. *)
Lemma async_map_fails_at_once (item : JsValue) (rest : list JsValue)
    (iteratee : list JsValue -> M W JsValue) (st : State W) e :
  iteratee [item; asyncCallback] st = (Failure e, st) ->
  match fst (async_map (item :: rest) iteratee st) with
  | Failure e' => e' = e
  | Uncaught _ => True
  | _ => False
  end.
Proof.
  intros H. simpl. rewrite H.
  destruct (async_map rest iteratee st) as [[?|?|?|] ?]; simpl; auto.
Qed.

(** [createTopics] and [deleteTopics] hand functions of two arguments to
    [async.map]: an invalid name in the first place fails the batch with
    the error of that name. *)
Lemma createTopics_invalid_first (item : JsValue) (rest : list JsValue)
    (st : State W) :
  isValidTopicName item = false ->
  match fst (createTopics (JArr (item :: rest)) st) with
  | Failure e => e = mkError ("topic name is invalid " ++ ToString item)
  | Uncaught _ => True
  | _ => False
  end.
Proof.
  intros Hv. unfold createTopics. simpl noArrayOfNames. cbn [arrayItems].
  eapply (async_map_fails_at_once item rest
            (fun args => createTopic (argument 0 args) (argument 1 args)) st).
  unfold argument. simpl nth. unfold createTopic, callingBack.
  rewrite Hv. reflexivity.
Qed.

Lemma deleteTopics_invalid_first (item : JsValue) (rest : list JsValue)
    (st : State W) :
  isValidTopicName item = false ->
  match fst (deleteTopics pageBudget (JArr (item :: rest)) st) with
  | Failure e => e = mkError ("topic name is invalid " ++ ToString item)
  | Uncaught _ => True
  | _ => False
  end.
Proof.
  intros Hv. unfold deleteTopics. simpl noArrayOfNames. cbn [arrayItems].
  eapply (async_map_fails_at_once item rest
            (fun args => deleteTopic pageBudget (argument 0 args)
                           (argument 1 args)) st).
  unfold argument. simpl nth. unfold deleteTopic, callingBack.
  rewrite Hv. reflexivity.
Qed.

End TopicBatches.

(** ** One call, at most one subscription *)

Section OneSubscription.

Context {W : Type} {provider : Provider W}.
Variable pageBudget : nat.

Lemma evolves_reads_subscribe (st st' : State W) :
  evolves reads st st' ->
  countCalls isSubscribe (calls st') = countCalls isSubscribe (calls st).
Proof. apply evolves_reads_count, read_is_no_subscribe. Qed.

(** Whatever its outcome, a call of [subscribeQueueToTopic] sends
    [sns.subscribe] at most once. *)
Lemma subscribeQueueToTopic_subscribes_at_most_once t m q (st : State W) :
  (countCalls isSubscribe
     (calls (snd (subscribeQueueToTopic pageBudget t m q st)))
   <= S (countCalls isSubscribe (calls st)))%nat.
Proof.
  unfold subscribeQueueToTopic.
  destruct (isValidTopicName t); simpl; [|lia].
  destruct (isValidQueueName q); simpl; [|lia].
  unfold bind at 1.
  assert (Hres : respects reads (resolveArns pageBudget t m q)).
  { unfold resolveArns, queuedGetTopicArn. apply respects_async_parallel.
    - apply respects_getTopicArn.
    - destruct m; apply respects_getQueueArn. }
  pose proof (evolves_reads_subscribe _ _ (Hres st)) as H1.
  destruct (resolveArns pageBudget t m q st) as [[[ta qa]|?|?|] s1];
    simpl in *; try lia.
  unfold bind at 1.
  pose proof (evolves_reads_subscribe _ _
                (respects_checkQueueAlreadySubscribed ta qa s1)) as H2.
  destruct (checkQueueAlreadySubscribed ta qa s1) as [[[existing|]|?|?|] s2];
    simpl in *; try lia.
  unfold bind.
  pose proof (evolves_reads_subscribe _ _
                (respects_getClients reads (fun _ => eq_refl) s2)) as H3.
  destruct (getClients s2) as [[[]|?|?|] s3]; simpl in *; try lia.
  pose proof (call_state (SnsSubscribe "sqs" ta qa) s3) as [_ L].
  rewrite L, countCalls_app.
  assert (forall answer,
            countCalls isSubscribe [Logged (SnsSubscribe "sqs" ta qa) answer]
            = 1%nat) as Hone by reflexivity.
  rewrite Hone. lia.
Qed.

End OneSubscription.


(** ** JSON text *)

Lemma parseStringBody_escapeChar (c : ascii) (tail : string) :
  parseStringBody (escapeChar c ++ tail) = prepend c (parseStringBody tail).
Proof.
  destruct c as [[] [] [] [] [] [] [] []]; reflexivity.
Qed.

(** A string literal is read back as the string it was written from. *)
Lemma parseStringBody_escapeString (s rest : string) :
  parseStringBody (escapeString s ++ String doubleQuote rest) = Some (s, rest).
Proof.
  induction s as [|c s IH].
  - reflexivity.
  - change (escapeString (String c s)) with (escapeChar c ++ escapeString s).
    rewrite string_append_assoc, parseStringBody_escapeChar, IH. reflexivity.
Qed.

Example JSON_parse_default_policy :
  JSON_parse Cloud.defaultPolicy
  = Some (JObj [ ("Version", JStr "2008-10-17");
                 ("Id", JStr "__default_policy_ID");
                 ("Statement", JArr []) ]).
Proof. vm_compute. reflexivity. Qed.

Example JSON_round_trip_of_a_policy :
  JSON_parse (default "" (JSON_stringify Example.policyWithAllowPublish))
  = Some Example.policyWithAllowPublish.
Proof. vm_compute. reflexivity. Qed.

Example getQueuePolicy_source_arn :
  ld_get1
    (ld_get1
       (ld_get1
          (default JUndefined
             (head (arrayItems
                      (ld_get1 (default JUndefined
                                  (getQueuePolicy (Some Example.ledgerArn)))
                         "Statement"))))
          "Condition")
       "ArnEquals")
    "aws:SourceArn"
  = JStr "arn:aws:sns:us-east-1:000000000000:*".
Proof. vm_compute. reflexivity. Qed.

(** ** The example of the design document, end to end *)

Example createSubscription_orders_billing :
  let request :=
    mkSubscriptionRequest (JArr [JStr "orders"]) (JStr "billing")
      (JObj [("status", JStr "paid")]) in
  let result :=
    createSubscription 1 request
      (initialState Cloud.devEnvironment Cloud.emptyWorld) in
  fst result = Success tt /\
  Cloud.topics (world (snd result))
  = ["arn:aws:sns:us-east-1:000000000000:dev_orders"] /\
  Cloud.queues (world (snd result))
  = ["dev_orders_billing_billing"; "dev_internal_billing_dlq"] /\
  Cloud.subscriptions (world (snd result))
  = [ mkSubscription
        (Some "arn:aws:sns:us-east-1:000000000000:dev_orders:0")
        (Some "arn:aws:sqs:us-east-1:000000000000:dev_orders_billing_billing")
        (Some "sqs")
        (Some "arn:aws:sns:us-east-1:000000000000:dev_orders") ] /\
  last (calls (snd result))
  = Some (Logged
            (SnsSetSubscriptionAttributes "FilterPolicy"
               (Some "arn:aws:sns:us-east-1:000000000000:dev_orders:0")
               (JSON_stringify (JObj [("status", JStr "paid")])))
            (inr JUndefined)).
Proof. cbv zeta. repeat split; vm_compute; reflexivity. Qed.

(** ** Names, for every value *)

Lemma matchAtMost_more (n m : nat) (s : string) :
  (n <= m)%nat -> matchAtMost n s = true -> matchAtMost m s = true.
Proof.
  rewrite !matchAtMost_length, !andb_true_iff, !Nat.leb_le.
  intros Hnm [Hlen Hall]. split; [lia|assumption].
Qed.

(** A name that is valid within a limit is valid within every larger
    one, so that every valid topic name is a valid queue name; and the
    topic part that [getTopicName] picks for valid topic names, which
    [createSubscription] hands to [createQueue], is a valid topic name. *)
Theorem valid_names_within_larger_limits :
  (forall (name : JsValue) (n m : nat),
     (1 <= n <= m)%nat ->
     isValidName name n = true -> isValidName name m = true) /\
  (forall name : JsValue,
     isValidTopicName name = true -> isValidQueueName name = true) /\
  (forall names : list JsValue,
     Forall (fun name => isValidTopicName name = true) names ->
     isValidTopicName (getTopicName names) = true).
Proof.
  assert (Hmore : forall (name : JsValue) (n m : nat),
             (1 <= n <= m)%nat ->
             isValidName name n = true -> isValidName name m = true).
  { intros name n m [H1 Hnm]. unfold isValidName.
    destruct (negb (truthy name)); [discriminate|].
    destruct n as [|n]; [lia|]. destruct m as [|m]; [lia|].
    unfold reTest. destruct (ToString name) as [|c s]; [discriminate|].
    rewrite !andb_true_iff. intros [Hc Hs]. split; [assumption|].
    apply (matchAtMost_more n m); [lia|assumption]. }
  split; [exact Hmore|]. split.
  - intros name. apply Hmore. lia.
  - intros [|first [|second rest]] Hall.
    + reflexivity.
    + now inversion Hall.
    + reflexivity.
Qed.

(** ** Message attributes, for every event *)

Lemma convertProperty_lookup attrs k v key attr :
  convertProperty attrs (k, v) !! key = Some attr ->
  attrs !! key = Some attr \/
  (k = key /\ isUndefined v = false /\ isObject v = false /\
   attr = mkAttr "String" (if isEmpty v then UNDEFINED_FILLER else ToString v) /\
   StringValue attr <> "").
Proof.
  unfold convertProperty, convertPropertyToAttribute.
  destruct v as [| |b|n|s|items|props|src]; simpl; auto.
  - rewrite lookup_singleton_eq, lookup_insert_Some.
    intros [[-> <-]|[_ H]]; [right|now left]. repeat split; discriminate.
  - rewrite lookup_singleton_eq, lookup_insert_Some.
    intros [[-> <-]|[_ H]]; [right|now left]. repeat split; discriminate.
  - rewrite lookup_singleton_eq, lookup_insert_Some.
    intros [[-> <-]|[_ H]]; [right|now left]. repeat split; discriminate.
  - destruct (String.eqb s "") eqn:Es; simpl;
      rewrite lookup_singleton_eq, lookup_insert_Some;
      (intros [[-> <-]|[_ H]]; [right|now left]); repeat split; simpl.
    + discriminate.
    + intros ->. discriminate.
Qed.

(** Whatever the event: every attribute of the result is of type String,
    its value is not the empty string, and it comes from a property of
    the event under that name whose value is neither [undefined] nor an
    object: the value itself when that is a string with characters, the
    filler for everything else (the numbers and booleans too, which
    [ld.isEmpty] takes for empty). *)
Theorem attributes_are_strings_with_characters
    (event : list (string * JsValue)) (key : string) (attr : MessageAttribute) :
  convertEventToMessageAttributes event !! key = Some attr ->
  DataType attr = "String" /\ StringValue attr <> "" /\
  exists v, In (key, v) event /\
            isUndefined v = false /\ isObject v = false /\
            StringValue attr
            = (if isEmpty v then UNDEFINED_FILLER else ToString v).
Proof.
  unfold convertEventToMessageAttributes.
  assert (H : forall (init : gmap string MessageAttribute),
             foldl convertProperty init event !! key = Some attr ->
             init !! key = Some attr \/
             (DataType attr = "String" /\ StringValue attr <> "" /\
              exists v, In (key, v) event /\
                        isUndefined v = false /\ isObject v = false /\
                        StringValue attr
                        = (if isEmpty v then UNDEFINED_FILLER else ToString v))).
  { induction event as [|[k v] rest IH]; intros init; simpl.
    - now left.
    - intros Hl. apply IH in Hl as [Hl|(Hd & Hs & w & Hin & Hw)].
      + apply convertProperty_lookup in Hl as [Hl|(-> & Hu & Ho & -> & Hne)].
        * now left.
        * right. repeat split; [exact Hne|].
          exists v. repeat split; auto.
      + right. repeat split; [assumption..|].
        exists w. split; [now right|assumption]. }
  intros Hl. apply H in Hl as [Hl|Hl]; [|exact Hl].
  rewrite lookup_empty in Hl. discriminate.
Qed.

Lemma attributes_are_strings_with_characters_witness :
  DataType (mkAttr "String" "x") = "String" /\
  StringValue (mkAttr "String" "x") <> "" /\
  exists v, In ("a", v) exampleEvent /\
            isUndefined v = false /\ isObject v = false /\
            StringValue (mkAttr "String" "x")
            = (if isEmpty v then UNDEFINED_FILLER else ToString v).
Proof.
  apply (attributes_are_strings_with_characters exampleEvent "a").
  vm_compute. reflexivity.
Defined.

(** ** Identity, once read *)

Lemma prefix_substring_to (n : nat) (s : string) :
  String.prefix (substring_to n s) s = true.
Proof.
  unfold substring_to. revert n.
  induction s as [|c s IH]; intros [|n]; simpl; try reflexivity.
  rewrite IH. destruct (Ascii.ascii_dec c c); [reflexivity|contradiction].
Qed.

Lemma prefix_refl (s : string) : String.prefix s s = true.
Proof.
  induction s as [|c s IH]; simpl; [reflexivity|].
  rewrite IH. destruct (Ascii.ascii_dec c c); [reflexivity|contradiction].
Qed.

(** The environment name that is derived from a host is a beginning of
    the host, has at most 12 characters, and has characters when the
    host has. *)
Theorem environmentNameOfHost_begins_the_host (host : string) :
  String.prefix (environmentNameOfHost host) host = true /\
  (String.length (environmentNameOfHost host) <= 12)%nat /\
  (host <> "" -> environmentNameOfHost host <> "").
Proof.
  split; [|split].
  - unfold environmentNameOfHost.
    assert (Hname : exists n, match indexOf "." host with
              | Some firstDot =>
                  if (0 <? firstDot)%nat then substring_to firstDot host
                  else host
              | None => host
              end = substring_to n host).
    { assert (Hall : host = substring_to (String.length host) host).
      { unfold substring_to. clear.
        induction host as [|c h IH]; simpl; [reflexivity|]. now rewrite <- IH. }
      destruct (indexOf "." host) as [firstDot|].
      - destruct (0 <? firstDot)%nat; eauto.
      - eauto. }
    destruct Hname as [n ->].
    destruct (12 <? _)%nat; [|apply prefix_substring_to].
    assert (Htwice : forall k m s,
               substring_to k (substring_to m s) = substring_to (Nat.min k m) s).
    { unfold substring_to. clear.
      intros k m s. revert k m.
      induction s as [|c s IH]; intros [|k] [|m]; simpl; try reflexivity.
      now rewrite IH. }
    rewrite Htwice. apply prefix_substring_to.
  - apply environmentNameOfHost_at_most_12.
  - intros Hh Hn.
    pose proof (environmentNameOfHost_truthy host) as Ht.
    unfold truthyStr in Ht. rewrite Hn in Ht.
    destruct host; [contradiction|]. now specialize (Ht eq_refl).
Qed.

Section IdentityOnceRead.

Context {W : Type} {provider : Provider W}.

Lemma getServiceName_again (st : State W) :
  getServiceName (snd (getServiceName st))
  = (fst (getServiceName st), snd (getServiceName st)).
Proof.
  pose proof (getServiceName_settled st) as (Hset & Htruthy & Hlen).
  unfold getServiceName at 1.
  assert (Hc : configuredServiceName (snd (getServiceName st))
               = fst (getServiceName st)).
  { unfold configuredServiceName at 1. rewrite Hset. cbv zeta.
    now rewrite Htruthy. }
  rewrite Hc.
  destruct (24 <? String.length (fst (getServiceName st)))%nat eqn:E.
  - apply Nat.ltb_lt in E. lia.
  - reflexivity.
Qed.

(** [getServiceName] settles the name with its first call: the name has
    characters, at most 24 of them, it begins the configured name, and a
    second call returns it again and changes nothing. *)
Theorem getServiceName_settles_the_name (st : State W) :
  getServiceName (snd (getServiceName st))
  = (fst (getServiceName st), snd (getServiceName st)) /\
  fst (getServiceName st) <> "" /\
  (String.length (fst (getServiceName st)) <= 24)%nat /\
  String.prefix (fst (getServiceName st)) (configuredServiceName st) = true.
Proof.
  pose proof (getServiceName_settled st) as (Hset & Htruthy & Hlen).
  split; [|split; [|split]].
  - apply getServiceName_again.
  - intros Hn. rewrite Hn in Htruthy. discriminate.
  - exact Hlen.
  - unfold getServiceName. cbn [fst].
    destruct (24 <? _)%nat; [apply prefix_substring_to|apply prefix_refl].
Qed.

(** [getEnvironmentName] settles the name with its first success: the
    name has characters, and from then on the call returns the same name
    and changes nothing, so that it sends no request. *)
Theorem getEnvironmentName_settles_the_name (st : State W) e st1 :
  getEnvironmentName st = (Success e, st1) ->
  e <> "" /\ getEnvironmentName st1 = (Success e, st1).
Proof.
  intros H. apply getEnvironmentName_success in H as [Hset Htruthy].
  split.
  - intros ->. discriminate.
  - now apply getEnvironmentName_set.
Qed.

End IdentityOnceRead.

Lemma getEnvironmentName_settles_the_name_witness :
  let st :=
    initialState (mkProcessEnv None None None)
      (Cloud.mkWorld (Some "dev.voyent.cloud") [] [] [] [] []) in
  let st1 := snd (getEnvironmentName st) in
  "dev" <> "" /\ getEnvironmentName st1 = (Success "dev", st1).
Proof.
  cbv zeta.
  apply (getEnvironmentName_settles_the_name
           (initialState (mkProcessEnv None None None)
              (Cloud.mkWorld (Some "dev.voyent.cloud") [] [] [] [] []))).
  vm_compute. reflexivity.
Defined.

(** ** The ARN cache, entry by entry *)

Lemma cacheTopicArn_lookup envName cache arn key :
  key <> "__proto__" ->
  cacheTopicArn envName cache arn !! key
  = if decide (topicNameOf envName arn = Some key) then Some arn
    else cache !! key.
Proof.
  intros Hkey. unfold cacheTopicArn, topicNameOf, cacheSet.
  destruct (indexOf (envName ++ "_") arn) as [i|].
  - set (name := substring_from (String.length (envName ++ "_"))
                   (substring_from i arn)).
    destruct (decide (Some name = Some key)) as [E|E].
    + injection E as ->.
      destruct (String.eqb key "__proto__") eqn:Ep.
      * apply String.eqb_eq in Ep. contradiction.
      * apply lookup_insert_eq.
    + destruct (String.eqb name "__proto__"); [reflexivity|].
      apply lookup_insert_ne. congruence.
  - destruct (decide (None = Some key)); [discriminate|reflexivity].
Qed.

(** After the [ld.each] of [cacheTopicArns] has gone through a listing,
    the cache holds under a name the last listed ARN that has the name
    after the first occurrence of the environment prefix; a name that no
    listed ARN has keeps what the cache held. *)
Theorem cacheTopicArns_last_listed_wins
    (envName : string) (cache : gmap string string) (listing : list string)
    (key : string) :
  key <> "__proto__" ->
  foldl (cacheTopicArn envName) cache listing !! key
  = match last (filter (fun arn => topicNameOf envName arn = Some key) listing)
    with
    | Some arn => Some arn
    | None => cache !! key
    end.
Proof.
  intros Hkey. revert cache.
  induction listing as [|arn rest IH]; intros cache; [reflexivity|].
  cbn [foldl]. rewrite IH, cacheTopicArn_lookup by assumption.
  rewrite filter_cons.
  destruct (decide (topicNameOf envName arn = Some key)) as [E|E];
    [|reflexivity].
  destruct (filter (fun arn0 => topicNameOf envName arn0 = Some key) rest)
    as [|x l] eqn:Ef; [reflexivity|].
  change (last (arn :: x :: l)) with (last (x :: l)).
  destruct (last (x :: l)) eqn:El; [reflexivity|].
  apply last_None in El. discriminate.
Qed.

Lemma cacheTopicArns_last_listed_wins_witness :
  foldl (cacheTopicArn "dev") ∅
    [ "arn:aws:sns:us-east-1:000000000000:dev_orders";
      "arn:aws:sns:eu-west-1:000000000000:dev_orders" ] !! "orders"
  = Some "arn:aws:sns:eu-west-1:000000000000:dev_orders".
Proof.
  rewrite (cacheTopicArns_last_listed_wins "dev" ∅ _ "orders") by discriminate.
  vm_compute. reflexivity.
Defined.

Section InheritedNames.

Context {W : Type} {provider : Provider W}.
Variable pageBudget : nat.

(** The cache is a plain object, so the names of the methods that every
    object inherits are answered by it although they were never cached:
    each of them is a valid topic name, and [getTopicArn] answers it at
    once, without a listing, with a function in the place of the ARN. *)
Theorem getTopicArn_answers_an_inherited_name (name : string) (st : State W) :
  In name objectPrototypeMethods ->
  cachedTopicArns st !! name = None ->
  isValidTopicName (JStr name) = true /\
  exists src,
    getTopicArn pageBudget (JStr name) st = (Success (JFun src), st).
Proof.
  intros Hin Hnone.
  assert (Hvalid : isValidTopicName (JStr name) = true).
  { simpl in Hin.
    repeat (destruct Hin as [<-|Hin]; [reflexivity|]). contradiction. }
  split; [exact Hvalid|].
  unfold getTopicArn. rewrite Hvalid. cbn [negb ToString].
  unfold cacheGet. rewrite Hnone.
  simpl in Hin.
  repeat (destruct Hin as [<-|Hin]; [eexists; reflexivity|]). contradiction.
Qed.

End InheritedNames.

Lemma getTopicArn_answers_an_inherited_name_witness :
  isValidTopicName (JStr "toString") = true /\
  exists src,
    getTopicArn 1 (JStr "toString")
      (initialState Cloud.devEnvironment Cloud.emptyWorld)
    = (Success (JFun src),
       initialState Cloud.devEnvironment Cloud.emptyWorld).
Proof.
  apply (getTopicArn_answers_an_inherited_name 1 "toString"
           (initialState Cloud.devEnvironment Cloud.emptyWorld)).
  - simpl. tauto.
  - reflexivity.
Defined.

(** ** Splitting and joining *)

Lemma split_cons_other (sep c : ascii) (s : string) :
  c <> sep ->
  split sep (String c s)
  = match split sep s with
    | [] => [String c EmptyString]
    | first :: others => String c first :: others
    end.
Proof.
  intros Hc. simpl. destruct (Ascii.eqb c sep) eqn:E; [|reflexivity].
  apply Ascii.eqb_eq in E. contradiction.
Qed.

Lemma without_cons (sep c : ascii) (s : string) :
  without sep (String c s) <-> c <> sep /\ without sep s.
Proof.
  unfold without. simpl. split.
  - intros H. split; [intros ->; apply H; now left|intros Hin; apply H; now right].
  - intros [Hc Hs] [->|Hin]; [now apply Hc|now apply Hs].
Qed.

Lemma without_append (sep : ascii) (a b : string) :
  without sep (a ++ b) <-> without sep a /\ without sep b.
Proof.
  induction a as [|c a IH].
  - change ("" ++ b) with b. split; [intros H; split; [intros []|exact H]|tauto].
  - change (String c a ++ b) with (String c (a ++ b)).
    rewrite !without_cons, IH. tauto.
Qed.

Lemma split_without (sep : ascii) (s : string) :
  without sep s -> split sep s = [s].
Proof.
  induction s as [|c s IH]; intros H; [reflexivity|].
  apply without_cons in H as [Hc Hs].
  rewrite split_cons_other, IH by assumption. reflexivity.
Qed.

Lemma split_append (sep : ascii) (a b : string) :
  without sep a -> split sep (a ++ String sep b) = a :: split sep b.
Proof.
  induction a as [|c a IH]; intros H.
  - change ("" ++ String sep b) with (String sep b). simpl.
    now rewrite Ascii.eqb_refl.
  - apply without_cons in H as [Hc Ha].
    change (String c a ++ String sep b) with (String c (a ++ String sep b)).
    rewrite split_cons_other, IH by assumption. reflexivity.
Qed.

Lemma split_join (sep : ascii) (parts : list string) :
  parts <> [] -> Forall (without sep) parts ->
  split sep (join (String sep "") parts) = parts.
Proof.
  induction parts as [|p rest IH]; intros Hne Hall; [contradiction|].
  inversion Hall as [|? ? Hp Hrest]; subst.
  destruct rest as [|q rest'].
  - simpl. now apply split_without.
  - change (join (String sep "") (p :: q :: rest'))
      with (p ++ String sep "" ++ join (String sep "") (q :: rest')).
    change (String sep "" ++ join (String sep "") (q :: rest'))
      with (String sep (join (String sep "") (q :: rest'))).
    rewrite split_append by assumption.
    rewrite IH by (assumption || discriminate). reflexivity.
Qed.

(** ** The queue policy *)

(** For a queue ARN of six parts, [arn:partition:sqs:region:account:name]
    in AWS, the policy that [getQueuePolicy] writes lets every SNS topic
    of the same partition, region and account send to the queue: the
    source ARN keeps the first five parts, with [sns] as the third, and
    ends in a wildcard.  The name of the queue may have colons of its
    own. *)
Theorem getQueuePolicy_admits_the_topics_of_the_account
    (arn partition service region account name : string) :
  Forall (without ":") [arn; partition; service; region; account] ->
  let queueArn :=
    arn ++ ":" ++ partition ++ ":" ++ service ++ ":" ++ region ++ ":"
    ++ account ++ ":" ++ name in
  getQueuePolicy (Some queueArn)
  = Some (JObj
      [ ("Version", JStr "2012-10-17");
        ("Id", JStr (queueArn ++ "/SQSDefaultPolicy"));
        ("Statement", JArr
           [ JObj
               [ ("Effect", JStr "Allow");
                 ("Principal", JObj [("AWS", JStr "*")]);
                 ("Action", JStr "SQS:SendMessage");
                 ("Resource", JStr queueArn);
                 ("Condition", JObj
                    [("ArnEquals", JObj
                        [("aws:SourceArn",
                          JStr (arn ++ ":" ++ partition ++ ":sns:" ++ region
                                ++ ":" ++ account ++ ":*"))])]) ] ]) ]).
Proof.
  intros Hall queueArn.
  apply Forall_cons in Hall as [H0 Hall].
  apply Forall_cons in Hall as [H1 Hall].
  apply Forall_cons in Hall as [H2 Hall].
  apply Forall_cons in Hall as [H3 Hall].
  apply Forall_cons in Hall as [H4 _].
  unfold getQueuePolicy.
  assert (Hsplit : exists more,
             split ":" queueArn
             = arn :: partition :: service :: region :: account :: more).
  { exists (split ":" name). unfold queueArn.
    assert (Hcolon : forall x, ":" ++ x = String ":" x) by reflexivity.
    rewrite !Hcolon. now rewrite !split_append by assumption. }
  destruct Hsplit as [more ->].
  cbn [take setIndex join].
  rewrite !string_append_assoc. reflexivity.
Qed.

Lemma getQueuePolicy_admits_the_topics_of_the_account_witness :
  ld_get1
    (ld_get1
       (ld_get1
          (default JUndefined
             (head (arrayItems
                      (ld_get1 (default JUndefined
                                  (getQueuePolicy (Some Example.ledgerArn)))
                         "Statement"))))
          "Condition")
       "ArnEquals")
    "aws:SourceArn"
  = JStr "arn:aws:sns:us-east-1:000000000000:*".
Proof.
  change Example.ledgerArn
    with ("arn" ++ ":" ++ "aws" ++ ":" ++ "sqs" ++ ":" ++ "us-east-1" ++ ":"
          ++ "000000000000" ++ ":" ++ "dev_orders_billing_ledger").
  rewrite (getQueuePolicy_admits_the_topics_of_the_account
             "arn" "aws" "sqs" "us-east-1" "000000000000"
             "dev_orders_billing_ledger").
  - reflexivity.
  - repeat constructor; unfold without; simpl; intuition discriminate.
Defined.

(** ** Cross-account permissions *)

Lemma orElse_Some (s : string) : orElse (Some s) "" = s.
Proof.
  unfold orElse, truthyStr. destruct s; reflexivity.
Qed.

Lemma permittedAccount_without_colon (t : string) (entries : list string)
    (account : option string) (entry : string) :
  In entry entries -> without ":" entry -> trim entry = t ->
  permittedAccount (JStr t) entries account = inl tt.
Proof.
  intros Hin Hplain Htrim. revert account.
  induction entries as [|e rest IH]; intros account; [contradiction|].
  destruct Hin as [->|Hin].
  - cbn [permittedAccount]. rewrite (split_without ":" entry Hplain).
    rewrite Htrim, String.eqb_refl. reflexivity.
  - cbn [permittedAccount].
    destruct (split ":" e) as [|p0 [|p1 more]];
      try destruct (String.eqb (trim p0) t); auto.
Qed.

Lemma permissionEntry_split (entry : string * string) :
  without ":" (fst entry) -> without ":" (snd entry) ->
  split ":" (permissionEntry entry) = [fst entry; snd entry].
Proof.
  intros Hn Ha. unfold permissionEntry.
  change (":" ++ snd entry) with (String ":" (snd entry)).
  rewrite split_append by assumption. now rewrite split_without.
Qed.

Lemma permittedAccount_entries (t : string) (entries : list (string * string))
    (account : option string) :
  Forall (fun entry => without ":" (fst entry) /\ without ":" (snd entry))
    entries ->
  permittedAccount (JStr t) (map permissionEntry entries) account
  = inr match last (filter (fun entry => trim (fst entry) = t) entries) with
        | Some entry => Some (trim (snd entry))
        | None => account
        end.
Proof.
  intros Hall. revert account.
  induction Hall as [|entry rest [Hn Ha] Hrest IH]; intros account;
    [reflexivity|].
  cbn [map permittedAccount].
  rewrite permissionEntry_split by assumption.
  rewrite filter_cons.
  destruct (decide (trim (fst entry) = t)) as [E|E].
  - rewrite E, String.eqb_refl, IH.
    destruct (filter (fun entry0 => trim (fst entry0) = t) rest)
      as [|x l] eqn:Ef; [reflexivity|].
    change (last (entry :: x :: l)) with (last (x :: l)).
    destruct (last (x :: l)) eqn:El; [reflexivity|].
    apply last_None in El. discriminate.
  - apply String.eqb_neq in E. rewrite E. apply IH.
Qed.

Section Permissions.

Context {W : Type} {provider : Provider W}.

Implicit Types (st : State W) (P : LoggedRequest -> Prop).

Lemma evolved_entry P st st' l r :
  evolves P st st' -> calls st' = (calls st ++ l)%list -> In r l -> P r.
Proof.
  intros (_ & _ & _ & _ & l' & Hl' & HP) Hl Hin.
  rewrite Hl' in Hl. apply app_inv_head in Hl. subst l'.
  rewrite Forall_forall in HP. apply HP. now apply list_elem_of_In.
Qed.

Lemma reads_no_permission r : reads r -> isAddPermission r = false.
Proof.
  destruct r as [A r ?]. unfold reads.
  destruct r; simpl; intros H; try reflexivity; discriminate H.
Qed.

(** When [createTopic] has sent [sns.addPermission], it reports success
    whatever the answer was: a refused permission is logged and the
    callback gets the error of [sns.createTopic], which is null there. *)
Theorem createTopic_ignores_a_refused_permission t cb st l params
    (answer : JsError + JsValue) :
  isFunction cb = true ->
  calls (snd (createTopic t cb st)) = (calls st ++ l)%list ->
  In (Logged (SnsAddPermission params) answer) l ->
  fst (createTopic t cb st) = Success JUndefined.
Proof.
  intros Hcb Hl Hin.
  destruct (createTopic t cb st) as [o st'] eqn:E. cbn [fst snd] in *.
  unfold createTopic in E. rewrite callingBack_function in E by assumption.
  set (P := fun r => isAddPermission r = false).
  assert (Hno : forall s, evolves P st s -> (o, st') = (o, s) -> False).
  { intros s He Hs. inversion Hs; subst s.
    pose proof (evolved_entry P st st' l _ He Hl Hin) as H. discriminate H. }
  destruct (negb (isValidTopicName t)).
  { inversion E; subst. exfalso. apply (Hno st'); auto. apply evolves_refl. }
  unfold bind at 1 in E.
  pose proof (respects_weaken reads P _ reads_no_permission
                (respects_getQualifiedTopicName t) st) as H1.
  destruct (getQualifiedTopicName t st) as [[tName|e|e|] s1];
    cbn [snd] in H1;
    try (inversion E; subst; exfalso; eapply Hno; [|reflexivity]; assumption).
  unfold bind at 1 in E.
  pose proof (respects_getClients P (fun _ => eq_refl) s1) as H2.
  destruct (getClients s1) as [[[]|e|e|] s2];
    cbn [snd] in H2;
    pose proof (evolves_trans P _ _ _ H1 H2) as H12;
    try (inversion E; subst; exfalso; eapply Hno; [|reflexivity]; assumption).
  unfold bind at 1 in E.
  pose proof (respects_call P (SnsCreateTopic tName) (fun _ => eq_refl) s2)
    as H3.
  destruct (call (SnsCreateTopic tName) s2) as [[topicArn|e|e|] s3];
    cbn [snd] in H3;
    pose proof (evolves_trans P _ _ _ H12 H3) as H13;
    try (inversion E; subst; exfalso; eapply Hno; [|reflexivity]; assumption).
  unfold bind at 1 in E.
  pose proof (respects_getPublishPermissionParams P t topicArn s3) as H4.
  destruct (getPublishPermissionParams t topicArn s3)
    as [[publishParams|e|e|] s4];
    cbn [snd] in H4;
    pose proof (evolves_trans P _ _ _ H13 H4) as H14;
    try (inversion E; subst; exfalso; eapply Hno; [|reflexivity]; assumption).
  destruct publishParams as [params'|].
  - unfold call in E.
    destruct (respond (SnsAddPermission params') (world s4)) as [[err|data] w];
      now inversion E.
  - inversion E; subst. exfalso. eapply Hno; [|reflexivity]; assumption.
Qed.

(** An entry of [topicAccountPermissions] that has no colon and names
    the topic makes [getPublishPermissionParams] throw (it trims a second
    piece that is not there); [createTopic] calls it in the callback of
    [sns.createTopic], so that [createTopic] of that topic never reports
    success. *)
Theorem getPublishPermissionParams_entry_without_colon
    (t : string) st (tap entry : string) :
  topicAccountPermissions (processEnv st) = Some tap ->
  In entry (split "," tap) -> without ":" entry -> trim entry = t ->
  t <> "" ->
  (forall topicArn, exists err,
     getPublishPermissionParams (JStr t) topicArn st = (Uncaught err, st)) /\
  (forall cb done, fst (createTopic (JStr t) cb st) <> Success done).
Proof.
  intros Htap Hin Hplain Htrim Ht.
  assert (Hthrows : forall topicArn (s : State W), processEnv s = processEnv st ->
            exists err,
              getPublishPermissionParams (JStr t) topicArn s = (Uncaught err, s)).
  { intros topicArn s Hs. unfold getPublishPermissionParams.
    rewrite Hs, Htap, orElse_Some.
    assert (Htruthy : truthyStr tap = true).
    { destruct tap; [|reflexivity]. simpl in Hin.
      destruct Hin as [<-|[]]. cbv in Htrim. congruence. }
    rewrite Htruthy. cbn [negb].
    rewrite (permittedAccount_without_colon t _ None entry Hin Hplain Htrim).
    eexists. reflexivity. }
  split; [intros topicArn; now apply Hthrows|].
  intros cb done Hdone.
  destruct (createTopic (JStr t) cb st) as [o st'] eqn:E.
  cbn [fst] in Hdone. subst o.
  unfold createTopic in E. apply callingBack_success in E.
  destruct (negb (isValidTopicName (JStr t))); [discriminate|].
  apply bind_success in E as (tName & s1 & E1 & E).
  apply bind_success in E as ([] & s2 & E2 & E).
  apply bind_success in E as (topicArn & s3 & E3 & E).
  apply bind_success in E as (publishParams & s4 & E4 & _).
  assert (Henv : processEnv s3 = processEnv st).
  { pose proof (outcome_evolves reads _ _ _ _
                  (respects_getQualifiedTopicName (JStr t)) E1) as (H1 & _).
    transitivity (processEnv s2).
    - unfold call in E3.
      destruct (respond (SnsCreateTopic tName) (world s2)) as [[?|?] ?];
        inversion E3; reflexivity.
    - transitivity (processEnv s1); [|exact H1].
      unfold getClients, call in E2.
      destruct (respond GetClients (world s1)) as [[?|?] ?];
        inversion E2; reflexivity. }
  destruct (Hthrows topicArn s3 Henv) as [err Herr].
  rewrite Herr in E4. discriminate.
Qed.

(** With entries that are all of the form [name:account], the last entry
    whose trimmed name is the topic decides, and its account is taken
    trimmed; an entry that leaves the account blank takes the permission
    away again. *)
Theorem getPublishPermissionParams_last_entry_decides
    (t : string) (topicArn : option string) st
    (entries : list (string * string)) :
  entries <> [] ->
  Forall (fun entry =>
            Forall (fun part => without "," part /\ without ":" part)
              [fst entry; snd entry]) entries ->
  topicAccountPermissions (processEnv st)
  = Some (join "," (map permissionEntry entries)) ->
  getPublishPermissionParams (JStr t) topicArn st
  = (Success
       match last (filter (fun entry => trim (fst entry) = t) entries) with
       | Some entry =>
           if truthyStr (trim (snd entry)) then
             Some (mkPublishPermission [trim (snd entry)] ["Publish"]
                     "AllowCrossAccountPublish" topicArn)
           else None
       | None => None
       end, st).
Proof.
  intros Hne Hall Htap. unfold getPublishPermissionParams.
  rewrite Htap, orElse_Some.
  assert (Htruthy : truthyStr (join "," (map permissionEntry entries)) = true).
  { destruct entries as [|[n a] rest]; [contradiction|].
    destruct rest; simpl; unfold permissionEntry; simpl; destruct n; reflexivity. }
  rewrite Htruthy. cbn [negb].
  rewrite (split_join "," (map permissionEntry entries)).
  - rewrite permittedAccount_entries.
    + destruct (last _) as [[n a]|]; [|reflexivity].
      cbn [fst snd]. rewrite orElse_Some.
      destruct (truthyStr (trim a)); reflexivity.
    + eapply Forall_impl; [exact Hall|].
      intros [n a] H. cbn [fst snd] in *.
      apply Forall_cons in H as [[_ Hn] H].
      apply Forall_cons in H as [[_ Ha] _]. now split.
  - destruct entries; [contradiction|discriminate].
  - apply Forall_map. eapply Forall_impl; [exact Hall|].
    intros [n a] H. cbn [fst snd] in *.
    apply Forall_cons in H as [[Hn _] H].
    apply Forall_cons in H as [[Ha _] _].
    unfold permissionEntry. cbn [fst snd].
    rewrite !without_append. repeat split; try assumption.
    unfold without. simpl. intros [H|[]]. discriminate H.
Qed.

End Permissions.

(** ** What a policy update keeps *)

Lemma getProperty_setProperty_other key k v props :
  key <> k -> getProperty key (setProperty k v props) = getProperty key props.
Proof.
  intros Hne. induction props as [|[k' old] rest IH]; simpl.
  - destruct (String.eqb k key) eqn:E; [|reflexivity].
    apply String.eqb_eq in E. congruence.
  - destruct (String.eqb k' k) eqn:Ek; simpl.
    + apply String.eqb_eq in Ek. subst k'.
      destruct (String.eqb k key) eqn:E; [|reflexivity].
      apply String.eqb_eq in E. congruence.
    + now rewrite IH.
Qed.

Section PolicyUpdates.

Context {W : Type} {provider : Provider W}.

Implicit Types (st : State W).

(** [updateCurrentPolicy] never takes anything away: every property of
    the policy other than [Statement] comes back as it was, every
    statement that was there is still there, and the new statement is
    among them.  Either the policy comes back as it was given, or the
    last request sent is the [sns.setTopicAttributes] that writes the
    returned policy as the [Policy] of the topic. *)
Theorem updateCurrentPolicy_keeps_the_rest arn p s st p' st' :
  updateCurrentPolicy arn p s st = (Success p', st') ->
  (forall key, key <> "Statement" -> ld_get1 p' key = ld_get1 p key) /\
  (forall old, In old (arrayItems (ld_get1 p "Statement")) ->
               In old (arrayItems (ld_get1 p' "Statement"))) /\
  ld_some (ld_get1 p' "Statement") (fun current => sameJSON current s) = true /\
  (p' = p \/
   exists answer,
     last (calls st')
     = Some (Logged (SnsSetTopicAttributes "Policy" arn (JSON_stringify p'))
               answer)).
Proof.
  destruct (ld_some (ld_get1 p "Statement")
              (fun current => sameJSON current s)) eqn:Hsome.
  - rewrite (updateCurrentPolicy_present arn p s st Hsome).
    intros H. inversion H; subst. auto.
  - intros H. unfold updateCurrentPolicy in H. rewrite Hsome in H.
    destruct (ld_get1 p "Statement") as [| | | | |statements| |] eqn:Hst;
      try discriminate.
    destruct p as [| | | | | |props|]; try discriminate.
    apply bind_success in H as ([] & s1 & _ & H).
    apply bind_success in H as (done & s2 & Hcall & H).
    inversion H; subst.
    split; [|split; [|split]].
    + intros key Hkey. simpl. now apply getProperty_setProperty_other.
    + simpl. rewrite getProperty_setProperty. simpl.
      intros old Hold. apply in_or_app. now left.
    + simpl. rewrite getProperty_setProperty. simpl.
      rewrite existsb_app. simpl. rewrite sameJSON_refl.
      now rewrite orb_true_r.
    + right. apply call_success in Hcall as [Hlog _]. rewrite Hlog.
      eexists. apply last_snoc.
Qed.

(** When the check of the subscriptions of the topic finds none for the
    queue, [setFilterForSubscription] reports success without data and
    sends nothing more: the filter is dropped silently. *)
Theorem setFilterForSubscription_without_subscription
    (pageBudget : nat) t m q f st ta qa st2 st3 :
  resolveArns pageBudget t m q st = (Success (ta, qa), st2) ->
  checkQueueAlreadySubscribed ta qa st2 = (Success None, st3) ->
  setFilterForSubscription pageBudget t m q f st = (Success JUndefined, st3).
Proof.
  intros Hr Hc. unfold setFilterForSubscription.
  assert (Hvalid : isValidTopicName t = true /\ isValidQueueName q = true).
  { unfold resolveArns, async_parallel in Hr.
    destruct (queuedGetTopicArn pageBudget t st) as [[a|e|e|] s1] eqn:E1;
      try discriminate.
    - apply getTopicArn_success in E1 as (Ht & _). split; [exact Ht|].
      apply bind_success in Hr as (qarn & s2 & Hq & _).
      assert (Hq' : exists name, getQueueArn name q s1 = (Success qarn, s2))
        by (destruct m; eauto).
      destruct Hq' as [name Hq'].
      unfold getQueueArn in Hq'.
      apply bind_success in Hq' as (url & s & Hurl & _).
      unfold getQueueUrl in Hurl.
      destruct (negb (isValidTopicName name)); [discriminate|].
      destruct (isValidQueueName q); [reflexivity|discriminate].
    - destruct (if m then _ else _) as [[?|?|?|] ?]; discriminate. }
  destruct Hvalid as [-> ->]. cbn [negb].
  unfold bind at 1. rewrite Hr. cbn [fst snd].
  unfold bind at 1. rewrite Hc. reflexivity.
Qed.

End PolicyUpdates.

(** ** Concrete runs of the properties above *)

Lemma createTopic_ignores_a_refused_permission_witness :
  fst (createTopic (provider := refusingPermissions) (JStr "orders")
         asyncCallback
         (initialState (sharingEnvironment "orders:123456789012")
            Cloud.emptyWorld))
  = Success JUndefined.
Proof.
  apply (createTopic_ignores_a_refused_permission
           (provider := refusingPermissions) (JStr "orders") asyncCallback
           (initialState (sharingEnvironment "orders:123456789012")
              Cloud.emptyWorld)
           (calls (snd (createTopic (provider := refusingPermissions)
                          (JStr "orders") asyncCallback
                          (initialState
                             (sharingEnvironment "orders:123456789012")
                             Cloud.emptyWorld))))
           (mkPublishPermission ["123456789012"] ["Publish"]
              "AllowCrossAccountPublish"
              (Some "arn:aws:sns:us-east-1:000000000000:dev_orders"))
           (inl (mkError "AuthorizationError"))).
  - reflexivity.
  - reflexivity.
  - vm_compute. right. right. left. reflexivity.
Defined.

Lemma getPublishPermissionParams_entry_without_colon_witness :
  let st :=
    initialState (sharingEnvironment "events:123456789012,orders")
      Cloud.emptyWorld in
  (forall topicArn, exists err,
     getPublishPermissionParams (JStr "orders") topicArn st
     = (Uncaught err, st)) /\
  (forall cb done, fst (createTopic (JStr "orders") cb st) <> Success done).
Proof.
  cbv zeta.
  apply (getPublishPermissionParams_entry_without_colon "orders"
           (initialState (sharingEnvironment "events:123456789012,orders")
              Cloud.emptyWorld)
           "events:123456789012,orders" "orders").
  - reflexivity.
  - vm_compute. right. left. reflexivity.
  - unfold without. simpl. intuition discriminate.
  - reflexivity.
  - discriminate.
Defined.

Lemma getPublishPermissionParams_last_entry_decides_witness :
  getPublishPermissionParams (JStr "orders")
    (Some "arn:aws:sns:us-east-1:000000000000:dev_orders")
    (initialState
       (sharingEnvironment "orders:111111111111,events:1, orders : 222222222222 ")
       Cloud.emptyWorld)
  = (Success
       (Some (mkPublishPermission ["222222222222"] ["Publish"]
                "AllowCrossAccountPublish"
                (Some "arn:aws:sns:us-east-1:000000000000:dev_orders"))),
     initialState
       (sharingEnvironment "orders:111111111111,events:1, orders : 222222222222 ")
       Cloud.emptyWorld).
Proof.
  rewrite (getPublishPermissionParams_last_entry_decides "orders"
             (Some "arn:aws:sns:us-east-1:000000000000:dev_orders")
             (initialState
                (sharingEnvironment
                   "orders:111111111111,events:1, orders : 222222222222 ")
                Cloud.emptyWorld)
             [ ("orders", "111111111111"); ("events", "1");
               (" orders ", " 222222222222 ") ]).
  - vm_compute. reflexivity.
  - discriminate.
  - repeat constructor; unfold without; simpl; intuition discriminate.
  - reflexivity.
Defined.

Lemma updateCurrentPolicy_keeps_the_rest_witness :
  let st :=
    snd (createTopics (JArr [JStr "orders"])
           (initialState Cloud.devEnvironment Cloud.emptyWorld)) in
  let p :=
    JObj [ ("Version", JStr "2008-10-17"); ("Id", JStr "__default_policy_ID");
           ("Statement", JArr []) ] in
  let p' := Example.policyWithAllowPublish in
  let st' :=
    snd (updateCurrentPolicy (JStr Example.ordersArn) p Example.allowPublish st)
  in
  (forall key, key <> "Statement" -> ld_get1 p' key = ld_get1 p key) /\
  (forall old, In old (arrayItems (ld_get1 p "Statement")) ->
               In old (arrayItems (ld_get1 p' "Statement"))) /\
  ld_some (ld_get1 p' "Statement")
    (fun current => sameJSON current Example.allowPublish) = true /\
  (p' = p \/
   exists answer,
     last (calls st')
     = Some (Logged (SnsSetTopicAttributes "Policy" (JStr Example.ordersArn)
                       (JSON_stringify p')) answer)).
Proof.
  cbv zeta.
  apply (updateCurrentPolicy_keeps_the_rest (JStr Example.ordersArn)
           (JObj [ ("Version", JStr "2008-10-17");
                   ("Id", JStr "__default_policy_ID");
                   ("Statement", JArr []) ])
           Example.allowPublish
           (snd (createTopics (JArr [JStr "orders"])
                   (initialState Cloud.devEnvironment Cloud.emptyWorld)))).
  vm_compute. reflexivity.
Defined.

Lemma setFilterForSubscription_without_subscription_witness :
  let st2 :=
    snd (resolveArns 1 (JStr "orders") false (JStr "ledger")
           Example.provisioned) in
  let st3 :=
    snd (checkQueueAlreadySubscribed (JStr Example.ordersArn)
           (Some Example.ledgerArn) st2) in
  setFilterForSubscription 1 (JStr "orders") false (JStr "ledger")
    (JObj [("status", JStr "paid")]) Example.provisioned
  = (Success JUndefined, st3).
Proof.
  cbv zeta.
  apply (setFilterForSubscription_without_subscription 1
           (JStr "orders") false (JStr "ledger")
           (JObj [("status", JStr "paid")]) Example.provisioned
           (JStr Example.ordersArn) (Some Example.ledgerArn)
           (snd (resolveArns 1 (JStr "orders") false (JStr "ledger")
                   Example.provisioned))).
  - vm_compute. reflexivity.
  - vm_compute. reflexivity.
Defined.

(** ** Service topics *)

Lemma too_long_is_no_topic_name (s : string) :
  (24 < String.length s)%nat -> isValidTopicName (JStr s) = false.
Proof.
  intros H. unfold isValidTopicName. rewrite isValidName_string.
  unfold wellFormedName.
  destruct (String.length s <=? 24)%nat eqn:E.
  - apply Nat.leb_le in E. lia.
  - now rewrite andb_false_r.
Qed.

Lemma length_append (a b : string) :
  String.length (a ++ b) = (String.length a + String.length b)%nat.
Proof.
  induction a as [|c a IH]; [reflexivity|].
  change (String c a ++ b) with (String c (a ++ b)). simpl. now rewrite IH.
Qed.

Lemma list_ascii_of_string_append (a b : string) :
  list_ascii_of_string (a ++ b)
  = (list_ascii_of_string a ++ list_ascii_of_string b)%list.
Proof.
  induction a as [|c a IH]; [reflexivity|].
  change (String c a ++ b) with (String c (a ++ b)). simpl. now rewrite IH.
Qed.

Lemma trimEnd_no_white_space (s : string) :
  Forall (fun c => isWhiteSpace c = false) (list_ascii_of_string s) ->
  trimEnd s = s.
Proof.
  induction s as [|c s IH]; intros H; [reflexivity|].
  simpl in H. apply Forall_cons in H as [Hc Hs].
  simpl. rewrite (IH Hs), Hc. destruct s; reflexivity.
Qed.

Lemma trim_no_white_space (s : string) :
  Forall (fun c => isWhiteSpace c = false) (list_ascii_of_string s) ->
  trim s = s.
Proof.
  intros H. unfold trim.
  assert (Hstart : trimStart s = s).
  { destruct s as [|c s]; [reflexivity|].
    simpl in H. apply Forall_cons in H as [Hc _]. simpl. now rewrite Hc. }
  rewrite Hstart. now apply trimEnd_no_white_space.
Qed.

Lemma white_space_is_not_allowed (c : ascii) :
  isWhiteSpace c = true -> allowedChar c = false.
Proof.
  unfold isWhiteSpace. simpl. rewrite !orb_true_iff.
  intros [H|[H|[H|[H|[H|[H|H]]]]]]; try discriminate H;
    apply Ascii.eqb_eq in H; subst c; reflexivity.
Qed.

Lemma padded_is_no_topic_name (a s : string) :
  trim s <> s -> isValidTopicName (JStr (a ++ s)) = false.
Proof.
  intros Hpad. unfold isValidTopicName. rewrite isValidName_string.
  unfold wellFormedName.
  assert (Hex : Exists (fun c => isWhiteSpace c = true) (list_ascii_of_string s)).
  { assert (Hdec : Forall (fun c => isWhiteSpace c = false)
                     (list_ascii_of_string s)
                   \/ Exists (fun c => isWhiteSpace c = true)
                        (list_ascii_of_string s)).
    { induction (list_ascii_of_string s) as [|c l IH]; [left; constructor|].
      destruct (isWhiteSpace c) eqn:Ec; [right; now left|].
      destruct IH as [IH|IH]; [left; now constructor|right; now right]. }
    destruct Hdec as [Hall|Hex]; [|exact Hex].
    exfalso. apply Hpad. now apply trim_no_white_space. }
  assert (Hall : forallb allowedChar (list_ascii_of_string (a ++ s)) = false).
  { rewrite list_ascii_of_string_append, forallb_app.
    apply andb_false_iff. right.
    apply Exists_exists in Hex as (c & Hin & Hc).
    destruct (forallb allowedChar (list_ascii_of_string s)) eqn:E;
      [|reflexivity].
    rewrite forallb_forall in E. apply list_elem_of_In in Hin.
    specialize (E c Hin).
    rewrite (white_space_is_not_allowed c Hc) in E. discriminate E. }
  rewrite Hall. apply andb_false_r.
Qed.

Lemma existsb_eqb_In (x : string) (l : list string) :
  existsb (String.eqb x) l = true <-> In x l.
Proof.
  rewrite existsb_exists. split.
  - intros (y & Hy & E). apply String.eqb_eq in E. now subst.
  - intros H. exists x. split; [assumption|apply String.eqb_refl].
Qed.

Lemma uniqFrom_all_seen (seen l : list string) :
  Forall (fun x => In x seen) l -> uniqFrom seen l = [].
Proof.
  induction 1 as [|x l Hx _ IH]; [reflexivity|].
  simpl. apply existsb_eqb_In in Hx. now rewrite Hx.
Qed.

Lemma uniqFrom_repeated (seen a b : list string) :
  Forall (fun x => In x a \/ In x seen) b ->
  uniqFrom seen (a ++ b) = uniqFrom seen a.
Proof.
  revert seen. induction a as [|x a IH]; intros seen Hb.
  - simpl. apply uniqFrom_all_seen.
    eapply Forall_impl; [exact Hb|]. intros y [[]|H]. exact H.
  - simpl. destruct (existsb (String.eqb x) seen) eqn:E.
    + apply IH. eapply Forall_impl; [exact Hb|].
      intros y [[->|H]|H]; auto. right. now apply existsb_eqb_In.
    + f_equal. apply IH. eapply Forall_impl; [exact Hb|].
      intros y [[->|H]|H]; simpl; auto.
Qed.

Section ServiceTopics.

Context {W : Type} {provider : Provider W}.

Implicit Types (st : State W).

Lemma serviceTopicNames_strings (suffixes : list string) st :
  serviceTopicNames (map JStr suffixes) st
  = (Success (map (serviceTopicName (fst (getServiceName st))) suffixes),
     match suffixes with [] => st | _ => snd (getServiceName st) end).
Proof.
  revert st. induction suffixes as [|s rest IH]; intros st; [reflexivity|].
  cbn [map serviceTopicNames].
  destruct (getServiceName st) as [sName st1] eqn:E.
  unfold bind. rewrite IH.
  assert (E1 : getServiceName st1 = (sName, st1)).
  { pose proof (getServiceName_again st) as H. now rewrite E in H. }
  rewrite E1. cbn [fst snd]. destruct rest; reflexivity.
Qed.

(** [createServiceTopics] makes the topics one after the other and stops
    at the first that fails: when the name of the first suffix is not a
    valid topic name (the service name, a hyphen and the suffix have more
    than 24 characters together, or the suffix has a character that no
    name may have), the error of that name is reported and nothing is
    requested, for none of the suffixes. *)
Theorem createServiceTopics_stops_at_an_invalid_name
    (suffix : string) (others : list string) st :
  isValidTopicName
    (JStr (serviceTopicName (fst (getServiceName st)) suffix)) = false ->
  createServiceTopics (JArr (map JStr (suffix :: others))) st
  = (Failure
       (mkError ("topic name is invalid "
                 ++ serviceTopicName (fst (getServiceName st)) suffix)),
     snd (getServiceName st)).
Proof.
  intros Hbad. unfold createServiceTopics.
  change (isEmpty (JArr (map JStr (suffix :: others)))) with false.
  cbn [collectionValues]. unfold bind at 1.
  rewrite serviceTopicNames_strings.
  cbn [map]. unfold ld_uniq. cbn [uniqFrom existsb map async_eachLimit].
  unfold bind at 1. cbn [argument nth].
  unfold createTopic. rewrite Hbad. reflexivity.
Qed.

(** A suffix that occurs again creates nothing more: appending suffixes
    that are already in the list changes neither what
    [createServiceTopics] requests nor what it reports. *)
Theorem createServiceTopics_makes_a_topic_once
    (suffixes again : list string) st :
  suffixes <> [] ->
  Forall (fun suffix => In suffix suffixes) again ->
  createServiceTopics (JArr (map JStr (suffixes ++ again))) st
  = createServiceTopics (JArr (map JStr suffixes)) st.
Proof.
  intros Hne Hagain. unfold createServiceTopics.
  destruct suffixes as [|s rest]; [contradiction|].
  change (isEmpty (JArr (map JStr ((s :: rest) ++ again)))) with false.
  change (isEmpty (JArr (map JStr (s :: rest)))) with false.
  cbn [collectionValues]. unfold bind.
  rewrite !serviceTopicNames_strings.
  change ((s :: rest) ++ again)%list with (s :: (rest ++ again))%list.
  cbv beta iota.
  change (s :: (rest ++ again))%list with ((s :: rest) ++ again)%list.
  rewrite map_app. unfold ld_uniq.
  rewrite uniqFrom_repeated; [reflexivity|].
  apply Forall_map. eapply Forall_impl; [exact Hagain|].
  intros x Hx. left. now apply in_map.
Qed.

End ServiceTopics.

Lemma createServiceTopics_stops_at_an_invalid_name_witness :
  createServiceTopics (JArr (map JStr ["audit"; ""]))
    (initialState (mkProcessEnv (Some "dev") None None) Cloud.emptyWorld)
  = (Failure (mkError "topic name is invalid SERVICE_NAME_UNKNOWN-audit"),
     snd (getServiceName
            (initialState (mkProcessEnv (Some "dev") None None)
               Cloud.emptyWorld))).
Proof.
  apply (createServiceTopics_stops_at_an_invalid_name "audit" [""]
           (initialState (mkProcessEnv (Some "dev") None None)
              Cloud.emptyWorld)).
  apply too_long_is_no_topic_name. vm_compute. lia.
Defined.

Lemma createServiceTopics_makes_a_topic_once_witness :
  createServiceTopics (JArr (map JStr (["a"; ""] ++ [""; "a"; "a"])))
    (initialState Cloud.devEnvironment Cloud.emptyWorld)
  = createServiceTopics (JArr (map JStr ["a"; ""]))
      (initialState Cloud.devEnvironment Cloud.emptyWorld).
Proof.
  apply createServiceTopics_makes_a_topic_once.
  - discriminate.
  - repeat constructor; simpl; tauto.
Defined.

(** ** Publishing *)

Section PublishingProperties.

Context {W : Type} {provider : Provider W} {courier : Courier W}.
Variable pageBudget : nat.

Implicit Types (st : State W).

(** Without a message [publishMessageToTopic] publishes the text
    [No message provided.], and then reads it as JSON in order to save
    it, which throws: the call never reports success, and when the
    publishing request is accepted the callback is never invoked at
    all. *)
Theorem publishMessageToTopic_without_a_message t m attrs st :
  truthy m = false ->
  (forall data,
     fst (publishMessageToTopic pageBudget t m attrs st) <> Success data) /\
  (forall arn s1 s2 data s3,
     queuedGetTopicArn pageBudget t st = (Success arn, s1) ->
     getClients s1 = (Success tt, s2) ->
     dispatch (SnsPublish (JStr "No message provided.") (default ∅ attrs) arn)
       s2 = (Success data, s3) ->
     publishMessageToTopic pageBudget t m attrs st
     = (Uncaught (mkError "SyntaxError: Unexpected token in JSON"), s3)).
Proof.
  intros Hm.
  assert (Hmsg : orValue m (JStr "No message provided.")
                 = JStr "No message provided.")
    by (unfold orValue; now rewrite Hm).
  assert (Hparse : JSON_parse "No message provided." = None)
    by (vm_compute; reflexivity).
  split.
  - intros data Hdata.
    destruct (publishMessageToTopic pageBudget t m attrs st) as [o st'] eqn:E.
    cbn [fst] in Hdata. subst o. unfold publishMessageToTopic in E.
    destruct (negb (isValidTopicName t)); [discriminate|].
    rewrite Hmsg in E. cbn [ToString] in E. rewrite Hparse in E.
    apply bind_success in E as (arn & s1 & _ & E).
    destruct (negb (truthy arn)); [discriminate|].
    apply bind_success in E as ([] & s2 & _ & E).
    apply bind_success in E as (published & s3 & _ & E).
    discriminate.
  - intros arn s1 s2 data s3 Harn Hclients Hpublish.
    unfold publishMessageToTopic.
    pose proof Harn as Hok. unfold queuedGetTopicArn in Hok.
    apply getTopicArn_success in Hok as (Hvalid & _ & Htruthy).
    rewrite Hvalid, Hmsg. cbn [negb ToString]. rewrite Hparse.
    unfold bind at 1. rewrite Harn, Htruthy. cbn [negb].
    unfold bind at 1. rewrite Hclients.
    unfold bind at 1. rewrite Hpublish. reflexivity.
Qed.

(** A suffix with white space around it names two different service
    topics: [createServiceTopics] puts the suffix into the name as it is,
    so that the name is refused and no topic is made, while
    [publishEventToServiceTopic] trims the suffix first and publishes to
    the trimmed name. *)
Theorem service_topic_of_a_padded_suffix (suffix : string) event st :
  trim suffix <> suffix -> trim suffix <> "" ->
  createServiceTopics (JArr [JStr suffix]) st
  = (Failure
       (mkError ("topic name is invalid " ++ fst (getServiceName st) ++ "-"
                 ++ suffix)),
     snd (getServiceName st)) /\
  publishEventToServiceTopic pageBudget event (JStr suffix) st
  = publishEventToTopic pageBudget
      (JStr (fst (getServiceName st) ++ "-" ++ trim suffix)) event
      (snd (getServiceName st)).
Proof.
  intros Hpad Hblank.
  assert (Hlen : (String.length (trim suffix) <? 1)%nat = false).
  { destruct (trim suffix); [contradiction|reflexivity]. }
  assert (Hname : serviceTopicName (fst (getServiceName st)) suffix
                  = fst (getServiceName st) ++ "-" ++ suffix).
  { unfold serviceTopicName. now rewrite Hlen. }
  split.
  - assert (Hbad : isValidTopicName
                     (JStr (fst (getServiceName st) ++ "-" ++ suffix)) = false).
    { change (fst (getServiceName st) ++ "-" ++ suffix)
        with (fst (getServiceName st) ++ String "-" suffix).
      rewrite <- (string_append_assoc _ "-" suffix).
      now apply padded_is_no_topic_name. }
    unfold createServiceTopics.
    change (isEmpty (JArr [JStr suffix])) with false.
    cbn [collectionValues]. unfold bind at 1.
    rewrite (serviceTopicNames_strings [suffix]).
    cbn [map]. rewrite Hname. unfold ld_uniq.
    cbn [uniqFrom existsb map async_eachLimit].
    unfold bind at 1. cbn [argument nth].
    unfold createTopic. rewrite Hbad. reflexivity.
  - unfold publishEventToServiceTopic.
    destruct (getServiceName st) as [sName st1]. cbn [fst snd].
    assert (Htruthy : truthy (JStr suffix) = true).
    { destruct suffix; [|reflexivity]. exfalso. apply Hblank. reflexivity. }
    rewrite Htruthy.
    destruct (trim suffix); [contradiction|reflexivity].
Qed.

End PublishingProperties.

Lemma publishMessageToTopic_without_a_message_witness :
  (forall data,
     fst (publishMessageToTopic 1 (JStr "orders") JUndefined None
            Post.withOrders) <> Success data) /\
  (forall arn s1 s2 data s3,
     queuedGetTopicArn 1 (JStr "orders") Post.withOrders = (Success arn, s1) ->
     getClients s1 = (Success tt, s2) ->
     dispatch (SnsPublish (JStr "No message provided.") (default ∅ None) arn)
       s2 = (Success data, s3) ->
     publishMessageToTopic 1 (JStr "orders") JUndefined None Post.withOrders
     = (Uncaught (mkError "SyntaxError: Unexpected token in JSON"), s3)).
Proof.
  apply (publishMessageToTopic_without_a_message 1 (JStr "orders") JUndefined
           None Post.withOrders).
  reflexivity.
Defined.

(** The run of the witness: the text is published, nothing is saved. *)
Example publishMessageToTopic_without_a_message_run :
  let result :=
    publishMessageToTopic 1 (JStr "orders") JUndefined None Post.withOrders in
  fst result = Uncaught (mkError "SyntaxError: Unexpected token in JSON") /\
  Post.published (world (snd result))
  = [(JStr "arn:aws:sns:us-east-1:000000000000:dev_orders",
      JStr "No message provided.")] /\
  Post.saved (world (snd result)) = [].
Proof. cbv zeta. repeat split; vm_compute; reflexivity. Qed.

Lemma service_topic_of_a_padded_suffix_witness :
  let st := initialState Cloud.devEnvironment Post.emptyWorld in
  createServiceTopics (JArr [JStr " audit"]) st
  = (Failure
       (mkError ("topic name is invalid " ++ fst (getServiceName st) ++ "-"
                 ++ " audit")),
     snd (getServiceName st)) /\
  publishEventToServiceTopic 1 (JObj [("event", JStr "create")])
    (JStr " audit") st
  = publishEventToTopic 1
      (JStr (fst (getServiceName st) ++ "-" ++ trim " audit"))
      (JObj [("event", JStr "create")])
      (snd (getServiceName st)).
Proof.
  cbv zeta.
  apply (service_topic_of_a_padded_suffix 1 " audit").
  - vm_compute. discriminate.
  - vm_compute. discriminate.
Defined.

(** ** Events *)

Lemma truthy_orValue_object (v : JsValue) : truthy (orValue v (JObj [])) = true.
Proof. unfold orValue. destruct (truthy v) eqn:E; [exact E|reflexivity]. Qed.

Section EventProperties.

Context {W : Type}.
Variable now : string.
Variable elapsedSince : JsValue -> JsValue.
Variable getProcessId : JsValue -> JsValue.

Implicit Types (st : State W).

(** [createEventFromBarrel] returns [null] exactly when the barrel has
    neither [account] nor [accountId], or no [realmId], [serviceEvent],
    [resourceType] or [username]: the service name is never what is
    missing, since [getServiceName] always has a name.  Otherwise the
    event carries these fields, the service name as its service, the
    current time, and data. *)
Theorem createEventFromBarrel_requires_five_fields (barrel : JsValue) st :
  barrel <> JUndefined -> barrel <> JNull ->
  exists theEvent,
    fst (createEventFromBarrel now elapsedSince getProcessId barrel st)
    = Success theEvent /\
    if (truthy (ld_get1 barrel "account")
        || truthy (ld_get1 barrel "accountId"))
       && truthy (ld_get1 barrel "realmId")
       && truthy (ld_get1 barrel "serviceEvent")
       && truthy (ld_get1 barrel "resourceType")
       && truthy (ld_get1 barrel "username")
    then
      ld_get1 theEvent "account"
      = orValue (ld_get1 barrel "account") (ld_get1 barrel "accountId") /\
      ld_get1 theEvent "realm" = ld_get1 barrel "realmId" /\
      ld_get1 theEvent "service" = JStr (fst (getServiceName st)) /\
      ld_get1 theEvent "event" = ld_get1 barrel "serviceEvent" /\
      ld_get1 theEvent "type" = ld_get1 barrel "resourceType" /\
      ld_get1 theEvent "username" = ld_get1 barrel "username" /\
      ld_get1 theEvent "time" = JStr now /\
      truthy (ld_get1 theEvent "data") = true
    else theEvent = JNull.
Proof.
  intros Hu Hn.
  assert (Hread : readProperty barrel "account"
                  = Some (ld_get1 barrel "account")).
  { destruct barrel; try reflexivity; contradiction. }
  unfold createEventFromBarrel. rewrite Hread.
  pose proof (getServiceName_settled st) as (_ & Hname & _).
  pose proof (getServiceName_again st) as Hagain.
  destruct (getServiceName st) as [sName st1]. cbn [fst snd] in *.
  rewrite Hagain. unfold missingParameters. rewrite Hname.
  destruct (truthy (ld_get1 barrel "account")) eqn:Ha,
           (truthy (ld_get1 barrel "accountId")) eqn:Hb,
           (truthy (ld_get1 barrel "realmId")) eqn:Hr,
           (truthy (ld_get1 barrel "serviceEvent")) eqn:He,
           (truthy (ld_get1 barrel "resourceType")) eqn:Ht,
           (truthy (ld_get1 barrel "username")) eqn:Hn';
    cbn [negb andb orb app length Nat.ltb Nat.leb fst];
    try (eexists; split; reflexivity).
  all: eexists; split; [reflexivity|].
  all: unfold createEvent; cbn [length Nat.ltb Nat.leb orb argument nth truthy].
  all: destruct (truthy (transactionCode barrel)),
                (truthy (ld_get1 barrel "req")),
                (truthy (getProcessId (ld_get1 barrel "req")));
         cbn [app assignProperty setProperty String.eqb Ascii.eqb Bool.eqb
              ld_get1 getProperty];
         repeat split;
         first [ reflexivity
               | apply truthy_orValue_object
               | unfold orValue; rewrite ?Ha, ?Hb; reflexivity ].
Qed.

(** The event of [publishAppUpdateEvent] always names a group, the
    default group when none is given, and its payload is flagged as an
    application update unless the payload handed in flags itself
    otherwise: the flag of a payload object is never undefined. *)
Theorem appUpdateEvent_is_flagged
    (account realm username typeInPayload txcode groups fullPayload : JsValue) :
  let data :=
    ld_get1 (appUpdateEvent now account realm username typeInPayload txcode
               groups fullPayload) "data" in
  truthy (ld_get1 data "groups") = true /\
  hasLengthZero (ld_get1 data "groups") = false /\
  (truthy groups = false -> ld_get1 data "groups" = JArr [JStr "_appUpdate"]) /\
  (truthy fullPayload = false ->
   ld_get1 (ld_get1 data "payload") "isAppUpdate" = JBool true) /\
  (forall props, fullPayload = JObj props ->
   ld_get1 (ld_get1 data "payload") "isAppUpdate" <> JUndefined /\
   (getProperty "isAppUpdate" props <> JUndefined ->
    ld_get1 data "payload" = fullPayload)).
Proof.
  cbv zeta. unfold appUpdateEvent.
  cbn [app ld_get1 getProperty String.eqb Ascii.eqb Bool.eqb].
  repeat split.
  - destruct (truthy groups) eqn:Hg; cbn [negb orb]; [|reflexivity].
    destruct (hasLengthZero groups); [reflexivity|exact Hg].
  - destruct (truthy groups) eqn:Hg; cbn [negb orb]; [|reflexivity].
    destruct (hasLengthZero groups) eqn:Hz; [reflexivity|exact Hz].
  - intros ->. reflexivity.
  - intros ->. destruct (truthy typeInPayload); reflexivity.
  - subst fullPayload. cbn [truthy ld_get1].
    destruct (isUndefined (getProperty "isAppUpdate" props)) eqn:E.
    + cbn [assignProperty ld_get1]. rewrite getProperty_setProperty.
      discriminate.
    + cbn [ld_get1]. intros Hund. rewrite Hund in E. discriminate.
  - subst fullPayload. cbn [truthy ld_get1]. intros Hflag.
    destruct (isUndefined (getProperty "isAppUpdate" props)) eqn:E;
      [|reflexivity].
    destruct (getProperty "isAppUpdate" props); try discriminate.
    contradiction.
Qed.

End EventProperties.

(** ** Permissions of the configuration *)

(** The permission that [assemblePermission] puts together reads back as
    its four parts: the prefix, the service, the verb and the resource,
    in this order, with [create] for a verb that is missing or empty. *)
Theorem assemblePermission_reads_back (prefix service resource verb : string) :
  Forall (without ".") [prefix; service; resource; verb] ->
  split "." (assemblePermission prefix (JStr service) (JStr resource)
               (JStr verb))
  = [prefix; service; if String.eqb verb "" then "create" else verb; resource]
  /\
  split "." (assemblePermission prefix (JStr service) (JStr resource)
               JUndefined)
  = [prefix; service; "create"; resource].
Proof.
  intros Hall.
  apply Forall_cons in Hall as [Hp Hall].
  apply Forall_cons in Hall as [Hs Hall].
  apply Forall_cons in Hall as [Hr Hall].
  apply Forall_cons in Hall as [Hv _].
  assert (Hdot : forall x, "." ++ x = String "." x) by reflexivity.
  assert (Hcreate : without "." "create").
  { unfold without. simpl. intuition discriminate. }
  unfold assemblePermission. cbn [truthy negb ToString]. split.
  - destruct (String.eqb verb "") eqn:E; cbn [negb ToString];
      rewrite !Hdot, !split_append, split_without by assumption; reflexivity.
  - rewrite !Hdot, !split_append, split_without by assumption. reflexivity.
Qed.

Lemma assemblePermission_reads_back_witness :
  split "." (assemblePermission "services" (JStr "docs") (JStr "blob")
               (JStr "edit"))
  = ["services"; "docs"; if String.eqb "edit" "" then "create" else "edit";
     "blob"] /\
  split "." (assemblePermission "services" (JStr "docs") (JStr "blob")
               JUndefined)
  = ["services"; "docs"; "create"; "blob"].
Proof.
  apply assemblePermission_reads_back.
  repeat constructor; unfold without; simpl; intuition discriminate.
Defined.

Lemma createEventFromBarrel_requires_five_fields_witness :
  let barrel :=
    JObj [ ("accountId", JStr "acme"); ("realmId", JStr "prod");
           ("serviceEvent", JStr "create"); ("resourceType", JStr "doc");
           ("username", JStr "ada");
           ("meta", JObj [("tx", JStr "tx-1")]) ] in
  let st := initialState Cloud.devEnvironment Cloud.emptyWorld in
  exists theEvent,
    fst (createEventFromBarrel "2020-01-01T00:00:00.000Z"
           (fun _ => JNum 0) (fun _ => JUndefined) barrel st)
    = Success theEvent /\
    if (truthy (ld_get1 barrel "account")
        || truthy (ld_get1 barrel "accountId"))
       && truthy (ld_get1 barrel "realmId")
       && truthy (ld_get1 barrel "serviceEvent")
       && truthy (ld_get1 barrel "resourceType")
       && truthy (ld_get1 barrel "username")
    then
      ld_get1 theEvent "account"
      = orValue (ld_get1 barrel "account") (ld_get1 barrel "accountId") /\
      ld_get1 theEvent "realm" = ld_get1 barrel "realmId" /\
      ld_get1 theEvent "service" = JStr (fst (getServiceName st)) /\
      ld_get1 theEvent "event" = ld_get1 barrel "serviceEvent" /\
      ld_get1 theEvent "type" = ld_get1 barrel "resourceType" /\
      ld_get1 theEvent "username" = ld_get1 barrel "username" /\
      ld_get1 theEvent "time" = JStr "2020-01-01T00:00:00.000Z" /\
      truthy (ld_get1 theEvent "data") = true
    else theEvent = JNull.
Proof.
  cbv zeta.
  apply (createEventFromBarrel_requires_five_fields
           "2020-01-01T00:00:00.000Z" (fun _ => JNum 0) (fun _ => JUndefined));
    discriminate.
Defined.

(** ** How a queue is configured *)

Section QueueConfiguration.

Context {W : Type} {provider : Provider W}.

Implicit Types (st : State W).

Lemma respects_anyRequest {A} (P : LoggedRequest -> Prop) (m : M W A) :
  respects P m -> respects anyRequest m.
Proof. apply respects_weaken. intros r _. exact I. Qed.

Lemma grows {A} (m : M W A) st o st' :
  respects anyRequest m -> m st = (o, st') ->
  processEnv st' = processEnv st /\
  (forall e, environmentName st = Some e -> truthyStr e = true ->
             environmentName st' = Some e) /\
  (forall s, serviceName st = Some s -> truthyStr s = true ->
             (String.length s <= 24)%nat -> serviceName st' = Some s) /\
  exists l, calls st' = (calls st ++ l)%list.
Proof.
  intros Hm E. pose proof (outcome_evolves anyRequest m st o st' Hm E)
    as (He & Hn & Hs & _ & l & Hl & _).
  repeat split; auto. now exists l.
Qed.

Lemma respects_createDeadLetterQueue :
  respects anyRequest (createDeadLetterQueue (W:=W)).
Proof.
  unfold createDeadLetterQueue. respects_steps.
  - eapply respects_anyRequest, respects_getQualifiedQueueName.
  - eapply respects_anyRequest, respects_getQueueArn.
  - apply respects_queuePolicyText.
Qed.

(** The ARN that [getQueueArn] returns is the one that the provider gave
    for the URL that it gave for the qualified name of the queue. *)
Lemma getQueueArn_success t q st arn st' e s :
  getQueueArn t q st = (Success arn, st') ->
  environmentName st = Some e -> truthyStr e = true ->
  serviceName st = Some s -> truthyStr s = true ->
  (String.length s <= 24)%nat ->
  exists url l,
    calls st' = (calls st ++ l)%list /\
    In (Logged (SqsGetQueueUrl (qualifiedQueueName e t s q)) (inr url)) l /\
    In (Logged (SqsGetQueueAttributes (orElse url "")) (inr (Some arn))) l.
Proof.
  intros H He Hte Hs Hts Hl. unfold getQueueArn in H.
  apply bind_success in H as (url & s3 & Hurl & H).
  destruct (truthyStr (orElse url "")) eqn:Hturl; simpl in H; [|discriminate].
  apply bind_success in H as ([] & s4 & H4 & H).
  apply bind_success in H as (data & s5 & H5 & H).
  destruct data as [queueArn|]; [|discriminate].
  inversion H; subst arn st'. clear H.
  unfold getQueueUrl in Hurl.
  destruct (isValidTopicName t); simpl in Hurl; [|discriminate].
  destruct (isValidQueueName q); simpl in Hurl; [|discriminate].
  apply bind_success in Hurl as (n & s1 & H1 & Hurl).
  apply bind_success in Hurl as ([] & s2 & H2 & H3).
  pose proof (getQualifiedQueueName_settled _ _ _ _ _ _ _ H1 He Hte Hs Hts Hl)
    as Hn. subst n.
  destruct (grows _ _ _ _
              (respects_anyRequest _ _ (respects_getQualifiedQueueName t q)) H1)
    as (_ & _ & _ & l1 & L1).
  apply call_success in H2 as [L2 _]. apply call_success in H3 as [L3 _].
  apply call_success in H4 as [L4 _]. apply call_success in H5 as [L5 _].
  exists url. eexists (l1 ++ [_] ++ [_] ++ [_] ++ [_])%list.
  split; [|split].
  - rewrite L5, L4, L3, L2, L1. rewrite <- !app_assoc. reflexivity.
  - rewrite !in_app_iff. cbn [In]. auto 20.
  - rewrite !in_app_iff. cbn [In]. auto 20.
Qed.

(** A successful [createQueue] has created the queue under its qualified
    name with a retention of 12 hours, a polling interval of 20 seconds
    and a visibility timeout of 3 minutes, and the dead-letter queue of
    the service, under its qualified name, with a retention of 14 days.
    The ARN it returns is the one that the provider gave for the queue of
    that name; the last request it sent sets, on the URL of the queue
    created, the policy of [getQueuePolicy] for that ARN, and a redrive
    policy that moves a message after 10 receives to the ARN that the
    provider gave for the dead-letter queue. *)
Theorem createQueue_configures_the_queue t q cb st arn st' :
  createQueue t q cb st = (Success arn, st') ->
  exists e s l url urlRead dlqUrl dlqUrlRead dlqArn policy done,
    environmentName st' = Some e /\ serviceName st' = Some s /\
    calls st' = (calls st ++ l)%list /\
    In (Logged
          (SqsCreateQueue (qualifiedQueueName e t s q)
             [ ("MessageRetentionPeriod", "43200");
               ("ReceiveMessageWaitTimeSeconds", "20");
               ("VisibilityTimeout", "180") ])
          (inr url)) l /\
    In (Logged (SqsGetQueueUrl (qualifiedQueueName e t s q)) (inr urlRead))
      l /\
    In (Logged (SqsGetQueueAttributes (orElse urlRead "")) (inr (Some arn)))
      l /\
    In (Logged
          (SqsCreateQueue
             (qualifiedQueueName e (JStr "internal") s (JStr "dlq"))
             [("MessageRetentionPeriod", "1209600")])
          (inr dlqUrl)) l /\
    In (Logged
          (SqsGetQueueUrl
             (qualifiedQueueName e (JStr "internal") s (JStr "dlq")))
          (inr dlqUrlRead)) l /\
    In (Logged (SqsGetQueueAttributes (orElse dlqUrlRead ""))
          (inr (Some dlqArn))) l /\
    getQueuePolicy arn = Some policy /\
    last l
    = Some (Logged
              (SqsSetQueueAttributes url
                 [ ("Policy", JSON_stringify policy);
                   ("RedrivePolicy",
                    JSON_stringify
                      (JObj [ ("deadLetterTargetArn", ofOption dlqArn);
                              ("maxReceiveCount", JStr "10") ])) ])
              (inr done)).
Proof.
  intros H. apply callingBack_success in H.
  destruct (isValidTopicName t); simpl in H; [|discriminate].
  destruct (isValidQueueName q); simpl in H; [|discriminate].
  apply bind_success in H as (n & s1 & H1 & H).
  apply bind_success in H as ([] & s2 & H2 & H).
  apply bind_success in H as (url & s3 & H3 & H).
  apply bind_success in H as (queueArn & s4 & H4 & H).
  apply bind_success in H as (dlqArn & s5 & H5 & H).
  apply bind_success in H as (policy & s6 & H6 & H).
  apply bind_success in H as ([] & s7 & H7 & H).
  apply bind_success in H as (done & s8 & H8 & H).
  inversion H; subst arn st'. clear H.
  pose proof H1 as H1'.
  apply getQualifiedQueueName_success in H1'
    as (e & s & He & Hte & Hs & Hts & Hl & ->).
  (* the policy text *)
  unfold queuePolicyText in H6.
  destruct (getQueuePolicy queueArn) as [p|] eqn:Hp; [|discriminate].
  inversion H6; subst policy s6. clear H6.
  (* the queue and its ARN *)
  destruct (grows _ _ _ _ (respects_anyRequest _ _ (respects_getQualifiedQueueName t q)) H1)
    as (_ & _ & _ & l1 & L1).
  destruct (grows _ _ _ _ (respects_getClients anyRequest (fun _ => I)) H2)
    as (_ & Hn2 & Hs2 & l2 & L2).
  destruct (grows _ _ _ _ (respects_call anyRequest _ (fun _ => I)) H3)
    as (_ & Hn3 & Hs3 & _).
  apply call_success in H3 as [L3 _].
  assert (He3 : environmentName s3 = Some e) by auto.
  assert (Hs3' : serviceName s3 = Some s) by auto.
  destruct (grows _ _ _ _ (respects_anyRequest _ _ (respects_getQueueArn t q)) H4)
    as (_ & Hn4 & Hs4 & _).
  destruct (getQueueArn_success _ _ _ _ _ _ _ H4 He3 Hte Hs3' Hts Hl)
    as (urlRead & l4 & L4 & Hin4a & Hin4b).
  assert (He4 : environmentName s4 = Some e) by auto.
  assert (Hs4' : serviceName s4 = Some s) by auto.
  (* the dead-letter queue and its ARN *)
  unfold createDeadLetterQueue in H5.
  apply bind_success in H5 as (n' & d1 & D1 & H5).
  apply bind_success in H5 as ([] & d2 & D2 & H5).
  apply bind_success in H5 as (dlqUrl & d3 & D3 & H5).
  apply bind_success in H5 as (dlqArn' & d4 & D4 & H5).
  apply bind_success in H5 as (dlqPolicy & d5 & D5 & H5).
  apply bind_success in H5 as (dlqDone & d6 & D6 & H5).
  inversion H5; subst dlqArn' s5. clear H5.
  pose proof (getQualifiedQueueName_settled _ _ _ _ _ _ _ D1 He4 Hte Hs4' Hts Hl)
    as Hn'. subst n'.
  destruct (grows _ _ _ _
              (respects_anyRequest _ _
                 (respects_getQualifiedQueueName (JStr DLQ_TOPIC_NAME)
                    (JStr DLQ_QUEUE_NAME))) D1)
    as (_ & Hnd1 & Hsd1 & k1 & K1).
  destruct (grows _ _ _ _ (respects_getClients anyRequest (fun _ => I)) D2)
    as (_ & Hnd2 & Hsd2 & k2 & K2).
  destruct (grows _ _ _ _ (respects_call anyRequest _ (fun _ => I)) D3)
    as (_ & Hnd3 & Hsd3 & _).
  apply call_success in D3 as [K3 _].
  assert (Hed3 : environmentName d3 = Some e) by auto 10.
  assert (Hsd3' : serviceName d3 = Some s) by auto 10.
  destruct (getQueueArn_success _ _ _ _ _ _ _ D4 Hed3 Hte Hsd3' Hts Hl)
    as (dlqUrlRead & k4 & K4 & Hink4a & Hink4b).
  destruct (grows _ _ _ _
              (respects_anyRequest _ _
                 (respects_getQueueArn (JStr DLQ_TOPIC_NAME)
                    (JStr DLQ_QUEUE_NAME))) D4)
    as (_ & Hnd4 & Hsd4 & _).
  unfold queuePolicyText in D5.
  destruct (getQueuePolicy dlqArn) as [dp|]; [|discriminate].
  inversion D5; subst dlqPolicy d5. clear D5.
  destruct (grows _ _ _ _ (respects_call anyRequest _ (fun _ => I)) D6)
    as (_ & Hnd6 & Hsd6 & _).
  apply call_success in D6 as [K6 _].
  destruct (grows _ _ _ _ (respects_getClients anyRequest (fun _ => I)) H7)
    as (_ & Hn7 & Hs7 & l7 & L7).
  destruct (grows _ _ _ _ (respects_call anyRequest _ (fun _ => I)) H8)
    as (_ & Hn8 & Hs8 & _).
  apply call_success in H8 as [L8 _].
  exists e, s.
  eexists (l1 ++ l2 ++ [_] ++ l4 ++ (k1 ++ k2 ++ [_] ++ k4 ++ [_]) ++ l7
           ++ [_])%list.
  exists url, urlRead, dlqUrl, dlqUrlRead, dlqArn, p, done.
  split; [auto 20|]. split; [auto 20|].
  split; [|repeat split].
  - rewrite L8, L7, K6, K4, K3, K2, K1, L4, L3, L2, L1.
    rewrite <- !app_assoc. reflexivity.
  - rewrite !in_app_iff. cbn [In]. auto 20.
  - rewrite !in_app_iff. auto 20.
  - rewrite !in_app_iff. auto 20.
  - rewrite !in_app_iff. cbn [In]. auto 20.
  - rewrite !in_app_iff. auto 20.
  - rewrite !in_app_iff. auto 20.
  - rewrite !app_assoc. apply last_snoc.
Qed.

End QueueConfiguration.

Lemma createQueue_configures_the_queue_witness :
  let st := initialState Cloud.devEnvironment Cloud.emptyWorld in
  let st' := snd (createQueue (JStr "orders") (JStr "ledger") asyncCallback st) in
  exists e s l url urlRead dlqUrl dlqUrlRead dlqArn policy done,
    environmentName st' = Some e /\ serviceName st' = Some s /\
    calls st' = (calls st ++ l)%list /\
    In (Logged
          (SqsCreateQueue
             (qualifiedQueueName e (JStr "orders") s (JStr "ledger"))
             [ ("MessageRetentionPeriod", "43200");
               ("ReceiveMessageWaitTimeSeconds", "20");
               ("VisibilityTimeout", "180") ])
          (inr url)) l /\
    In (Logged
          (SqsGetQueueUrl
             (qualifiedQueueName e (JStr "orders") s (JStr "ledger")))
          (inr urlRead)) l /\
    In (Logged (SqsGetQueueAttributes (orElse urlRead ""))
          (inr (Some (Some Example.ledgerArn)))) l /\
    In (Logged
          (SqsCreateQueue
             (qualifiedQueueName e (JStr "internal") s (JStr "dlq"))
             [("MessageRetentionPeriod", "1209600")])
          (inr dlqUrl)) l /\
    In (Logged
          (SqsGetQueueUrl
             (qualifiedQueueName e (JStr "internal") s (JStr "dlq")))
          (inr dlqUrlRead)) l /\
    In (Logged (SqsGetQueueAttributes (orElse dlqUrlRead ""))
          (inr (Some dlqArn))) l /\
    getQueuePolicy (Some Example.ledgerArn) = Some policy /\
    last l
    = Some (Logged
              (SqsSetQueueAttributes url
                 [ ("Policy", JSON_stringify policy);
                   ("RedrivePolicy",
                    JSON_stringify
                      (JObj [ ("deadLetterTargetArn", ofOption dlqArn);
                              ("maxReceiveCount", JStr "10") ])) ])
              (inr done)).
Proof.
  cbv zeta.
  apply (createQueue_configures_the_queue (JStr "orders") (JStr "ledger")
           asyncCallback
           (initialState Cloud.devEnvironment Cloud.emptyWorld)).
  vm_compute. reflexivity.
Defined.

(** The run of the witness: the redrive policy names the ARN of the
    dead-letter queue of the service. *)
Example createQueue_configures_the_queue_run :
  let st := initialState Cloud.devEnvironment Cloud.emptyWorld in
  let st' := snd (createQueue (JStr "orders") (JStr "ledger") asyncCallback st) in
  last (calls st')
  = Some (Logged
            (SqsSetQueueAttributes
               (Some (Cloud.queueUrlOf "dev_orders_billing_ledger"))
               [ ("Policy",
                  JSON_stringify
                    (default JNull (getQueuePolicy (Some Example.ledgerArn))));
                 ("RedrivePolicy",
                  JSON_stringify
                    (getRedrivePolicy
                       (Some (Cloud.queueArnOf "dev_internal_billing_dlq")))) ])
            (inr JUndefined)).
Proof. cbv zeta. vm_compute. reflexivity. Qed.

(** ** A batch goes on after a name that is refused *)

Section BatchesGoOn.

Context {W : Type} {provider : Provider W}.

Implicit Types (st : State W).

Lemma async_map_skips (before after : list JsValue) (bad : JsValue)
    (iteratee : list JsValue -> M W JsValue) :
  (forall st, exists e, iteratee [bad; asyncCallback] st = (Failure e, st)) ->
  forall st,
    snd (async_map (before ++ bad :: after) iteratee st)
    = snd (async_map (before ++ after) iteratee st) /\
    (forall results,
       fst (async_map (before ++ bad :: after) iteratee st) <> Success results).
Proof.
  intros Hbad. induction before as [|item rest IH]; intros st.
  - cbn [app async_map]. destruct (Hbad st) as [e ->].
    destruct (async_map after iteratee st) as [[?|?|?|] ?]; cbn [fst snd];
      split; try reflexivity; intros ?; discriminate.
  - cbn [app async_map].
    destruct (iteratee [item; asyncCallback] st) as [[v|e|e|] st1].
    + unfold bind. specialize (IH st1).
      destruct (async_map (rest ++ bad :: after) iteratee st1)
        as [[?|?|?|] ?], (async_map (rest ++ after) iteratee st1)
        as [[?|?|?|] ?]; cbn [fst snd ret] in *;
        destruct IH as [IH1 IH2]; split; try assumption;
        try (intros ?; discriminate); exfalso; now apply (IH2 a).
    + specialize (IH st1).
      destruct (async_map (rest ++ bad :: after) iteratee st1)
        as [[?|?|?|] ?], (async_map (rest ++ after) iteratee st1)
        as [[?|?|?|] ?]; cbn [fst snd] in *;
        destruct IH as [IH1 IH2]; split; try assumption;
        intros ?; discriminate.
    + split; [reflexivity|intros ?; discriminate].
    + split; [reflexivity|intros ?; discriminate].
Qed.

(** A batch of topics is not atomic: when one of the names is not a
    valid topic name, [createTopics] and [deleteTopics] report an error,
    and yet they request everything for the other names, exactly as if
    the refused name had not been in the list. *)
Theorem topic_batches_go_on_after_a_refused_name
    (pageBudget : nat) (before after : list JsValue) (bad : JsValue) st :
  isValidTopicName bad = false -> (before ++ after)%list <> [] ->
  (snd (createTopics (JArr (before ++ bad :: after)) st)
   = snd (createTopics (JArr (before ++ after)) st) /\
   forall results,
     fst (createTopics (JArr (before ++ bad :: after)) st) <> Success results)
  /\
  (snd (deleteTopics pageBudget (JArr (before ++ bad :: after)) st)
   = snd (deleteTopics pageBudget (JArr (before ++ after)) st) /\
   forall results,
     fst (deleteTopics pageBudget (JArr (before ++ bad :: after)) st)
     <> Success results).
Proof.
  intros Hbad Hne.
  assert (H1 : noArrayOfNames (JArr (before ++ bad :: after)) = false)
    by (destruct before; reflexivity).
  assert (H2 : noArrayOfNames (JArr (before ++ after)) = false).
  { destruct (before ++ after)%list; [contradiction|reflexivity]. }
  unfold createTopics, deleteTopics. rewrite H1, H2. cbn [arrayItems].
  split; apply async_map_skips; intros s;
    cbn [argument nth]; [unfold createTopic|unfold deleteTopic];
    rewrite Hbad; eexists; reflexivity.
Qed.

End BatchesGoOn.

Lemma topic_batches_go_on_after_a_refused_name_witness :
  let st := initialState Cloud.devEnvironment Cloud.emptyWorld in
  (snd (createTopics (JArr ([JStr "orders"] ++ JStr "no good" :: [JStr "invoices"])) st)
   = snd (createTopics (JArr ([JStr "orders"] ++ [JStr "invoices"])) st) /\
   forall results,
     fst (createTopics
            (JArr ([JStr "orders"] ++ JStr "no good" :: [JStr "invoices"])) st)
     <> Success results)
  /\
  (snd (deleteTopics 1
          (JArr ([JStr "orders"] ++ JStr "no good" :: [JStr "invoices"])) st)
   = snd (deleteTopics 1 (JArr ([JStr "orders"] ++ [JStr "invoices"])) st) /\
   forall results,
     fst (deleteTopics 1
            (JArr ([JStr "orders"] ++ JStr "no good" :: [JStr "invoices"])) st)
     <> Success results).
Proof.
  cbv zeta.
  apply (topic_batches_go_on_after_a_refused_name 1 [JStr "orders"]
           [JStr "invoices"] (JStr "no good")).
  - reflexivity.
  - discriminate.
Defined.

(** ** An event that could not be created *)

Section IncompleteBarrel.

Context {W : Type} {provider : Provider W} {courier : Courier W}.
Variable pageBudget : nat.
Variable now : string.
Variable elapsedSince : JsValue -> JsValue.
Variable getProcessId : JsValue -> JsValue.

Implicit Types (st : State W).

Lemma createEventFromBarrel_incomplete (barrel : JsValue) st :
  barrel <> JUndefined -> barrel <> JNull ->
  (truthy (ld_get1 barrel "account") || truthy (ld_get1 barrel "accountId"))
  && truthy (ld_get1 barrel "realmId")
  && truthy (ld_get1 barrel "serviceEvent")
  && truthy (ld_get1 barrel "resourceType")
  && truthy (ld_get1 barrel "username") = false ->
  createEventFromBarrel now elapsedSince getProcessId barrel st
  = (Success JNull, snd (getServiceName st)).
Proof.
  intros Hu Hn Hmiss.
  assert (Hread : readProperty barrel "account"
                  = Some (ld_get1 barrel "account")).
  { destruct barrel; try reflexivity; contradiction. }
  unfold createEventFromBarrel. rewrite Hread.
  destruct (getServiceName st) as [sName st1]. cbn [snd].
  unfold missingParameters.
  destruct (truthy (ld_get1 barrel "account")),
           (truthy (ld_get1 barrel "accountId")),
           (truthy (ld_get1 barrel "realmId")),
           (truthy (ld_get1 barrel "serviceEvent")),
           (truthy (ld_get1 barrel "resourceType")),
           (truthy (ld_get1 barrel "username"));
    try discriminate Hmiss;
    destruct (truthyStr sName); reflexivity.
Qed.

(** A barrel that misses a required field does not stop
    [publishServiceEventFromBarrel]: the event is [null], its JSON text
    [null] is what gets published to the topic of the service, and the
    attempt to save it throws, so that nothing is saved. *)
Theorem publishServiceEventFromBarrel_publishes_null
    (barrel : JsValue) st arn s2 s3 data s4 :
  barrel <> JUndefined -> barrel <> JNull ->
  (truthy (ld_get1 barrel "account") || truthy (ld_get1 barrel "accountId"))
  && truthy (ld_get1 barrel "realmId")
  && truthy (ld_get1 barrel "serviceEvent")
  && truthy (ld_get1 barrel "resourceType")
  && truthy (ld_get1 barrel "username") = false ->
  queuedGetTopicArn pageBudget (JStr (fst (getServiceName st)))
    (snd (getServiceName st)) = (Success arn, s2) ->
  getClients s2 = (Success tt, s3) ->
  dispatch (SnsPublish (JStr "null") ∅ arn) s3 = (Success data, s4) ->
  publishServiceEventFromBarrel pageBudget now elapsedSince getProcessId
    barrel st
  = (Uncaught
       (mkError "TypeError: Cannot read properties of null (reading 'username')"),
     s4).
Proof.
  intros Hu Hn Hmiss Harn Hclients Hpublish.
  unfold publishServiceEventFromBarrel. unfold bind at 1.
  rewrite (createEventFromBarrel_incomplete barrel st Hu Hn Hmiss).
  unfold publishServiceEvent, publishEventToServiceTopic.
  rewrite getServiceName_again. cbn [truthy].
  unfold publishEventToTopic.
  change (ofOption (JSON_stringify JNull)) with (JStr "null").
  change (convertEventToMessageAttributes (ownProperties JNull))
    with (∅ : gmap string MessageAttribute).
  unfold publishMessageToTopic.
  pose proof Harn as Hok. unfold queuedGetTopicArn in Hok.
  apply getTopicArn_success in Hok as (Hvalid & _ & Htruthy).
  rewrite Hvalid. cbn [negb].
  change (orValue (JStr "null") (JStr "No message provided."))
    with (JStr "null").
  cbn [ToString].
  assert (Hparse : JSON_parse "null" = Some JNull) by (vm_compute; reflexivity).
  rewrite Hparse.
  unfold bind at 1. rewrite Harn, Htruthy. cbn [negb].
  unfold bind at 1. rewrite Hclients.
  unfold bind at 1.
  change (default ∅ (Some (∅ : gmap string MessageAttribute)))
    with (∅ : gmap string MessageAttribute).
  rewrite Hpublish.
  reflexivity.
Qed.

End IncompleteBarrel.

Lemma publishServiceEventFromBarrel_publishes_null_witness :
  let barrel := JObj [("realmId", JStr "prod"); ("username", JStr "ada")] in
  let st :=
    snd (createServiceTopic asyncCallback
           (initialState Cloud.devEnvironment Post.emptyWorld)) in
  let result :=
    publishServiceEventFromBarrel 1 "2020-01-01T00:00:00.000Z"
      (fun _ => JNum 0) (fun _ => JUndefined) barrel st in
  result
  = (Uncaught
       (mkError "TypeError: Cannot read properties of null (reading 'username')"),
     snd result) /\
  Post.published (world (snd result))
  = [(JStr "arn:aws:sns:us-east-1:000000000000:dev_billing", JStr "null")] /\
  Post.saved (world (snd result)) = [].
Proof.
  cbv zeta. split; [|split; vm_compute; reflexivity].
  apply (publishServiceEventFromBarrel_publishes_null 1
           "2020-01-01T00:00:00.000Z" (fun _ => JNum 0) (fun _ => JUndefined)
           (JObj [("realmId", JStr "prod"); ("username", JStr "ada")])
           (snd (createServiceTopic asyncCallback
                   (initialState Cloud.devEnvironment Post.emptyWorld)))
           (JStr "arn:aws:sns:us-east-1:000000000000:dev_billing")
           (snd (queuedGetTopicArn 1 (JStr "billing")
                   (snd (createServiceTopic asyncCallback
                           (initialState Cloud.devEnvironment
                              Post.emptyWorld)))))
           (snd (getClients
                   (snd (queuedGetTopicArn 1 (JStr "billing")
                           (snd (createServiceTopic asyncCallback
                                   (initialState Cloud.devEnvironment
                                      Post.emptyWorld)))))))
           (JObj [("MessageId", JStr "0")])).
  - discriminate.
  - discriminate.
  - reflexivity.
  - vm_compute. reflexivity.
  - vm_compute. reflexivity.
  - vm_compute. reflexivity.
Defined.

(** ** JSON text, written and read back *)

Lemma JsValue_nested_ind (P : JsValue -> Prop) :
  P JUndefined -> P JNull -> (forall b, P (JBool b)) -> (forall n, P (JNum n)) ->
  (forall s, P (JStr s)) ->
  (forall items, Forall P items -> P (JArr items)) ->
  (forall props, Forall (fun p => P (snd p)) props -> P (JObj props)) ->
  (forall src, P (JFun src)) ->
  forall v, P v.
Proof.
  intros Hu Hn Hb Hnum Hs Harr Hobj Hf.
  fix IH 1. intros [| |b|n|s|items|props|src].
  - exact Hu.
  - exact Hn.
  - apply Hb.
  - apply Hnum.
  - apply Hs.
  - apply Harr. induction items as [|x items IHitems]; constructor.
    + apply IH.
    + exact IHitems.
  - apply Hobj. induction props as [|[k x] props IHprops]; constructor.
    + apply IH.
    + exact IHprops.
  - apply Hf.
Qed.

(** *** Numbers *)

Lemma pretty_N_char_digit (d : N) :
  (d < 10)%N ->
  isDigit (pretty_N_char d) = true /\
  Z.of_N (N_of_ascii (pretty_N_char d) - 48) = Z.of_N d.
Proof.
  intros Hd.
  assert (d = 0 \/ d = 1 \/ d = 2 \/ d = 3 \/ d = 4 \/ d = 5 \/ d = 6
          \/ d = 7 \/ d = 8 \/ d = 9)%N as H by lia.
  repeat (destruct H as [->|H]; [split; reflexivity|]). subst. split; reflexivity.
Qed.

Lemma parseDigits_pretty_N_go (x : N) :
  exists k : Z, forall (acc : Z) (s : string),
    parseDigits acc (pretty_N_go x s) = parseDigits (acc * k + Z.of_N x) s.
Proof.
  induction (N.lt_wf_0 x) as [x _ IH].
  destruct (N.eq_dec x 0%N) as [->|Hx].
  - exists 1%Z. intros acc s. rewrite pretty_N_go_0. f_equal. lia.
  - assert (Hpos : (0 < x)%N) by lia.
    destruct (IH (x / 10)%N) as [k Hk]; [apply N.div_lt; lia|].
    exists (10 * k)%Z. intros acc s.
    rewrite pretty_N_go_step by assumption. rewrite Hk.
    destruct (pretty_N_char_digit (x mod 10)%N) as [Hd Hv];
      [apply N.mod_lt; lia|].
    cbn [parseDigits]. rewrite Hd, Hv. f_equal.
    rewrite (N.div_mod x 10%N) at 3 by lia. lia.
Qed.

Lemma pretty_N_go_append (x : N) (s rest : string) :
  pretty_N_go x s ++ rest = pretty_N_go x (s ++ rest).
Proof.
  revert s. induction (N.lt_wf_0 x) as [x _ IH]; intros s.
  destruct (N.eq_dec x 0%N) as [->|Hx].
  - now rewrite !pretty_N_go_0.
  - rewrite (pretty_N_go_step x s), (pretty_N_go_step x (s ++ rest)) by lia.
    rewrite IH by (apply N.div_lt; lia). reflexivity.
Qed.

Lemma pretty_N_go_first (x : N) (s : string) :
  (0 < x)%N ->
  exists c t, pretty_N_go x s = String c t /\
              isDigit c = true /\ Ascii.eqb c "0" = false.
Proof.
  revert s. induction (N.lt_wf_0 x) as [x _ IH]; intros s Hx.
  rewrite pretty_N_go_step by assumption.
  destruct (N.eq_dec (x / 10)%N 0%N) as [Hz|Hz].
  - rewrite Hz, pretty_N_go_0.
    assert (Hsmall : (x < 10)%N).
    { destruct (N.lt_ge_cases x 10) as [H|H]; [assumption|]. exfalso.
      assert (1 <= x / 10)%N by (apply N.div_le_lower_bound; lia). lia. }
    rewrite N.mod_small by assumption.
    exists (pretty_N_char x), s. split; [reflexivity|].
    assert (x = 1 \/ x = 2 \/ x = 3 \/ x = 4 \/ x = 5 \/ x = 6
            \/ x = 7 \/ x = 8 \/ x = 9)%N as H by lia.
    repeat (destruct H as [->|H]; [split; reflexivity|]). subst.
    split; reflexivity.
  - apply IH; [apply N.div_lt; lia|].
    destruct (x / 10)%N; [contradiction|reflexivity].
Qed.

Lemma parseDigits_stops (n : Z) (rest : string) :
  endsNumber rest = true -> parseDigits n rest = (n, rest).
Proof.
  destruct rest as [|c rest]; [reflexivity|]. simpl.
  destruct (isDigit c); [|reflexivity].
  rewrite !orb_true_r. discriminate.
Qed.

Lemma parseInteger_pretty (n : Z) (rest : string) :
  endsNumber rest = true ->
  parseInteger (pretty n ++ rest) = Some (n, rest).
Proof.
  intros Hrest.
  assert (Hpos : forall p : positive,
            exists c t, pretty (Npos p) ++ rest = String c t /\
                        isDigit c = true /\ Ascii.eqb c "0" = false /\
                        Ascii.eqb c "-" = false /\
                        parseDigits 0 (String c t) = (Zpos p, rest)).
  { intros p. unfold pretty, pretty_N.
    destruct (decide (Npos p = 0%N)) as [E|_]; [discriminate E|].
    rewrite pretty_N_go_append. change ("" ++ rest) with rest.
    destruct (pretty_N_go_first (Npos p) rest) as (c & t & E & Hd & H0);
      [reflexivity|].
    exists c, t. rewrite E. repeat split; try assumption.
    - destruct (Ascii.eqb c "-") eqn:Edash; [|reflexivity].
      apply Ascii.eqb_eq in Edash. subst c. discriminate Hd.
    - rewrite <- E.
      destruct (parseDigits_pretty_N_go (Npos p)) as [k Hk].
      rewrite Hk. cbn [Z.mul Z.add Z.of_N].
      now apply parseDigits_stops. }
  destruct n as [|p|p].
  - change (pretty 0%Z) with "0". change ("0" ++ rest) with (String "0" rest).
    unfold parseInteger. cbn. now rewrite Hrest.
  - change (pretty (Zpos p)) with (pretty (Npos p)).
    destruct (Hpos p) as (c & t & E & Hd & H0 & Hdash & Hparse).
    rewrite E. unfold parseInteger. rewrite Hdash, H0, Hd, Hparse.
    now rewrite Hrest.
  - change (pretty (Zneg p)) with ("-" ++ pretty (Npos p)).
    change (("-" ++ pretty (Npos p)) ++ rest)
      with (String "-" (pretty (Npos p) ++ rest)).
    destruct (Hpos p) as (c & t & E & Hd & H0 & Hdash & Hparse).
    rewrite E. unfold parseInteger. cbn [Ascii.eqb Bool.eqb].
    rewrite H0, Hd, Hparse. now rewrite Hrest.
Qed.

(** *** The parser, one step at a time *)

Lemma parseValue_array (b : nat) (s : string) :
  parseValue (S b) (String "[" s)
  = match skipWhiteSpace s with
    | String "]" after => Some (JArr [], after)
    | _ => parseElements b [] s
    end.
Proof. reflexivity. Qed.

Lemma parseValue_object (b : nat) (s : string) :
  parseValue (S b) (String "{" s)
  = match skipWhiteSpace s with
    | String "}" after => Some (JObj [], after)
    | _ => parseMembers b [] s
    end.
Proof. reflexivity. Qed.

Lemma parseValue_string (b : nat) (s : string) :
  parseValue (S b) (String doubleQuote s)
  = match parseStringBody s with
    | Some (text, after) => Some (JStr text, after)
    | None => None
    end.
Proof. reflexivity. Qed.

Lemma parseValue_number (b : nat) (c : ascii) (s : string) :
  isDigit c || Ascii.eqb c "-" = true ->
  parseValue (S b) (String c s)
  = match parseInteger (String c s) with
    | Some (n, after) => Some (JNum n, after)
    | None => None
    end.
Proof.
  destruct c as [[] [] [] [] [] [] [] []]; intros H; try discriminate H;
    reflexivity.
Qed.

Lemma parseElements_step (b : nat) (read : list JsValue) (s : string) :
  parseElements (S b) read s
  = match parseValue b s with
    | Some (v, after) =>
        match skipWhiteSpace after with
        | String "," more => parseElements b (read ++ [v])%list more
        | String "]" more => Some (JArr (read ++ [v])%list, more)
        | _ => None
        end
    | None => None
    end.
Proof. reflexivity. Qed.

Lemma parseMembers_step (b : nat) (read : list (string * JsValue))
    (s : string) :
  parseMembers (S b) read (String doubleQuote s)
  = match parseStringBody s with
    | Some (key, after) =>
        match skipWhiteSpace after with
        | String ":" more =>
            match parseValue b more with
            | Some (v, after') =>
                match skipWhiteSpace after' with
                | String "," more' =>
                    parseMembers b (setProperty key v read) more'
                | String "}" more' =>
                    Some (JObj (setProperty key v read), more')
                | _ => None
                end
            | None => None
            end
        | _ => None
        end
    | None => None
    end.
Proof. reflexivity. Qed.

(** *** The words [null], [true] and [false] *)

Lemma prefix_append (a b : string) : String.prefix a (a ++ b) = true.
Proof.
  induction a as [|c a IH]; [destruct b; reflexivity|].
  change (String c a ++ b) with (String c (a ++ b)). simpl.
  rewrite IH. destruct (Ascii.ascii_dec c c); [reflexivity|contradiction].
Qed.

Lemma substring_whole (s : string) : String.substring 0 (String.length s) s = s.
Proof. induction s as [|c s IH]; simpl; [reflexivity|now rewrite IH]. Qed.

Lemma substring_after (a b : string) :
  String.substring (String.length a)
    (String.length (a ++ b) - String.length a) (a ++ b) = b.
Proof.
  rewrite length_append.
  replace (String.length a + String.length b - String.length a)%nat
    with (String.length b) by lia.
  induction a as [|c a IH]; [apply substring_whole|].
  change (String c a ++ b) with (String c (a ++ b)). exact IH.
Qed.

Lemma parseLiteral_append (word : string) (v : JsValue) (rest : string) :
  parseLiteral word v (word ++ rest) = Some (v, rest).
Proof.
  unfold parseLiteral. now rewrite prefix_append, substring_after.
Qed.

(** *** The first character of a text *)

Lemma startsValue_is_no_white_space (c : ascii) (s : string) :
  startsValue c = true -> skipWhiteSpace (String c s) = String c s.
Proof.
  destruct c as [[] [] [] [] [] [] [] []]; intros H; try discriminate H;
    reflexivity.
Qed.

Lemma stringify_array (items : list JsValue) :
  JSON_stringify (JArr items)
  = Some ("[" ++ join "," (map (fun x => default "null" (JSON_stringify x))
                            items) ++ "]").
Proof.
  cbn [JSON_stringify].
  match goal with
  | |- Some (_ ++ join _ ?l ++ _) = _ =>
      assert (E : l = map (fun x => default "null" (JSON_stringify x)) items)
  end.
  { induction items as [|x items IH]; [reflexivity|].
    cbn [map]. rewrite <- IH. destruct (JSON_stringify x); reflexivity. }
  now rewrite E.
Qed.

Lemma stringify_object (props : list (string * JsValue)) :
  Forall (fun p => JSON_stringify (snd p) <> None) props ->
  JSON_stringify (JObj props)
  = Some ("{" ++ join "," (map (fun p => quoteString (fst p) ++ ":"
                                         ++ default "" (JSON_stringify (snd p)))
                            props) ++ "}").
Proof.
  intros Hall. cbn [JSON_stringify].
  match goal with
  | |- Some (_ ++ join _ ?l ++ _) = _ =>
      assert (E : l = map (fun p => quoteString (fst p) ++ ":"
                                    ++ default "" (JSON_stringify (snd p)))
                        props)
  end.
  { induction Hall as [|[k x] props Hx _ IH]; [reflexivity|].
    cbn [map fst snd] in *. rewrite <- IH.
    destruct (JSON_stringify x); [reflexivity|contradiction]. }
  now rewrite E.
Qed.

Lemma plainJSON_stringify (v : JsValue) :
  plainJSON v = true -> JSON_stringify v <> None.
Proof. destruct v as [| |[]| | | | |]; simpl; intros H; discriminate. Qed.

Lemma stringify_first (v : JsValue) (text : string) :
  plainJSON v = true -> JSON_stringify v = Some text ->
  exists c t, text = String c t /\ startsValue c = true.
Proof.
  destruct v as [| |[]|n|s|items|props|src]; intros Hp H;
    try discriminate Hp.
  - inversion H. eexists _, _. split; reflexivity.
  - inversion H. eexists _, _. split; reflexivity.
  - inversion H. eexists _, _. split; reflexivity.
  - cbn [JSON_stringify] in H. inversion H. subst text.
    destruct n as [|p|p].
    + eexists _, _. split; reflexivity.
    + change (pretty (Zpos p)) with (pretty (Npos p)).
      unfold pretty, pretty_N.
      destruct (decide (Npos p = 0%N)) as [E|_]; [discriminate E|].
      destruct (pretty_N_go_first (Npos p) "") as (c & t & E & Hd & _);
        [reflexivity|].
      exists c, t. split; [exact E|]. unfold startsValue. now rewrite Hd.
    + eexists "-"%char, _. split; reflexivity.
  - inversion H. eexists _, _. split; reflexivity.
  - rewrite stringify_array in H. inversion H. eexists _, _. split; reflexivity.
  - cbn [JSON_stringify] in H. inversion H. eexists _, _. split; reflexivity.
Qed.

(** *** What is written is read back *)

Lemma parseValue_null (b : nat) (s : string) :
  parseValue (S b) (String "n" s) = parseLiteral "null" JNull (String "n" s).
Proof. reflexivity. Qed.

Lemma parseValue_true (b : nat) (s : string) :
  parseValue (S b) (String "t" s)
  = parseLiteral "true" (JBool true) (String "t" s).
Proof. reflexivity. Qed.

Lemma parseValue_false (b : nat) (s : string) :
  parseValue (S b) (String "f" s)
  = parseLiteral "false" (JBool false) (String "f" s).
Proof. reflexivity. Qed.

Lemma append_empty (s : string) : s ++ "" = s.
Proof.
  induction s as [|c s IH]; [reflexivity|].
  change (String c s ++ "") with (String c (s ++ "")). now rewrite IH.
Qed.

Lemma pretty_Z_first (n : Z) :
  exists c t, pretty n = String c t /\ isDigit c || Ascii.eqb c "-" = true.
Proof.
  destruct n as [|p|p].
  - eexists _, _. split; reflexivity.
  - change (pretty (Zpos p)) with (pretty (Npos p)).
    unfold pretty, pretty_N.
    destruct (decide (Npos p = 0%N)) as [E|_]; [discriminate E|].
    destruct (pretty_N_go_first (Npos p) "") as (c & t & E & Hd & _);
      [reflexivity|].
    exists c, t. split; [exact E|]. now rewrite Hd.
  - eexists "-"%char, _. split; reflexivity.
Qed.

Lemma setProperty_fresh (key : string) (v : JsValue)
    (read : list (string * JsValue)) :
  ~ In key (map fst read) -> setProperty key v read = (read ++ [(key, v)])%list.
Proof.
  induction read as [|[k old] read IH]; intros Hfresh; [reflexivity|].
  simpl in *. destruct (String.eqb k key) eqn:E.
  - apply String.eqb_eq in E. exfalso. apply Hfresh. now left.
  - rewrite IH; [reflexivity|]. intros Hin. apply Hfresh. now right.
Qed.

Lemma join_more (sep p q : string) (r : list string) :
  join sep (p :: q :: r) = p ++ sep ++ join sep (q :: r).
Proof. reflexivity. Qed.

Lemma parseElements_texts (items : list JsValue) :
  items <> [] -> Forall readsBack items -> forallb plainJSON items = true ->
  forall (read : list JsValue) (b : nat) (rest : string),
    (String.length (join "," (textsOf items)) < b)%nat ->
    parseElements b read (join "," (textsOf items) ++ String "]" rest)
    = Some (JArr (read ++ items)%list, rest).
Proof.
  induction items as [|x items IH]; [contradiction|].
  intros _ Hall Hplain read b rest Hb.
  apply Forall_cons in Hall as [Hx Hall].
  cbn [forallb] in Hplain. apply andb_true_iff in Hplain as [Hpx Hpitems].
  destruct (JSON_stringify x) as [t|] eqn:Et;
    [|now apply plainJSON_stringify in Hpx].
  destruct b as [|b]; [lia|]. rewrite parseElements_step.
  change (textsOf (x :: items))
    with (default "null" (JSON_stringify x) :: textsOf items) in *.
  rewrite Et in *. change (default "null" (Some t)) with t in *.
  destruct items as [|y more].
  - cbn [textsOf map join] in *.
    rewrite (Hx Hpx t Et b (String "]" rest)) by (lia || reflexivity).
    reflexivity.
  - change (textsOf (y :: more))
      with (default "null" (JSON_stringify y) :: textsOf more) in Hb |- *.
    rewrite join_more in Hb |- *.
    change (default "null" (JSON_stringify y) :: textsOf more)
      with (textsOf (y :: more)) in Hb |- *.
    rewrite !length_append in Hb. cbn [String.length] in Hb.
    rewrite !string_append_assoc.
    change ("," ++ ?z) with (String "," z).
    rewrite (Hx Hpx t Et b) by (lia || reflexivity).
    cbn [skipWhiteSpace existsb Ascii.eqb Bool.eqb orb].
    rewrite IH by (discriminate || assumption || lia).
    now rewrite <- app_assoc.
Qed.

Lemma parseMembers_texts (props : list (string * JsValue)) :
  props <> [] -> Forall (fun p => readsBack (snd p)) props ->
  forallb (fun p => plainJSON (snd p)) props = true ->
  forall (read : list (string * JsValue)) (b : nat) (rest : string),
    NoDup (map fst (read ++ props)) ->
    (String.length (join "," (membersOf props)) < b)%nat ->
    parseMembers b read (join "," (membersOf props) ++ String "}" rest)
    = Some (JObj (read ++ props)%list, rest).
Proof.
  induction props as [|[k x] props IH]; [contradiction|].
  intros _ Hall Hplain read b rest Hkeys Hb.
  apply Forall_cons in Hall as [Hx Hall]. cbn [snd] in Hx.
  cbn [forallb snd] in Hplain. apply andb_true_iff in Hplain as [Hpx Hpprops].
  destruct (JSON_stringify x) as [t|] eqn:Et;
    [|now apply plainJSON_stringify in Hpx].
  destruct b as [|b]; [lia|].
  assert (Hfresh : ~ In k (map fst read)).
  { rewrite map_app in Hkeys. apply NoDup_app in Hkeys as (_ & Hdisj & _).
    intros Hin. apply list_elem_of_In in Hin. apply (Hdisj k Hin).
    cbn [map fst]. left. }
  assert (Hkeys' : NoDup (map fst ((read ++ [(k, x)]) ++ props))).
  { now rewrite <- app_assoc. }
  change (membersOf ((k, x) :: props))
    with ((quoteString k ++ ":" ++ default "" (JSON_stringify x))
          :: membersOf props) in *.
  rewrite Et in *. change (default "" (Some t)) with t in *.
  unfold quoteString in *.
  destruct props as [|q more].
  - cbn [membersOf map join] in *.
    rewrite !length_append in Hb. cbn [String.length] in Hb.
    change (String doubleQuote (escapeString k ++ String doubleQuote "")
            ++ ":" ++ t)
      with (String doubleQuote
              ((escapeString k ++ String doubleQuote "") ++ ":" ++ t)).
    change (String doubleQuote ?a ++ ?r) with (String doubleQuote (a ++ r)).
    etransitivity; [apply parseMembers_step|].
    rewrite !string_append_assoc.
    change (String doubleQuote "" ++ ?z) with (String doubleQuote z).
    rewrite parseStringBody_escapeString.
    change (":" ++ ?z) with (String ":" z).
    cbn [skipWhiteSpace existsb Ascii.eqb Bool.eqb orb].
    rewrite (Hx Hpx t Et b (String "}" rest)) by (lia || reflexivity).
    cbn [skipWhiteSpace existsb Ascii.eqb Bool.eqb orb].
    now rewrite setProperty_fresh.
  - change (membersOf (q :: more))
      with ((quoteString (fst q) ++ ":"
             ++ default "" (JSON_stringify (snd q))) :: membersOf more)
      in Hb |- *.
    rewrite join_more in Hb |- *.
    change ((quoteString (fst q) ++ ":"
             ++ default "" (JSON_stringify (snd q))) :: membersOf more)
      with (membersOf (q :: more)) in Hb |- *.
    rewrite !length_append in Hb. cbn [String.length] in Hb.
    change (String doubleQuote (escapeString k ++ String doubleQuote "")
            ++ ":" ++ t)
      with (String doubleQuote
              ((escapeString k ++ String doubleQuote "") ++ ":" ++ t)).
    change (String doubleQuote ?a ++ ?r) with (String doubleQuote (a ++ r)).
    change (String doubleQuote ?a ++ ?r) with (String doubleQuote (a ++ r)).
    rewrite parseMembers_step.
    rewrite !string_append_assoc.
    change (String doubleQuote "" ++ ?z) with (String doubleQuote z).
    rewrite parseStringBody_escapeString.
    change (":" ++ ?z) with (String ":" z).
    cbn [skipWhiteSpace existsb Ascii.eqb Bool.eqb orb].
    change ("," ++ ?z) with (String "," z).
    rewrite (Hx Hpx t Et b) by (lia || reflexivity).
    cbn [skipWhiteSpace existsb Ascii.eqb Bool.eqb orb].
    rewrite setProperty_fresh by assumption.
    rewrite IH by (discriminate || assumption || lia).
    now rewrite <- app_assoc.
Qed.

Lemma not_closing_bracket {A : Type} (c : ascii) (s : string)
    (f : string -> A) (d : A) :
  startsValue c = true ->
  match skipWhiteSpace (String c s) with
  | String "]" after => f after
  | _ => d
  end = d.
Proof.
  destruct c as [[] [] [] [] [] [] [] []]; intros H; try discriminate H;
    reflexivity.
Qed.

Lemma not_closing_brace {A : Type} (c : ascii) (s : string)
    (f : string -> A) (d : A) :
  startsValue c = true ->
  match skipWhiteSpace (String c s) with
  | String "}" after => f after
  | _ => d
  end = d.
Proof.
  destruct c as [[] [] [] [] [] [] [] []]; intros H; try discriminate H;
    reflexivity.
Qed.

Lemma join_first (t : string) (more : list string) (c : ascii) (s : string) :
  t = String c s -> exists s', join "," (t :: more) = String c s'.
Proof.
  intros ->. destruct more as [|q more]; [now exists s|].
  rewrite join_more. eexists. reflexivity.
Qed.

Lemma parseValue_stringify (v : JsValue) : readsBack v.
Proof.
  induction v as [| |flag|n|s|items IH|props IH|src] using JsValue_nested_ind;
    intros Hp text Ht budget rest Hb Hrest; try discriminate Hp.
  - inversion Ht; subst text. destruct budget; [simpl in Hb; lia|].
    change ("null" ++ rest) with (String "n" ("ull" ++ rest)).
    rewrite parseValue_null. apply (parseLiteral_append "null").
  - destruct flag; inversion Ht; subst text;
      (destruct budget; [simpl in Hb; lia|]).
    + change ("true" ++ rest) with (String "t" ("rue" ++ rest)).
      rewrite parseValue_true. apply (parseLiteral_append "true").
    + change ("false" ++ rest) with (String "f" ("alse" ++ rest)).
      rewrite parseValue_false. apply (parseLiteral_append "false").
  - cbn [JSON_stringify] in Ht. inversion Ht; subst text.
    destruct (pretty_Z_first n) as (c & t & E & Hc).
    destruct budget; [rewrite E in Hb; simpl in Hb; lia|].
    pose proof (parseInteger_pretty n rest Hrest) as Hparse.
    rewrite E in Hparse |- *.
    change (String c t ++ rest) with (String c (t ++ rest)) in Hparse |- *.
    rewrite parseValue_number by assumption. now rewrite Hparse.
  - cbn [JSON_stringify] in Ht. inversion Ht; subst text.
    destruct budget; [simpl in Hb; lia|]. unfold quoteString.
    change (String doubleQuote ?a ++ ?r) with (String doubleQuote (a ++ r)).
    rewrite parseValue_string, string_append_assoc.
    change (String doubleQuote "" ++ rest) with (String doubleQuote rest).
    now rewrite parseStringBody_escapeString.
  - rewrite stringify_array in Ht. inversion Ht; subst text.
    fold (textsOf items) in *.
    destruct budget; [simpl in Hb; lia|].
    change ("[" ++ ?z) with (String "[" z) in Hb |- *.
    cbn [String.length] in Hb. rewrite length_append in Hb.
    cbn [String.length] in Hb.
    change (String "[" ?a ++ ?r) with (String "[" (a ++ r)).
    rewrite parseValue_array, string_append_assoc.
    change ("]" ++ rest) with (String "]" rest).
    destruct items as [|x more]; [reflexivity|].
    cbn [plainJSON forallb] in Hp.
    assert (Hpx : plainJSON x = true) by now apply andb_true_iff in Hp.
    destruct (JSON_stringify x) as [t|] eqn:Et;
      [|now apply plainJSON_stringify in Hpx].
    destruct (stringify_first x t Hpx Et) as (c & s0 & E0 & Hc).
    destruct (join_first t (textsOf more) c s0 E0) as [s' E'].
    assert (E : join "," (textsOf (x :: more)) = String c s').
    { unfold textsOf in *. cbn [map]. rewrite Et. exact E'. }
    etransitivity.
    { rewrite E. change (String c s' ++ ?r) with (String c (s' ++ r)).
      apply (not_closing_bracket c _ (fun after => Some (JArr [], after))).
      exact Hc. }
    change (String c (s' ++ String "]" rest))
      with (String c s' ++ String "]" rest).
    rewrite <- E.
    apply (parseElements_texts (x :: more)); [discriminate|assumption| |lia].
    exact Hp.
  - cbn [plainJSON] in Hp. apply andb_true_iff in Hp as [Hp Hkeys].
    apply bool_decide_eq_true in Hkeys.
    assert (Hsome : Forall (fun p => JSON_stringify (snd p) <> None) props).
    { clear -Hp. induction props as [|p props IHp]; constructor.
      - cbn [forallb] in Hp. apply andb_true_iff in Hp as [H _].
        now apply plainJSON_stringify.
      - apply IHp. cbn [forallb] in Hp. now apply andb_true_iff in Hp. }
    rewrite (stringify_object props Hsome) in Ht. inversion Ht; subst text.
    fold (membersOf props) in *.
    destruct budget; [simpl in Hb; lia|].
    change ("{" ++ ?z) with (String "{" z) in Hb |- *.
    cbn [String.length] in Hb. rewrite length_append in Hb.
    cbn [String.length] in Hb.
    change (String "{" ?a ++ ?r) with (String "{" (a ++ r)).
    rewrite parseValue_object, string_append_assoc.
    change ("}" ++ rest) with (String "}" rest).
    destruct props as [|[k x] more]; [reflexivity|].
    assert (E : exists s', join "," (membersOf ((k, x) :: more))
                           = String doubleQuote s').
    { apply join_first with (s := escapeString k ++ String doubleQuote ""
                                   ++ ":" ++ default "" (JSON_stringify x)).
      cbn [fst snd]. unfold quoteString.
      change (String doubleQuote ?a ++ ?r) with (String doubleQuote (a ++ r)).
      now rewrite string_append_assoc. }
    destruct E as [s' E].
    etransitivity.
    { rewrite E.
      change (String doubleQuote s' ++ ?r) with (String doubleQuote (s' ++ r)).
      apply (not_closing_brace doubleQuote _
               (fun after => Some (JObj [], after))).
      reflexivity. }
    change (String doubleQuote (s' ++ String "}" rest))
      with (String doubleQuote s' ++ String "}" rest).
    rewrite <- E.
    apply (parseMembers_texts ((k, x) :: more));
      [discriminate|assumption|assumption|exact Hkeys|lia].
Qed.

(** [JSON.parse] reads back what [JSON.stringify] wrote. *)
Lemma JSON_parse_stringify (v : JsValue) (text : string) :
  plainJSON v = true -> JSON_stringify v = Some text ->
  JSON_parse text = Some v.
Proof.
  intros Hp Ht. unfold JSON_parse.
  pose proof (parseValue_stringify v Hp text Ht
                (2 * String.length text + 2) "") as H.
  rewrite append_empty in H. rewrite H by (lia || reflexivity).
  reflexivity.
Qed.

(** ** What was written as JSON, read back by the module *)

Section ReadBack.

Context {W : Type} {provider : Provider W} {courier : Courier W}.
Variable pageBudget : nat.

Implicit Types (st : State W).

Lemma stringify_has_characters (v : JsValue) (text : string) :
  plainJSON v = true -> JSON_stringify v = Some text -> truthyStr text = true.
Proof.
  intros Hp Ht. destruct (stringify_first v text Hp Ht) as (c & t & -> & _).
  reflexivity.
Qed.

(** When the provider hands back the text of the policy that the first
    [addToTopicPolicy] returned, and JSON holds that policy entirely, the
    second call reads the same policy, finds the statement in it and
    writes nothing. *)
Theorem addToTopicPolicy_again_with_the_policy_as_written
    t s st p1 st1 s2 s3 :
  truthy t = true -> truthy s = true ->
  addToTopicPolicy pageBudget t s st = (Success p1, st1) ->
  plainJSON p1 = true ->
  getClients st1 = (Success tt, s2) ->
  call (SnsGetTopicAttributes (cacheGet (cachedTopicArns st1) (ToString t))) s2
  = (Success (JSON_stringify p1), s3) ->
  addToTopicPolicy pageBudget t s st1 = (Success p1, s3) /\
  countCalls isSetTopicAttributes (calls s3)
  = countCalls isSetTopicAttributes (calls st1).
Proof.
  intros Ht Hs H1 Hplain Hclients Hread.
  pose proof (addToTopicPolicy_has_the_statement pageBudget t s st p1 st1
                Ht Hs H1) as Hhas.
  apply addToTopicPolicy_success in H1 as (Hv & (e & He & Hte) & Hc);
    try assumption.
  destruct (JSON_stringify p1) as [text|] eqn:Etext;
    [|now apply plainJSON_stringify in Hplain].
  assert (Hpolicy : getCurrentTopicPolicy
                      (cacheGet (cachedTopicArns st1) (ToString t)) st1
                    = (Success p1, s3)).
  { unfold getCurrentTopicPolicy. unfold bind at 1. rewrite Hclients.
    unfold bind at 1. rewrite Hread. rewrite orElse_Some.
    rewrite (stringify_has_characters p1 text Hplain Etext). cbn [negb].
    now rewrite (JSON_parse_stringify p1 text Hplain Etext). }
  split.
  - unfold addToTopicPolicy. rewrite Ht, Hs. simpl.
    unfold bind at 1. rewrite (getQualifiedTopicName_set t st1 e Hv He Hte).
    unfold bind at 1. rewrite (getTopicArn_hit pageBudget t st1 Hv Hc).
    unfold bind at 1. rewrite Hpolicy.
    unfold updateCurrentPolicy. now rewrite Hhas.
  - apply evolves_reads_count; [apply read_is_no_setTopicAttributes|].
    pose proof (respects_getCurrentTopicPolicy
                  (cacheGet (cachedTopicArns st1) (ToString t)) st1) as H.
    now rewrite Hpolicy in H.
Qed.

(** An event that JSON holds entirely is saved as it was given:
    [publishEventToTopic] publishes its JSON text, and what
    [publishMessageToTopic] reads back from the text and hands to
    [saveEventToDB] is the event itself. *)
Theorem publishEventToTopic_saves_the_event
    t event text st arn s1 s2 data s3 :
  plainJSON event = true -> JSON_stringify event = Some text ->
  queuedGetTopicArn pageBudget t st = (Success arn, s1) ->
  getClients s1 = (Success tt, s2) ->
  dispatch (SnsPublish (JStr text)
              (convertEventToMessageAttributes (ownProperties event)) arn) s2
  = (Success data, s3) ->
  publishEventToTopic pageBudget t event st
  = match saveEventToDB event s3 with
    | (Success _, st') => (Success tt, st')
    | (Failure _, st') => (Success tt, st')
    | (Uncaught e, st') => (Uncaught e, st')
    | (Pending, st') => (Pending, st')
    end.
Proof.
  intros Hplain Htext Harn Hclients Hpublish.
  unfold publishEventToTopic, publishMessageToTopic.
  pose proof Harn as Hok. unfold queuedGetTopicArn in Hok.
  apply getTopicArn_success in Hok as (Hvalid & _ & Htruthy).
  rewrite Hvalid, Htext. cbn [negb ofOption].
  assert (Hmsg : orValue (JStr text) (JStr "No message provided.") = JStr text).
  { unfold orValue. cbn [truthy].
    pose proof (stringify_has_characters event text Hplain Htext) as H.
    unfold truthyStr in H. now rewrite H. }
  rewrite Hmsg. cbn [ToString].
  rewrite (JSON_parse_stringify event text Hplain Htext).
  unfold bind at 1. rewrite Harn, Htruthy. cbn [negb].
  unfold bind at 1. rewrite Hclients.
  unfold bind at 1.
  change (default ∅ (Some (convertEventToMessageAttributes
                             (ownProperties event))))
    with (convertEventToMessageAttributes (ownProperties event)).
  rewrite Hpublish. unfold bind.
  destruct (saveEventToDB event s3) as [[[]|e|e|] st']; reflexivity.
Qed.

End ReadBack.

Lemma addToTopicPolicy_again_with_the_policy_as_written_witness :
  let st0 :=
    snd (createTopics (JArr [JStr "orders"])
           (initialState Cloud.devEnvironment Cloud.emptyWorld)) in
  let st1 := snd (addToTopicPolicy 1 (JStr "orders") Example.allowPublish st0) in
  let s3 :=
    snd (call (SnsGetTopicAttributes
                 (cacheGet (cachedTopicArns st1) (ToString (JStr "orders"))))
           (snd (getClients st1))) in
  addToTopicPolicy 1 (JStr "orders") Example.allowPublish st1
  = (Success Example.policyWithAllowPublish, s3) /\
  countCalls isSetTopicAttributes (calls s3)
  = countCalls isSetTopicAttributes (calls st1).
Proof.
  cbv zeta.
  apply (addToTopicPolicy_again_with_the_policy_as_written 1 (JStr "orders")
           Example.allowPublish
           (snd (createTopics (JArr [JStr "orders"])
                   (initialState Cloud.devEnvironment Cloud.emptyWorld)))
           Example.policyWithAllowPublish
           (snd (addToTopicPolicy 1 (JStr "orders") Example.allowPublish
                   (snd (createTopics (JArr [JStr "orders"])
                           (initialState Cloud.devEnvironment
                              Cloud.emptyWorld)))))
           (snd (getClients
                   (snd (addToTopicPolicy 1 (JStr "orders")
                           Example.allowPublish
                           (snd (createTopics (JArr [JStr "orders"])
                                   (initialState Cloud.devEnvironment
                                      Cloud.emptyWorld)))))))).
  - reflexivity.
  - reflexivity.
  - vm_compute. reflexivity.
  - vm_compute. reflexivity.
  - vm_compute. reflexivity.
  - vm_compute. reflexivity.
Defined.

Lemma publishEventToTopic_saves_the_event_witness :
  let event :=
    JObj [("event", JStr "create"); ("account", JStr "acme");
          ("realm", JStr "prod"); ("username", JStr "ada");
          ("time", JNum 1577836800000)] in
  let result := publishEventToTopic 1 (JStr "orders") event Post.withOrders in
  fst result = Success tt /\
  Post.saved (world (snd result))
  = [JObj [("_data", event);
           ("_permissions", JObj
              [("owner", JStr "ada");
               ("rights", JObj [("owner", JArr [JStr "r"]);
                                ("realm", JArr [JStr "r"]);
                                ("roles", JObj [])])])]].
Proof.
  cbv zeta.
  rewrite (publishEventToTopic_saves_the_event 1 (JStr "orders")
             (JObj [("event", JStr "create"); ("account", JStr "acme");
                    ("realm", JStr "prod"); ("username", JStr "ada");
                    ("time", JNum 1577836800000)])
             (default EmptyString
                (JSON_stringify
                   (JObj [("event", JStr "create"); ("account", JStr "acme");
                          ("realm", JStr "prod"); ("username", JStr "ada");
                          ("time", JNum 1577836800000)])))
             Post.withOrders
             (JStr "arn:aws:sns:us-east-1:000000000000:dev_orders")
             (snd (queuedGetTopicArn 1 (JStr "orders") Post.withOrders))
             (snd (getClients
                     (snd (queuedGetTopicArn 1 (JStr "orders")
                             Post.withOrders))))
             (JObj [("MessageId", JStr "0")])
             (snd (dispatch
                     (SnsPublish
                        (JStr (default EmptyString
                                 (JSON_stringify
                                    (JObj [("event", JStr "create");
                                           ("account", JStr "acme");
                                           ("realm", JStr "prod");
                                           ("username", JStr "ada");
                                           ("time", JNum 1577836800000)]))))
                        (convertEventToMessageAttributes
                           (ownProperties
                              (JObj [("event", JStr "create");
                                     ("account", JStr "acme");
                                     ("realm", JStr "prod");
                                     ("username", JStr "ada");
                                     ("time", JNum 1577836800000)])))
                        (JStr "arn:aws:sns:us-east-1:000000000000:dev_orders"))
                     (snd (getClients
                             (snd (queuedGetTopicArn 1 (JStr "orders")
                                     Post.withOrders))))))).
  - split; vm_compute; reflexivity.
  - vm_compute. reflexivity.
  - vm_compute. reflexivity.
  - vm_compute. reflexivity.
  - vm_compute. reflexivity.
  - vm_compute. reflexivity.
Defined.

(** ** What [JSON.parse] reads is held by JSON entirely *)








(** ** Twice the same statement, one copy *)

Section TwiceOneCopy.

Context {W : Type} {provider : Provider W}.
Variable pageBudget : nat.

Implicit Types (st : State W).









End TwiceOneCopy.



